(** * foundry-mcp: command execution and Anvil node lifecycle

    A shallow embedding of [src/utils/exec.ts], of the Anvil tool handlers
    ([anvil_start], [anvil_stop], [anvil_status], the node-control
    operations and [jsonRpcCall]), of [src/tools/chisel.ts],
    [src/tools/help.ts] and [src/tools/forge.ts], of the Cast tool
    handlers, of the documentation resource, of
    [src/resources/project.ts] and of the patterns of
    [src/utils/validation.ts], followed by the properties the
    specification states about them.

    Conventions of the embedding.
    - A JavaScript string is a sequence of UTF-16 code units; the embedding
      keeps the code units below 256, one [ascii] each, so that
      [String.length] is the [.length] of the source.
    - A JavaScript number is embedded when it is an integer, as a [Z];
      every number the handlers receive for a port, a block count, a
      timestamp or an exit code is one.  In an option set, where the
      schemas also let other numbers through, a number that is not a safe
      integer is embedded as the binary64 value it is.
    - An object is the list of its own properties in creation order; a
      [Map] is the list of its entries in insertion order.
    - Asynchronous handlers run to completion one after the other: a
      handler is a function of the state (outside world, registry, log of
      the effects issued) to a completion and a new state. *)

From Stdlib Require Import ZArith NArith Bool List String Ascii Lia.
From Stdlib Require Import Permutation Sorted.
From Stdlib Require Import DecimalString HexadecimalString DecimalN HexadecimalN.
From Stdlib Require Import DecimalPos HexadecimalPos.
From Stdlib Require Import SpecFloat.
Import ListNotations.

Set Warnings "-register-all".

Local Open Scope string_scope.
Local Open Scope Z_scope.

(* ================================================================== *)
(** ** JavaScript values and built-ins used by the sources *)
(* ================================================================== *)

Module Js.

(** The line feed of the template literals and of [join("\n")]. *)
Definition LF : string := String (ascii_of_nat 10) EmptyString.

(** White space and line terminators stripped by [String.prototype.trim]
    (the ones below code unit 256): TAB, LF, VT, FF, CR, SP, NBSP. *)
Definition is_white_space (c : ascii) : bool :=
  let n := nat_of_ascii c in
  ((9 <=? n) && (n <=? 13))%nat || (n =? 32)%nat || (n =? 160)%nat.

Fixpoint trimStart (s : string) : string :=
  match s with
  | EmptyString => EmptyString
  | String c rest => if is_white_space c then trimStart rest else s
  end.

Fixpoint trimEnd (s : string) : string :=
  match s with
  | EmptyString => EmptyString
  | String c rest =>
      match trimEnd rest with
      | EmptyString => if is_white_space c then EmptyString
                       else String c EmptyString
      | kept => String c kept
      end
  end.

Definition trim (s : string) : string := trimEnd (trimStart s).

(** [s.startsWith(p)]. *)
Definition startsWith (s p : string) : bool := String.prefix p s.

(** [s.includes(p)]. *)
Fixpoint includes (s p : string) : bool :=
  String.prefix p s ||
  match s with
  | EmptyString => false
  | String _ rest => includes rest p
  end.

(** [s.replace(/c/g, by)] for a one-character pattern [c] and a
    replacement text without [$]. *)
Fixpoint replace_all (c : ascii) (by_ : string) (s : string) : string :=
  match s with
  | EmptyString => EmptyString
  | String d rest =>
      if Ascii.eqb d c then by_ ++ replace_all c by_ rest
      else String d (replace_all c by_ rest)
  end.

(** [parts.join(sep)]. *)
Definition join (sep : string) (parts : list string) : string :=
  String.concat sep parts.

(** A string is truthy when it is not empty. *)
Definition truthy_string (s : string) : bool :=
  negb (String.eqb s EmptyString).

(** [String(n)] and [`${n}`] for an integer number in the safe range,
    from [-2^53] to [2^53], where every integer is a Number and prints as
    its decimal digits with a leading minus sign. *)
Definition String_of_number (n : Z) : string :=
  DecimalString.NilZero.string_of_int (Z.to_int n).

(** [n.toString(16)] for a non-negative integer number or bigint. *)
Definition toString16 (n : N) : string :=
  HexadecimalString.NilZero.string_of_uint (N.to_hex_uint n).

(** The numeric value of a string of hexadecimal digits. *)
Definition hex_value (s : string) : option N :=
  option_map N.of_hex_uint (HexadecimalString.NilZero.uint_of_string s).

(** *** Numbers in general

    A Number is a binary64 floating-point value: a NaN, an infinity, a
    zero, or [m * 2^e] with its sign, where [m] has 53 bits, or fewer and
    [e = -1074]. *)
Definition number : Type := spec_float.

(** The integer [n] as a Number: [n] itself in the safe range, the
    nearest Number (ties to the even significand) beyond. *)
Definition Number_of_Z (n : Z) : number := binary_normalize 53 1024 n 0 false.

(** The quotient [a / b] of two integers as a Number, as the division of
    the language gives it. *)
Definition Number_of_quotient (a b : Z) : number :=
  SFdiv 53 1024 (Number_of_Z a) (Number_of_Z b).

(** [c * 2^b * 10^d], kept exactly for comparisons. *)
Record scaled : Type := { coefficient : Z; binary : Z; decimal : Z }.

Definition spread_to (x : scaled) (b d : Z) : Z :=
  coefficient x * 2 ^ (binary x - b) * 10 ^ (decimal x - d).

Definition scaled_compare (x y : scaled) : comparison :=
  let b := Z.min (binary x) (binary y) in
  let d := Z.min (decimal x) (decimal y) in
  Z.compare (spread_to x b d) (spread_to y b d).

(** [|x - v|] against [|y - v|]. *)
Definition nearer (v x y : scaled) : comparison :=
  let b := Z.min (binary v) (Z.min (binary x) (binary y)) in
  let d := Z.min (decimal v) (Z.min (decimal x) (decimal y)) in
  Z.compare (Z.abs (spread_to x b d - spread_to v b d))
            (Z.abs (spread_to y b d - spread_to v b d)).

Section Shortest.
(** The positive Number [m * 2^e]. *)
Variables (m e : Z).

Definition exactly : scaled :=
  {| coefficient := m; binary := e; decimal := 0 |}.

(** The reals that round to the Number lie between the midpoints to its
    two neighbours; the lower neighbour is half as far when the Number is
    a power of two above the subnormals.  The midpoints themselves round
    to it when its significand is even. *)
Definition upper_midpoint : scaled :=
  {| coefficient := 4 * m + 2; binary := e - 2; decimal := 0 |}.

Definition lower_midpoint : scaled :=
  {| coefficient := if (m =? 2 ^ 52) && (-1074 <? e) then 4 * m - 1
                    else 4 * m - 2;
     binary := e - 2; decimal := 0 |}.

Definition rounds_here (c : scaled) : bool :=
  match scaled_compare lower_midpoint c, scaled_compare c upper_midpoint with
  | Lt, Lt => true
  | Eq, (Lt | Eq) | Lt, Eq => Z.even m
  | _, _ => false
  end.

(** The [n] with [10^(n-1) <= m * 2^e < 10^n], looked for around an
    estimate from the binary logarithm. *)
Definition decimal_exponent : Z :=
  let estimate := (Z.log2 m + e) * 1233 / 4096 in
  let fits n :=
    match scaled_compare
            {| coefficient := 1; binary := 0; decimal := n - 1 |} exactly,
          scaled_compare
            exactly {| coefficient := 1; binary := 0; decimal := n |} with
    | (Lt | Eq), Lt => true
    | _, _ => false
    end in
  match find fits [estimate - 1; estimate; estimate + 1; estimate + 2;
                   estimate + 3] with
  | Some n => n
  | None => estimate
  end.

(** The largest [s] with [s * 10^j <= m * 2^e]. *)
Definition floor_at (j : Z) : Z :=
  (m * 2 ^ Z.max e 0 * 10 ^ Z.max (- j) 0)
  / (2 ^ Z.max (- e) 0 * 10 ^ Z.max j 0).

(** The decimals [s * 10^j] with [s] of [k] digits that round to the
    Number, among the two that enclose it. *)
Definition candidates_at (k j : Z) : list scaled :=
  filter (fun c => (10 ^ (k - 1) <=? coefficient c)
                   && (coefficient c <? 10 ^ k) && rounds_here c)
         [ {| coefficient := floor_at j; binary := 0; decimal := j |};
           {| coefficient := floor_at j + 1; binary := 0; decimal := j |} ].

Definition candidates (k : Z) : list scaled :=
  let n := decimal_exponent in
  (candidates_at k (n - k - 1) ++ candidates_at k (n - k)
   ++ candidates_at k (n - k + 1))%list.

(** The candidate nearest to the Number; of two equally near, the even
    one. *)
Definition nearest (l : list scaled) : option scaled :=
  fold_left (fun best c =>
               match best with
               | None => Some c
               | Some b =>
                   match nearer exactly c b with
                   | Lt => Some c
                   | Eq => if Z.even (coefficient c) then Some c else Some b
                   | Gt => Some b
                   end
               end) l None.

(** The fewest digits first: [k] digits are tried before [k + 1]. *)
Fixpoint shortest_from (k : Z) (fuel : nat) : option (Z * scaled) :=
  match fuel with
  | O => None
  | S fuel' =>
      match nearest (candidates k) with
      | Some c => Some (k, c)
      | None => shortest_from (k + 1) fuel'
      end
  end.

(** Seventeen digits tell any two Numbers apart. *)
Definition shortest : option (Z * scaled) := shortest_from 1 17.

End Shortest.

Fixpoint zeros (n : nat) : string :=
  match n with
  | O => EmptyString
  | S n' => String "0" (zeros n')
  end.

(** The text for the digits [s], their number [k] and the decimal
    exponent [n]: plain digits for [n] from [-5] to [21], the exponent
    notation otherwise. *)
Definition layout (s k n : Z) : string :=
  let text := String_of_number s in
  if (-5 <=? n) && (n <=? 21) then
    if k <=? n then text ++ zeros (Z.to_nat (n - k))
    else if 0 <? n then
      substring 0 (Z.to_nat n) text ++ "."
      ++ substring (Z.to_nat n) (Z.to_nat (k - n)) text
    else "0." ++ zeros (Z.to_nat (- n)) ++ text
  else
    let exponent := n - 1 in
    let sign := if exponent <? 0 then "-" else "+" in
    let mantissa := if k =? 1 then text
                    else substring 0 1 text ++ "."
                         ++ substring 1 (Z.to_nat (k - 1)) text in
    mantissa ++ "e" ++ sign ++ String_of_number (Z.abs exponent).

(** The Number a value of [spec_float] stands for: itself when it is in
    the form above, the Number nearest to it otherwise. *)
Definition canonical (x : number) : number :=
  match x with
  | S754_finite negative m e =>
      binary_normalize 53 1024 (if negative then Zneg m else Zpos m) e
                       negative
  | _ => x
  end.

(** [Number::toString(x, 10)], which [String(x)] and [`${x}`] apply to a
    Number: the decimal with the fewest digits that rounds to [x], the
    nearest to [x] if there are several, laid out as above.  Seventeen
    digits always suffice, so that a decimal is found. *)
Definition Number_toString (x : number) : string :=
  match canonical x with
  | S754_nan => "NaN"
  | S754_zero _ => "0"
  | S754_infinity false => "Infinity"
  | S754_infinity true => "-Infinity"
  | S754_finite negative m e =>
      (if negative then "-" else EmptyString)
      ++ match shortest (Zpos m) e with
         | Some (k, c) => layout (coefficient c) k (decimal c + k)
         | None => "NaN"
         end
  end.

(** Values of an option set: [string | number | boolean | undefined].
    [VNumber n] is the integer Number [n] of the safe range; [VDouble x]
    is any Number. *)
Inductive value : Type :=
| VUndefined
| VBoolean (b : bool)
| VNumber (n : Z)
| VDouble (x : number)
| VString (s : string).

(** [String(v)]. *)
Definition String_ (v : value) : string :=
  match v with
  | VUndefined => "undefined"
  | VBoolean true => "true"
  | VBoolean false => "false"
  | VNumber n => String_of_number n
  | VDouble x => Number_toString x
  | VString s => s
  end.

(** *** Objects

    An object is the list of its own properties in creation order.
    [OrdinaryOwnPropertyKeys] lists first the keys that are array
    indices, in ascending numeric order, then the other string keys in
    creation order; [Object.entries] and the spread follow it. *)
Definition object (A : Type) : Type := list (string * A).

(** An array index is the canonical decimal form of an integer in
    [0, 2^32 - 2]. *)
Definition array_index (key : string) : option N :=
  match DecimalString.NilZero.uint_of_string key with
  | Some d =>
      let n := N.of_uint d in
      if String.eqb (DecimalString.NilZero.string_of_uint (N.to_uint n)) key
         && (n <? 4294967295)%N
      then Some n else None
  | None => None
  end.

Definition is_array_index {A} (p : string * A) : bool :=
  match array_index (fst p) with Some _ => true | None => false end.

Definition index_of {A} (p : string * A) : N :=
  match array_index (fst p) with Some n => n | None => 0%N end.

Fixpoint insert_by_index {A} (p : string * A) (sorted : list (string * A))
  : list (string * A) :=
  match sorted with
  | [] => [p]
  | q :: rest =>
      if (index_of p <? index_of q)%N then p :: sorted
      else q :: insert_by_index p rest
  end.

Fixpoint sort_by_index {A} (l : list (string * A)) : list (string * A) :=
  match l with
  | [] => []
  | p :: rest => insert_by_index p (sort_by_index rest)
  end.

Definition Object_entries {A} (o : object A) : list (string * A) :=
  sort_by_index (filter is_array_index o)
  ++ filter (fun p => negb (is_array_index p)) o.

Fixpoint get {A} (o : object A) (key : string) : option A :=
  match o with
  | [] => None
  | (k, v) :: rest => if String.eqb k key then Some v else get rest key
  end.

(** [o[key] = v]: an existing property keeps its place. *)
Fixpoint set {A} (o : object A) (key : string) (v : A) : object A :=
  match o with
  | [] => [(key, v)]
  | (k, w) :: rest =>
      if String.eqb k key then (k, v) :: rest else (k, w) :: set rest key v
  end.

(** [{ ...base, ...src }] continued from an object under construction. *)
Definition spread {A} (base src : object A) : object A :=
  fold_left (fun o p => set o (fst p) (snd p)) (Object_entries src) base.

(** What a [catch] clause receives: an [Error] with its message, or any
    other thrown value, kept as its [String(...)]. *)
Inductive thrown : Type :=
| ThrownError (message : string)
| ThrownOther (as_string : string).

(** [error instanceof Error ? error.message : String(error)]. *)
Definition describe (error : thrown) : string :=
  match error with
  | ThrownError message => message
  | ThrownOther s => s
  end.

(** *** JSON values

    What [response.json()] yields and what [JSON.stringify] consumes. *)
Inductive json : Type :=
| JNull
| JBool (b : bool)
| JNumber (n : Z)
| JString (s : string)
| JArray (items : list json)
| JObject (fields : list (string * json)).

(** [ToBoolean]. *)
Definition truthy (j : json) : bool :=
  match j with
  | JNull => false
  | JBool b => b
  | JNumber n => negb (n =? 0)
  | JString s => truthy_string s
  | JArray _ | JObject _ => true
  end.

(** [undefined] is falsy. *)
Definition truthy_opt (v : option json) : bool :=
  match v with Some j => truthy j | None => false end.

(** [String(j)]: an array joins the strings of its elements with commas
    ([null] elements give the empty string). *)
Fixpoint String_json (j : json) : string :=
  match j with
  | JNull => "null"
  | JBool true => "true"
  | JBool false => "false"
  | JNumber n => String_of_number n
  | JString s => s
  | JArray items =>
      join "," (map (fun x => match x with
                              | JNull => EmptyString
                              | _ => String_json x
                              end) items)
  | JObject _ => "[object Object]"
  end.

(** [`${v}`] for a value that may be [undefined]. *)
Definition String_opt (v : option json) : string :=
  match v with Some j => String_json j | None => "undefined" end.

(** The message JavaScriptCore gives the [TypeError] of a property read
    on [null]. *)
Definition null_member_message (key : string) : string :=
  "null is not an object (evaluating 'data." ++ key ++ "')".

(** [j.key] for the keys the sources read ([error], [result], [message]);
    [None] is [undefined]. *)
Definition member (j : json) (key : string) : thrown + option json :=
  match j with
  | JNull => inl (ThrownError (null_member_message key))
  | JObject fields => inr (get fields key)
  | JBool _ | JNumber _ | JString _ | JArray _ => inr None
  end.

(** [new Error(m).message]: an [undefined] argument leaves the empty
    message of the prototype. *)
Definition Error_message (m : option json) : string :=
  match m with Some j => String_json j | None => EmptyString end.

(** The double quote. *)
Definition DQUOTE : ascii := ascii_of_nat 34.

Definition hex_digit (n : nat) : ascii :=
  ascii_of_nat (if (n <? 10)%nat then 48 + n else 87 + n).

(** [JSON.stringify] of one code unit inside a string literal. *)
Definition escape_code_unit (c : ascii) : string :=
  let n := nat_of_ascii c in
  if (n =? 34)%nat then String "\" (String DQUOTE EmptyString)
  else if (n =? 92)%nat then "\\"
  else if (n =? 8)%nat then "\b"
  else if (n =? 9)%nat then "\t"
  else if (n =? 10)%nat then "\n"
  else if (n =? 12)%nat then "\f"
  else if (n =? 13)%nat then "\r"
  else if (n <? 32)%nat
       then "\u00" ++ String (hex_digit (n / 16))
                             (String (hex_digit (n mod 16)) EmptyString)
  else String c EmptyString.

Fixpoint escape_string (s : string) : string :=
  match s with
  | EmptyString => EmptyString
  | String c rest => escape_code_unit c ++ escape_string rest
  end.

Definition quote (s : string) : string :=
  String DQUOTE (escape_string s) ++ String DQUOTE EmptyString.

(** [JSON.stringify(j)] without indentation. *)
Fixpoint JSON_stringify (j : json) : string :=
  match j with
  | JNull => "null"
  | JBool true => "true"
  | JBool false => "false"
  | JNumber n => String_of_number n
  | JString s => quote s
  | JArray items => "[" ++ join "," (map JSON_stringify items) ++ "]"
  | JObject fields =>
      "{" ++ join ","
               (map (fun p => quote (fst p) ++ ":" ++ snd p)
                    (Object_entries
                       (map (fun p => match p with
                                      | (k, v) => (k, JSON_stringify v)
                                      end) fields)))
          ++ "}"
  end.

End Js.

(* ================================================================== *)
(** ** The outside world and the handler monad *)
(* ================================================================== *)

Module Runtime.
Import Js.

(** How an evaluation completes: normally with a value, or abruptly
    with a thrown one (a rejected promise, for an [await]). *)
Inductive completion (A : Type) : Type :=
| Normal (a : A)
| Abrupt (error : thrown).
Arguments Normal {A} a.
Arguments Abrupt {A} error.

(** The options of [Bun.spawn] the sources set besides the piped
    streams; [None] leaves Bun's default. *)
Record spawn_options : Type := {
  cwd : option string;
  env : option (object string)
}.

(** The request of a [fetch(url, { method, headers, body })]. *)
Record http_request : Type := {
  url : string;
  http_method : string;
  headers : object string;
  body : string
}.

(** What the world answers to each primitive.  A process is known by
    its pid; a response by what its [json()] settles to. *)
Record world_ops (World : Type) : Type := {
  process_cwd : World -> completion string;
  process_env : World -> object string;
  Bun_spawn : list string -> spawn_options -> World
              -> completion Z * World;
  read_pipes : Z -> World -> completion (string * string) * World;
  exited : Z -> World -> completion Z * World;
  subprocess_kill : Z -> World -> World;
  process_kill : Z -> string -> World -> completion unit * World;
  setTimeout : Z -> World -> World;
  fetch : http_request -> World -> completion (completion json) * World;
  Date_now : World -> Z * World;
  Bun_write : string -> string -> World -> completion unit * World;
  Bun_file_exists : string -> World -> completion bool * World;
  read_stdout : Z -> World -> completion string * World;
  Bun_file_text : string -> World -> completion string * World
}.

(** The log of the effects a handler issued, with the world's answer. *)
Inductive event : Type :=
| Spawned (argv : list string) (options : spawn_options)
          (answer : completion Z)
| PipesRead (pid : Z) (answer : completion (string * string))
| Exited (pid : Z) (answer : completion Z)
| SubprocessKilled (pid : Z)
| ProcessKilled (pid : Z) (signal : string) (answer : completion unit)
| Slept (ms : Z)
| Fetched (request : http_request) (answer : completion (completion json))
| FileWritten (path content : string) (answer : completion unit)
| FileProbed (path : string) (answer : completion bool)
| StdoutRead (pid : Z) (answer : completion string)
| FileRead (path : string) (answer : completion string).

(** [AnvilInstance] of [utils/types.ts] (the interface is kept in the
    source tree after [utils/validation.ts]): port, pid and the optional
    fork URL. *)
Record AnvilInstance : Type := {
  port : Z;
  pid : Z;
  forkUrl : option string
}.

(** *** [Map<number, AnvilInstance>]: entries in insertion order *)
Definition Map : Type := list (Z * AnvilInstance).

Fixpoint Map_get (m : Map) (key : Z) : option AnvilInstance :=
  match m with
  | [] => None
  | (k, v) :: rest => if k =? key then Some v else Map_get rest key
  end.

Definition Map_has (m : Map) (key : Z) : bool :=
  match Map_get m key with Some _ => true | None => false end.

(** [m.set(key, v)]: a present key keeps its place, a new one is
    appended. *)
Fixpoint Map_set (m : Map) (key : Z) (v : AnvilInstance) : Map :=
  match m with
  | [] => [(key, v)]
  | (k, w) :: rest =>
      if k =? key then (k, v) :: rest else (k, w) :: Map_set rest key v
  end.

Fixpoint Map_delete (m : Map) (key : Z) : Map :=
  match m with
  | [] => []
  | (k, w) :: rest =>
      if k =? key then rest else (k, w) :: Map_delete rest key
  end.

Definition Map_size (m : Map) : Z := Z.of_nat (List.length m).

(** The state a handler runs in: the world, the module-level
    [anvilInstances], and the log. *)
Record state (World : Type) : Type := {
  world : World;
  anvilInstances : Map;
  trace : list event
}.
Arguments world {World} s.
Arguments anvilInstances {World} s.
Arguments trace {World} s.

Section Monad.
Context {World : Type} (ops : world_ops World).

Definition M (A : Type) : Type :=
  state World -> completion A * state World.

Definition ret {A} (a : A) : M A := fun s => (Normal a, s).

Definition throw {A} (error : thrown) : M A := fun s => (Abrupt error, s).

Definition bind {A B} (m : M A) (k : A -> M B) : M B :=
  fun s =>
    match m s with
    | (Normal a, s') => k a s'
    | (Abrupt error, s') => (Abrupt error, s')
    end.

(** [try { body } catch (error) { handler error }]. *)
Definition try_catch {A} (body : M A) (handler : thrown -> M A) : M A :=
  fun s =>
    match body s with
    | (Normal a, s') => (Normal a, s')
    | (Abrupt error, s') => handler error s'
    end.

(** [try { body } finally { cleanup }], for a [cleanup] that completes
    normally. *)
Definition try_finally {A} (body : M A) (cleanup : M unit) : M A :=
  fun s =>
    match body s with
    | (c, s') =>
        match cleanup s' with
        | (Normal _, s'') => (c, s'')
        | (Abrupt error, s'') => (Abrupt error, s'')
        end
    end.

(** Issue one primitive: ask the world, log the event, complete as
    the answer does. *)
Definition perform {A} (ask : World -> completion A * World)
           (log : completion A -> event) : M A :=
  fun s =>
    match ask (world s) with
    | (answer, w') =>
        (answer, {| world := w';
                    anvilInstances := anvilInstances s;
                    trace := trace s ++ [log answer] |})
    end.

Definition perform_ {A} (ask : World -> A * World)
           (log : A -> event) : M A :=
  fun s =>
    match ask (world s) with
    | (a, w') =>
        (Normal a, {| world := w';
                      anvilInstances := anvilInstances s;
                      trace := trace s ++ [log a] |})
    end.

Definition read_world {A} (f : World -> A) : M A :=
  fun s => (Normal (f (world s)), s).

(** [process.cwd()], which throws when the directory is gone. *)
Definition current_directory : M string :=
  fun s => (process_cwd _ ops (world s), s).

Definition get_instances : M Map :=
  fun s => (Normal (anvilInstances s), s).

Definition put_instances (m : Map) : M unit :=
  fun s => (Normal tt, {| world := world s;
                          anvilInstances := m;
                          trace := trace s |}).

Definition spawn (argv : list string) (options : spawn_options) : M Z :=
  perform (Bun_spawn _ ops argv options) (Spawned argv options).

Definition pipes_text (proc : Z) : M (string * string) :=
  perform (read_pipes _ ops proc) (PipesRead proc).

Definition await_exited (proc : Z) : M Z :=
  perform (exited _ ops proc) (Exited proc).

Definition proc_kill (proc : Z) : M unit :=
  perform_ (fun w => (tt, subprocess_kill _ ops proc w))
           (fun _ => SubprocessKilled proc).

Definition kill (target : Z) (signal : string) : M unit :=
  perform (process_kill _ ops target signal) (ProcessKilled target signal).

Definition sleep (ms : Z) : M unit :=
  perform_ (fun w => (tt, setTimeout _ ops ms w)) (fun _ => Slept ms).

Definition do_fetch (request : http_request) : M (completion json) :=
  perform (fetch _ ops request) (Fetched request).

Definition now : M Z :=
  fun s =>
    match Date_now _ ops (world s) with
    | (t, w') => (Normal t, {| world := w';
                               anvilInstances := anvilInstances s;
                               trace := trace s |})
    end.

Definition write_file (path content : string) : M unit :=
  perform (Bun_write _ ops path content) (FileWritten path content).

Definition file_exists (path : string) : M bool :=
  perform (Bun_file_exists _ ops path) (FileProbed path).

(** [new Response(proc.stdout).text()] on its own. *)
Definition stdout_text (proc : Z) : M string :=
  perform (read_stdout _ ops proc) (StdoutRead proc).

(** [Bun.file(path).text()]. *)
Definition file_text (path : string) : M string :=
  perform (Bun_file_text _ ops path) (FileRead path).

(** Settle a completion obtained earlier ([await response.json()]). *)
Definition settle {A} (c : completion A) : M A :=
  match c with
  | Normal a => ret a
  | Abrupt error => throw error
  end.

End Monad.

Declare Scope handler_scope.
Delimit Scope handler_scope with handler.
Notation "x <- m ;; k" := (bind m (fun x => k))
  (at level 61, m at next level, right associativity) : handler_scope.
Notation "m ;;; k" := (bind m (fun _ => k))
  (at level 61, right associativity) : handler_scope.

End Runtime.

(* ================================================================== *)
(** ** [src/utils/exec.ts] *)
(* ================================================================== *)

Module Exec.
Import Js Runtime.
Local Open Scope handler_scope.

(** [CommandResult] of [utils/types.ts] (the interface is kept in the
    source tree after [utils/validation.ts]). *)
Record CommandResult : Type := {
  success : bool;
  stdout : string;
  stderr : string;
  exitCode : Z
}.

Section Exec.
Context {World : Type} (ops : world_ops World).
Local Abbreviation M := (@Runtime.M World).

(** [cwd || process.cwd()]: the directory of the process is asked for
    only when [cwd] is missing or empty. *)
Definition working_directory (cwd : option string) : M string :=
  match cwd with
  | Some dir => if truthy_string dir then ret dir
                else current_directory ops
  | None => current_directory ops
  end.

(** [{ cwd, stdout: "pipe", stderr: "pipe",
      env: { ...process.env, NO_COLOR: "1", FORCE_COLOR: "0" } }]. *)
Definition exec_options (dir : string) (penv : object string)
  : spawn_options :=
  {| Runtime.cwd := Some dir;
     env := Some (set (set (spread [] penv) "NO_COLOR" "1")
                      "FORCE_COLOR" "0") |}.

Definition exec (command : string) (args : list string)
           (cwd : option string) : M CommandResult :=
  let fullCommand := command :: args in
  try_catch
    (dir <- working_directory cwd ;;
     penv <- read_world (process_env _ ops) ;;
     proc <- spawn ops fullCommand (exec_options dir penv) ;;
     out <- pipes_text ops proc ;;
     exitCode <- await_exited ops proc ;;
     ret {| success := exitCode =? 0;
            stdout := trim (fst out);
            stderr := trim (snd out);
            exitCode := exitCode |})
    (fun error =>
       ret {| success := false;
              stdout := EmptyString;
              stderr := describe error;
              exitCode := 1 |}).

End Exec.

(** The flag of an option name. *)
Definition flag_of (key : string) : string :=
  if (String.length key =? 1)%nat then "-" ++ key else "--" ++ key.

(** The body of the [for ... of Object.entries(options)] loop, [args]
    being the array pushed to. *)
Fixpoint buildArgs_loop (entries : list (string * value))
         (args : list string) : list string :=
  match entries with
  | [] => args
  | (key, v) :: rest =>
      match v with
      | VUndefined | VBoolean false => buildArgs_loop rest args
      | VBoolean true => buildArgs_loop rest (args ++ [flag_of key])
      | VNumber _ | VDouble _ | VString _ =>
          buildArgs_loop rest (args ++ [flag_of key; String_ v])
      end
  end.

Definition buildArgs (options : object value) : list string :=
  buildArgs_loop (Object_entries options) [].

Definition formatOutput (result : CommandResult) : string :=
  if success result then
    if truthy_string (stdout result) then stdout result
    else "Command completed successfully."
  else
    let parts : list string := [] in
    let parts := if truthy_string (stderr result)
                 then (parts ++ [("Error: " ++ stderr result)%string])%list
                 else parts in
    let parts := if truthy_string (stdout result)
                 then (parts ++ [("Output: " ++ stdout result)%string])%list
                 else parts in
    let parts := (parts ++ [("Exit code: "
                             ++ String_of_number (exitCode result))%string]
                 )%list in
    join LF parts.

(** [{ content: [{ type: "text", text }] }]. *)
Record content_item : Type := { type : string; text : string }.
Record tool_result : Type := { content : list content_item }.

Definition textContent (text : string) : tool_result :=
  {| content := [ {| type := "text"; text := text |} ] |}.

End Exec.

(* ================================================================== *)
(** ** The Anvil tools: registry, RPC bridge, node control *)
(* ================================================================== *)

Module Anvil.
Import Js Runtime Exec.
Local Open Scope handler_scope.

(** [ToolContext] of [utils/types.ts], with the fields the Anvil and
    Chisel handlers are given: the optional RPC endpoint, and the project
    path, which [getEnvContext] always fills with a string. *)
Record ToolContext : Type := {
  rpcUrl : option string;
  projectPath : string
}.

(** [a || b] on optional strings. *)
Definition or_else (a : option string) (b : option string) : option string :=
  match a with
  | Some s => if truthy_string s then a else b
  | None => b
  end.

(** [a || "literal"]. *)
Definition or_literal (a : option string) (b : string) : string :=
  match a with
  | Some s => if truthy_string s then s else b
  | None => b
  end.

Definition local_url (port : Z) : string :=
  "http://127.0.0.1:" ++ String_of_number port.

Definition getRpcUrl (rpcUrl : option string) (context : ToolContext)
           (port : option Z) : string :=
  let by_default :=
    or_literal (Anvil.rpcUrl context) "http://127.0.0.1:8545" in
  let by_port :=
    match port with
    | Some p => if negb (p =? 0) then local_url p else by_default
    | None => by_default
    end in
  match rpcUrl with
  | Some u => if truthy_string u then u else by_port
  | None => by_port
  end.

(** The body [jsonRpcCall] posts. *)
Definition rpc_body (method : string) (params : list json) : json :=
  JObject [("jsonrpc", JString "2.0");
           ("id", JNumber 1);
           ("method", JString method);
           ("params", JArray params)].

Definition rpc_request (rpcUrl method : string) (params : list json)
  : http_request :=
  {| url := rpcUrl;
     http_method := "POST";
     headers := [("Content-Type", "application/json")];
     body := JSON_stringify (rpc_body method params) |}.

(** What [jsonRpcCall] makes of the parsed body: [throw new
    Error(data.error.message)] when [data.error] is truthy, otherwise
    [data.result] ([None] is [undefined]). *)
Definition rpc_decode (data : json) : completion (option json) :=
  match member data "error" with
  | inl e => Abrupt e
  | inr error =>
      if truthy_opt error then
        match error with
        | Some err =>
            match member err "message" with
            | inl e => Abrupt e
            | inr message => Abrupt (ThrownError (Error_message message))
            end
        | None => Normal None
        end
      else
        match member data "result" with
        | inl e => Abrupt e
        | inr result => Normal result
        end
  end.

(** [number.toString(16)] with the sign JavaScript puts in front. *)
Definition number_toString16 (n : Z) : string :=
  if n <? 0 then "-" ++ toString16 (Z.to_N (- n)) else toString16 (Z.to_N n).

Definition hex_quantity (n : Z) : string := "0x" ++ number_toString16 n.

(** *** [BigInt(string)]

    The conversion as JavaScriptCore, the engine of Bun, makes it
    ([JSBigInt::parseInt]).  Leading white space is skipped.  Then [0x],
    [0o] or [0b] (either case) introduce unsigned digits of that radix, and
    at least one character must follow the prefix; otherwise an optional
    sign introduces decimal digits, and nothing need follow.  Of the text
    that is left, the leading zeros are skipped and then the trailing
    white space is dropped; what remains must be digits of the radix, and
    when nothing remains the value is 0.  So the empty string, white
    space and a lone sign all give 0.  Anything else is a
    [SyntaxError]. *)
Definition digit_of (radix : N) (c : ascii) : option N :=
  let n := N_of_ascii c in
  let d := if ((48 <=? n) && (n <=? 57))%N then Some (n - 48)%N
           else if ((97 <=? n) && (n <=? 122))%N then Some (n - 87)%N
           else if ((65 <=? n) && (n <=? 90))%N then Some (n - 55)%N
           else None in
  match d with
  | Some v => if (v <? radix)%N then Some v else None
  | None => None
  end.

Fixpoint digits_value (radix : N) (s : string) (acc : N) : option N :=
  match s with
  | EmptyString => Some acc
  | String c rest =>
      match digit_of radix c with
      | Some d => digits_value radix rest (acc * radix + d)%N
      | None => None
      end
  end.

(** The text after its leading zeros. *)
Fixpoint skip_zeros (s : string) : string :=
  match s with
  | EmptyString => EmptyString
  | String c rest => if (c =? "0")%char then skip_zeros rest else s
  end.

(** The digits after a prefix or a sign; [allow_empty] tells whether
    nothing at all may follow. *)
Definition digits (radix : N) (allow_empty : bool) (s : string)
  : option Z :=
  if negb allow_empty && String.eqb s EmptyString then None
  else option_map Z.of_N (digits_value radix (trimEnd (skip_zeros s)) 0).

(** The radix a prefix letter announces. *)
Definition radix_of (c : ascii) : option N :=
  if ((c =? "b") || (c =? "B"))%char then Some 2%N
  else if ((c =? "x") || (c =? "X"))%char then Some 16%N
  else if ((c =? "o") || (c =? "O"))%char then Some 8%N
  else None.

(** A decimal literal with its optional sign. *)
Definition signed_decimal (t : string) : option Z :=
  match t with
  | String c rest =>
      if (c =? "+")%char then digits 10 true rest
      else if (c =? "-")%char then option_map Z.opp (digits 10 true rest)
      else digits 10 true t
  | EmptyString => digits 10 true t
  end.

Definition StringToBigInt (s : string) : option Z :=
  let t := trimStart s in
  match t with
  | String c (String d rest) =>
      match (if (c =? "0")%char then radix_of d else None) with
      | Some radix => digits radix false rest
      | None => signed_decimal t
      end
  | _ => signed_decimal t
  end.

(** The message of JavaScriptCore's [SyntaxError]. *)
Definition bigint_syntax_error : thrown :=
  ThrownError "Failed to parse String to BigInt".

(** [balance.startsWith("0x") ? balance
     : `0x${BigInt(balance).toString(16)}`]. *)
Definition hexBalance_of (balance : string) : completion string :=
  if startsWith balance "0x" then Normal balance
  else match StringToBigInt balance with
       | Some n => Normal (hex_quantity n)
       | None => Abrupt bigint_syntax_error
       end.

Definition default_port (port : option Z) : Z :=
  match port with Some p => p | None => 8545 end.

(** [options["fork-url"]], a string or [undefined] by the input schema. *)
Definition fork_url_of (options : object value) : option string :=
  match get options "fork-url" with
  | Some (VString s) => Some s
  | _ => None
  end.

Section Handlers.
Context {World : Type} (ops : world_ops World) (context : ToolContext).
Local Abbreviation M := (@Runtime.M World).

Definition jsonRpcCall (rpcUrl method : string) (params : list json)
  : M (option json) :=
  response <- do_fetch ops (rpc_request rpcUrl method params) ;;
  data <- settle response ;;
  settle (rpc_decode data).

(** [anvilInstances.delete(port)] on the shared map. *)
Definition delete_instance (port : Z) : M unit :=
  instances <- get_instances ;;
  put_instances (Map_delete instances port).

Definition set_instance (port : Z) (instance : AnvilInstance) : M unit :=
  instances <- get_instances ;;
  put_instances (Map_set instances port instance).

Definition anvil_start (port : option Z) (options : object value)
  : M tool_result :=
  let port := default_port port in
  instances <- get_instances ;;
  if Map_has instances port then
    ret (textContent ("Anvil is already running on port "
                      ++ String_of_number port))
  else
    let args := buildArgs (spread [("port", VNumber port)] options) in
    proc <- spawn ops ("anvil" :: args) {| cwd := None; env := None |} ;;
    sleep ops 1000 ;;;
    try_catch
      (result <- jsonRpcCall (local_url port) "eth_chainId" [] ;;
       set_instance port {| port := port;
                            pid := proc;
                            forkUrl := fork_url_of options |} ;;;
       ret (textContent
              ("Anvil started successfully on port "
               ++ String_of_number port ++ LF
               ++ "PID: " ++ String_of_number proc ++ LF
               ++ "Chain ID: " ++ String_opt result)))
      (fun _ =>
         proc_kill ops proc ;;;
         ret (textContent
                ("Failed to start Anvil on port "
                 ++ String_of_number port
                 ++ ". Check if the port is available."))).

Definition anvil_stop (port : option Z) : M tool_result :=
  let port := default_port port in
  instances <- get_instances ;;
  match Map_get instances port with
  | None =>
      ret (textContent ("No Anvil instance tracked on port "
                        ++ String_of_number port))
  | Some instance =>
      try_catch
        (kill ops (pid instance) "SIGTERM" ;;;
         delete_instance port ;;;
         ret (textContent ("Anvil stopped on port "
                           ++ String_of_number port)))
        (fun error =>
           delete_instance port ;;;
           ret (textContent ("Error stopping Anvil: "
                             ++ describe error)))
  end.

(** The [if (port) { ... }] branch of [anvil_status]. *)
Definition anvil_status_port (port : Z) : M tool_result :=
  instances <- get_instances ;;
  match Map_get instances port with
  | None =>
      try_catch
        (chainId <- jsonRpcCall (local_url port) "eth_chainId" [] ;;
         ret (textContent
                ("Anvil running on port " ++ String_of_number port
                 ++ " (untracked)" ++ LF
                 ++ "Chain ID: " ++ String_opt chainId)))
        (fun _ =>
           ret (textContent ("No Anvil instance running on port "
                             ++ String_of_number port)))
  | Some instance =>
      try_catch
        (chainId <- jsonRpcCall (local_url port) "eth_chainId" [] ;;
         ret (textContent
                ("Anvil running on port " ++ String_of_number port ++ LF
                 ++ "PID: " ++ String_of_number (pid instance) ++ LF
                 ++ "Chain ID: " ++ String_opt chainId ++ LF
                 ++ "Fork URL: " ++ or_literal (forkUrl instance) "none")))
        (fun _ =>
           delete_instance port ;;;
           ret (textContent
                  ("Anvil on port " ++ String_of_number port
                   ++ " is not responding (removed from tracking)")))
  end.

Definition running_line (p : Z) (instance : AnvilInstance)
           (chainId : option json) : string :=
  "Port " ++ String_of_number p ++ ": Running (PID: "
  ++ String_of_number (pid instance) ++ ", Chain ID: "
  ++ String_opt chainId ++ ")".

Definition removed_line (p : Z) : string :=
  "Port " ++ String_of_number p ++ ": Not responding (removed)".

(** The [for (const [p, instance] of anvilInstances)] loop.  The only
    change made to the map while it is iterated is the deletion of the
    entry being visited, so the loop visits the entries the map held
    when it started, in insertion order. *)
Fixpoint status_loop (entries : list (Z * AnvilInstance))
         (statuses : list string) : M (list string) :=
  match entries with
  | [] => ret statuses
  | (p, instance) :: rest =>
      statuses' <-
        try_catch
          (chainId <- jsonRpcCall (local_url p) "eth_chainId" [] ;;
           ret (statuses ++ [running_line p instance chainId])%list)
          (fun _ =>
             delete_instance p ;;;
             ret (statuses ++ [removed_line p])%list) ;;
      status_loop rest statuses'
  end.

(** The rest of [anvil_status]: all tracked instances. *)
Definition anvil_status_all : M tool_result :=
  instances <- get_instances ;;
  if Map_size instances =? 0 then
    ret (textContent "No tracked Anvil instances")
  else
    statuses <- status_loop instances [] ;;
    ret (textContent (join LF statuses)).

Definition anvil_status (port : option Z) : M tool_result :=
  match port with
  | Some p => if negb (p =? 0) then anvil_status_port p
              else anvil_status_all
  | None => anvil_status_all
  end.

(** The parameter list [anvil_mine] passes. *)
Definition mine_params (blocks : Z) (interval : option Z) : list json :=
  match interval with
  | Some i =>
      if negb (i =? 0)
      then [JString (hex_quantity blocks); JString (hex_quantity i)]
      else [JString (hex_quantity blocks)]
  | None => [JString (hex_quantity blocks)]
  end.

Definition anvil_mine (blocks interval : option Z)
           (rpcUrl : option string) : M tool_result :=
  let blocks := match blocks with Some b => b | None => 1 end in
  let url := getRpcUrl rpcUrl context None in
  try_catch
    (jsonRpcCall url "anvil_mine" (mine_params blocks interval) ;;;
     ret (textContent ("Mined " ++ String_of_number blocks
                       ++ " block(s)")))
    (fun error =>
       ret (textContent ("Error mining blocks: " ++ describe error))).

Definition anvil_setBalance (address balance : string)
           (rpcUrl : option string) : M tool_result :=
  let url := getRpcUrl rpcUrl context None in
  try_catch
    (hexBalance <- settle (hexBalance_of balance) ;;
     jsonRpcCall url "anvil_setBalance"
                 [JString address; JString hexBalance] ;;;
     ret (textContent ("Set balance of " ++ address ++ " to "
                       ++ balance ++ " wei")))
    (fun error =>
       ret (textContent ("Error setting balance: " ++ describe error))).

Definition anvil_setNextBlockTimestamp (timestamp : Z)
           (rpcUrl : option string) : M tool_result :=
  let url := getRpcUrl rpcUrl context None in
  try_catch
    (jsonRpcCall url "evm_setNextBlockTimestamp" [JNumber timestamp] ;;;
     ret (textContent ("Next block timestamp set to "
                       ++ String_of_number timestamp)))
    (fun error => ret (textContent ("Error: " ++ describe error))).

Definition anvil_increaseTime (seconds : Z) (rpcUrl : option string)
  : M tool_result :=
  let url := getRpcUrl rpcUrl context None in
  try_catch
    (jsonRpcCall url "evm_increaseTime" [JNumber seconds] ;;;
     ret (textContent ("Time increased by " ++ String_of_number seconds
                       ++ " seconds")))
    (fun error => ret (textContent ("Error: " ++ describe error))).

(** The three lifecycle operations, as requests served in turn. *)
Inductive operation : Type :=
| Start (port : option Z) (options : object value)
| Stop (port : option Z)
| Status (port : option Z).

Definition serve (op : operation) : M tool_result :=
  match op with
  | Start port options => anvil_start port options
  | Stop port => anvil_stop port
  | Status port => anvil_status port
  end.

(** The state after a sequence of requests; a handler that throws
    fails its own request only. *)
Definition serve_all (requests : list operation) (s : state World)
  : state World :=
  fold_left (fun st op => snd (serve op st)) requests s.

End Handlers.

(** The state at start-up: [new Map()], nothing logged. *)
Definition initial {World : Type} (w : World) : state World :=
  {| world := w; anvilInstances := []; trace := [] |}.

End Anvil.

(* ================================================================== *)
(** ** [src/tools/chisel.ts] *)
(* ================================================================== *)

Module Chisel.
Import Js Runtime Exec Anvil.
Local Open Scope handler_scope.

(** The single quote. *)
Definition SQUOTE : ascii := ascii_of_nat 39.

(** The replacement text of [code.replace(/'/g, "'\\''")]: quote,
    backslash, quote, quote. *)
Definition quote_idiom : string :=
  String SQUOTE (String "\" (String SQUOTE (String SQUOTE EmptyString))).

Definition escape_single_quotes (code : string) : string :=
  replace_all SQUOTE quote_idiom code.

(** [`echo '${code.replace(...)}' | chisel ${args.join(" ")}`]. *)
Definition eval_command (code : string) (args : list string) : string :=
  "echo " ++ String SQUOTE (escape_single_quotes code)
  ++ String SQUOTE (" | chisel " ++ join " " args).

(** [`cat ${tmpFile} | chisel ${args.join(" ")}`]. *)
Definition run_command (tmpFile : string) (args : list string) : string :=
  "cat " ++ tmpFile ++ " | chisel " ++ join " " args.

(** [`/tmp/chisel_${Date.now()}.sol`]. *)
Definition tmp_file (t : Z) : string :=
  "/tmp/chisel_" ++ String_of_number t ++ ".sol".

(** The [--fork-url] arguments both handlers build. *)
Definition fork_args (forkUrl : option string) (context : ToolContext)
  : list string :=
  match or_else forkUrl (rpcUrl context) with
  | Some u => if truthy_string u then ["--fork-url"; u] else []
  | None => []
  end.

(** [s.split("\n")]. *)
Fixpoint split_lines (s : string) : list string :=
  match s with
  | EmptyString => [EmptyString]
  | String c rest =>
      if Ascii.eqb c (ascii_of_nat 10) then EmptyString :: split_lines rest
      else match split_lines rest with
           | line :: lines => String c line :: lines
           | [] => [String c EmptyString]
           end
  end.

(** The line [chisel_eval] looks for.  The box-drawing characters of the
    source's other two tests lie above code unit 255, outside the
    embedded strings, where only the ["Type:"] test can succeed. *)
Definition result_line (stdout : string) : option string :=
  find (fun l => includes l "Type:")
       (filter (fun l => truthy_string (trim l)) (split_lines stdout)).

(** How bash reads a word made of single-quoted parts and of
    backslash-escaped characters: inside single quotes every character
    up to the closing quote stands for itself; outside, a backslash makes
    the next character literal.  [None]: the text is not such a word. *)
Fixpoint sh_word (in_quotes : bool) (s : string) : option string :=
  match s with
  | EmptyString => if in_quotes then None else Some EmptyString
  | String c rest =>
      if in_quotes then
        if Ascii.eqb c SQUOTE then sh_word false rest
        else option_map (String c) (sh_word true rest)
      else if Ascii.eqb c SQUOTE then sh_word true rest
      else if Ascii.eqb c "\" then
        match rest with
        | String d rest' => option_map (String d) (sh_word false rest')
        | EmptyString => None
        end
      else None
  end.

Section Handlers.
Context {World : Type} (ops : world_ops World) (context : ToolContext).
Local Abbreviation M := (@Runtime.M World).

(** The options of the two [Bun.spawn(["bash", "-c", fullCmd], ...)]. *)
Definition shell_options : M spawn_options :=
  penv <- read_world (process_env _ ops) ;;
  ret {| cwd := None; env := Some (set (spread [] penv) "NO_COLOR" "1") |}.

Definition chisel_eval (code : string) (forkUrl : option string)
  : M tool_result :=
  let args := fork_args forkUrl context in
  let fullCmd := eval_command code args in
  options <- shell_options ;;
  proc <- spawn ops ["bash"; "-c"; fullCmd] options ;;
  out <- pipes_text ops proc ;;
  exitCode <- await_exited ops proc ;;
  let stdout := fst out in
  let stderr := snd out in
  if negb (exitCode =? 0) then
    ret (textContent ("Error: " ++ (if truthy_string stderr
                                    then stderr else stdout)))
  else
    ret (textContent
           (match result_line stdout with
            | Some line => line
            | None => if truthy_string (trim stdout) then trim stdout
                      else "Expression evaluated (no output)"
            end)).

(** The [finally] block: empty the file when it exists, ignoring any
    failure. *)
Definition cleanup (tmpFile : string) : M unit :=
  try_catch
    (present <- file_exists ops tmpFile ;;
     if present then write_file ops tmpFile EmptyString else ret tt)
    (fun _ => ret tt).

Definition chisel_run (code : string) (forkUrl : option string)
  : M tool_result :=
  let args := fork_args forkUrl context in
  t <- now ops ;;
  let tmpFile := tmp_file t in
  write_file ops tmpFile code ;;;
  try_finally
    (let fullCmd := run_command tmpFile args in
     options <- shell_options ;;
     proc <- spawn ops ["bash"; "-c"; fullCmd] options ;;
     out <- pipes_text ops proc ;;
     exitCode <- await_exited ops proc ;;
     let stdout := fst out in
     let stderr := snd out in
     if negb (exitCode =? 0) && truthy_string stderr then
       ret (textContent ("Error: " ++ stderr))
     else
       ret (textContent (if truthy_string (trim stdout) then trim stdout
                         else "Code executed successfully")))
    (cleanup tmpFile).

Definition chisel_list : M tool_result :=
  result <- exec ops "chisel" ["list"] None ;;
  ret (textContent (formatOutput result)).

Definition chisel_load (id : string) : M tool_result :=
  result <- exec ops "chisel" ["load"; id] None ;;
  ret (textContent (formatOutput result)).

Definition chisel_view (id : string) : M tool_result :=
  result <- exec ops "chisel" ["view"; id] None ;;
  ret (textContent (formatOutput result)).

Definition chisel_clear_cache : M tool_result :=
  result <- exec ops "chisel" ["clear-cache"] None ;;
  ret (textContent (formatOutput result)).

End Handlers.

End Chisel.

(* ================================================================== *)
(** ** A scripted world, to run the handlers on concrete inputs *)
(* ================================================================== *)

Module Scenario.
Import Js Runtime Exec Anvil.

(** The world answers [fetch] from a script, starts processes with
    consecutive pids unless told that the binary is missing, and lets
    every process print [outputs] and exit with [exit_status]. *)
Record script : Type := {
  replies : list (completion (completion json));
  fresh_pid : Z;
  clock : Z;
  binary_found : bool;
  signal_delivered : bool;
  outputs : string * string;
  exit_status : Z
}.

Definition connection_refused : thrown :=
  ThrownError "Unable to connect. Is the computer able to access the url?".

Definition scripted : world_ops script :=
  {| process_cwd := fun _ => Normal "/work";
     process_env := fun _ => [("PATH", "/usr/bin")];
     Bun_spawn := fun argv _ w =>
       if binary_found w then
         (Normal (fresh_pid w),
          {| replies := replies w; fresh_pid := fresh_pid w + 1;
             clock := clock w; binary_found := true;
             signal_delivered := signal_delivered w;
             outputs := outputs w; exit_status := exit_status w |})
       else
         (Abrupt (ThrownError ("Executable not found in $PATH: "
                               ++ hd EmptyString argv)), w);
     read_pipes := fun _ w => (Normal (outputs w), w);
     exited := fun _ w => (Normal (exit_status w), w);
     subprocess_kill := fun _ w => w;
     process_kill := fun _ _ w =>
       if signal_delivered w then (Normal tt, w)
       else (Abrupt (ThrownError "kill() failed: ESRCH: No such process"),
             w);
     setTimeout := fun ms w =>
       {| replies := replies w; fresh_pid := fresh_pid w;
          clock := clock w + ms; binary_found := binary_found w;
          signal_delivered := signal_delivered w;
          outputs := outputs w; exit_status := exit_status w |};
     fetch := fun _ w =>
       match replies w with
       | r :: rest =>
           (r, {| replies := rest; fresh_pid := fresh_pid w;
                  clock := clock w; binary_found := binary_found w;
                  signal_delivered := signal_delivered w;
                  outputs := outputs w; exit_status := exit_status w |})
       | [] => (Abrupt connection_refused, w)
       end;
     Date_now := fun w => (clock w, w);
     Bun_write := fun _ _ w => (Normal tt, w);
     Bun_file_exists := fun _ w => (Normal true, w);
     read_stdout := fun _ w => (Normal (fst (outputs w)), w);
     Bun_file_text := fun _ w => (Normal "[profile.default]", w) |}.

(** A world whose node answers the given replies in turn. *)
Definition answering (rs : list (completion (completion json))) : script :=
  {| replies := rs; fresh_pid := 4242; clock := 1700000000000;
     binary_found := true; signal_delivered := true;
     outputs := (EmptyString, EmptyString); exit_status := 0 |}.

(** The reply of a live node to [eth_chainId]. *)
Definition chain_id_reply : completion (completion json) :=
  Normal (Normal (JObject [("jsonrpc", JString "2.0");
                           ("id", JNumber 1);
                           ("result", JString "0x7a69")])).

(** A machine without the Foundry binaries. *)
Definition nothing_installed : script :=
  {| replies := []; fresh_pid := 4242; clock := 1700000000000;
     binary_found := false; signal_delivered := true;
     outputs := (EmptyString, EmptyString); exit_status := 0 |}.

Definition no_context : ToolContext :=
  {| rpcUrl := None; projectPath := "/work" |}.

(** The server at start-up, no node listening anywhere. *)
Definition idle : state script := initial (answering []).

(** The log of one bridge call to the default endpoint that was refused. *)
Definition refused (method : string) (params : list json) : list event :=
  [Fetched (rpc_request "http://127.0.0.1:8545" method params)
           (Abrupt connection_refused)].

(** A world where the tracked process has exited already: signalling it
    fails. *)
Definition process_gone : script :=
  {| replies := []; fresh_pid := 4243; clock := 1700000000000;
     binary_found := true; signal_delivered := false;
     outputs := (EmptyString, EmptyString); exit_status := 0 |}.

(** A machine where every program prints [ok] and exits with 0. *)
Definition prints_ok : script :=
  {| replies := []; fresh_pid := 4242; clock := 1700000000000;
     binary_found := true; signal_delivered := true;
     outputs := ("ok" ++ Js.LF, EmptyString); exit_status := 0 |}.

(** The first account of the development mnemonic. *)
Definition account : string := "0xf39Fd6e51aad88F6F4ce6aB8827279cffFb92266".

(** A state tracking one instance on the default port. *)
Definition tracking_8545 (w : script) : state script :=
  {| world := w;
     anvilInstances := [(8545, {| port := 8545; pid := 4242;
                                  forkUrl := None |})];
     trace := [] |}.


(** Nothing tracked, but a node answers the next request. *)
Definition alive : state script := initial (answering [chain_id_reply]).

End Scenario.

(* ================================================================== *)
(** ** The other node-control tools of the Anvil file *)
(* ================================================================== *)

Module Control.
Import Js Runtime Exec Anvil.
Local Open Scope handler_scope.

(** The [params] object [anvil_reset] builds: [forking] is set only for a
    fork URL, and [blockNumber] inside it only for a block number. *)
Definition reset_params (forkUrl : option string) (blockNumber : option Z)
  : json :=
  let params : list (string * json) := [] in
  let params :=
    match forkUrl with
    | Some u =>
        if truthy_string u then
          let forking := [("jsonRpcUrl", JString u)] in
          let forking :=
            match blockNumber with
            | Some b => if negb (b =? 0)
                        then set forking "blockNumber" (JNumber b)
                        else forking
            | None => forking
            end in
          set params "forking" (JObject forking)
        else params
    | None => params
    end in
  JObject params.

(** The text [anvil_reset] returns after the call. *)
Definition reset_text (forkUrl : option string) (blockNumber : option Z)
  : string :=
  match forkUrl with
  | Some u =>
      if truthy_string u then
        "Reset fork to " ++ u
        ++ match blockNumber with
           | Some b => if negb (b =? 0)
                       then " at block " ++ String_of_number b
                       else EmptyString
           | None => EmptyString
           end
      else "Reset to empty state"
  | None => "Reset to empty state"
  end.

Section Handlers.
Context {World : Type} (ops : world_ops World) (context : ToolContext).
Local Abbreviation M := (@Runtime.M World).

Definition anvil_setCode (address code : string) (rpcUrl : option string)
  : M tool_result :=
  let url := getRpcUrl rpcUrl context None in
  try_catch
    (jsonRpcCall ops url "anvil_setCode" [JString address; JString code] ;;;
     ret (textContent ("Set code at " ++ address)))
    (fun error =>
       ret (textContent ("Error setting code: " ++ describe error))).

Definition anvil_setStorageAt (address slot value : string)
           (rpcUrl : option string) : M tool_result :=
  let url := getRpcUrl rpcUrl context None in
  try_catch
    (jsonRpcCall ops url "anvil_setStorageAt"
                 [JString address; JString slot; JString value] ;;;
     ret (textContent ("Set storage at " ++ address ++ "[" ++ slot ++ "] = "
                       ++ value)))
    (fun error =>
       ret (textContent ("Error setting storage: " ++ describe error))).

Definition anvil_impersonateAccount (address : string)
           (rpcUrl : option string) : M tool_result :=
  let url := getRpcUrl rpcUrl context None in
  try_catch
    (jsonRpcCall ops url "anvil_impersonateAccount" [JString address] ;;;
     ret (textContent ("Now impersonating " ++ address)))
    (fun error =>
       ret (textContent ("Error impersonating: " ++ describe error))).

Definition anvil_stopImpersonatingAccount (address : string)
           (rpcUrl : option string) : M tool_result :=
  let url := getRpcUrl rpcUrl context None in
  try_catch
    (jsonRpcCall ops url "anvil_stopImpersonatingAccount" [JString address] ;;;
     ret (textContent ("Stopped impersonating " ++ address)))
    (fun error => ret (textContent ("Error: " ++ describe error))).

Definition anvil_snapshot (rpcUrl : option string) : M tool_result :=
  let url := getRpcUrl rpcUrl context None in
  try_catch
    (snapshotId <- jsonRpcCall ops url "evm_snapshot" [] ;;
     ret (textContent ("Snapshot created with ID: " ++ String_opt snapshotId)))
    (fun error =>
       ret (textContent ("Error creating snapshot: " ++ describe error))).

Definition anvil_revert (snapshotId : string) (rpcUrl : option string)
  : M tool_result :=
  let url := getRpcUrl rpcUrl context None in
  try_catch
    (success <- jsonRpcCall ops url "evm_revert" [JString snapshotId] ;;
     ret (textContent (if truthy_opt success
                       then "Reverted to snapshot " ++ snapshotId
                       else "Failed to revert")))
    (fun error => ret (textContent ("Error reverting: " ++ describe error))).

Definition anvil_setAutomine (enabled : bool) (rpcUrl : option string)
  : M tool_result :=
  let url := getRpcUrl rpcUrl context None in
  try_catch
    (jsonRpcCall ops url "evm_setAutomine" [JBool enabled] ;;;
     ret (textContent ("Auto-mining "
                       ++ (if enabled then "enabled" else "disabled"))))
    (fun error => ret (textContent ("Error: " ++ describe error))).

Definition anvil_reset (forkUrl : option string) (blockNumber : option Z)
           (rpcUrl : option string) : M tool_result :=
  let url := getRpcUrl rpcUrl context None in
  try_catch
    (let params := reset_params forkUrl blockNumber in
     jsonRpcCall ops url "anvil_reset" [params] ;;;
     ret (textContent (reset_text forkUrl blockNumber)))
    (fun error => ret (textContent ("Error resetting: " ++ describe error))).

(** The node-control tools, as requests. *)
Inductive call : Type :=
| Mine (blocks interval : option Z) (rpcUrl : option string)
| SetBalance (address balance : string) (rpcUrl : option string)
| SetCode (address code : string) (rpcUrl : option string)
| SetStorageAt (address slot value : string) (rpcUrl : option string)
| Impersonate (address : string) (rpcUrl : option string)
| StopImpersonating (address : string) (rpcUrl : option string)
| Snapshot (rpcUrl : option string)
| Revert (snapshotId : string) (rpcUrl : option string)
| SetNextBlockTimestamp (timestamp : Z) (rpcUrl : option string)
| IncreaseTime (seconds : Z) (rpcUrl : option string)
| SetAutomine (enabled : bool) (rpcUrl : option string)
| Reset (forkUrl : option string) (blockNumber : option Z)
        (rpcUrl : option string).

Definition run (c : call) : M tool_result :=
  match c with
  | Mine blocks interval rpcUrl => anvil_mine ops context blocks interval rpcUrl
  | SetBalance address balance rpcUrl =>
      anvil_setBalance ops context address balance rpcUrl
  | SetCode address code rpcUrl => anvil_setCode address code rpcUrl
  | SetStorageAt address slot value rpcUrl =>
      anvil_setStorageAt address slot value rpcUrl
  | Impersonate address rpcUrl => anvil_impersonateAccount address rpcUrl
  | StopImpersonating address rpcUrl =>
      anvil_stopImpersonatingAccount address rpcUrl
  | Snapshot rpcUrl => anvil_snapshot rpcUrl
  | Revert snapshotId rpcUrl => anvil_revert snapshotId rpcUrl
  | SetNextBlockTimestamp timestamp rpcUrl =>
      anvil_setNextBlockTimestamp ops context timestamp rpcUrl
  | IncreaseTime seconds rpcUrl => anvil_increaseTime ops context seconds rpcUrl
  | SetAutomine enabled rpcUrl => anvil_setAutomine enabled rpcUrl
  | Reset forkUrl blockNumber rpcUrl => anvil_reset forkUrl blockNumber rpcUrl
  end.

End Handlers.

End Control.

(* ================================================================== *)
(** ** The documentation resource and its cache *)
(* ================================================================== *)

Module Docs.
Import Js Runtime.

Definition FOUNDRY_DOCS_URL : string := "https://getfoundry.sh/llms-full.txt".
Definition FOUNDRY_DOCS_BASE : string := "https://getfoundry.sh".

(** [1000 * 60 * 60]: one hour, in milliseconds. *)
Definition CACHE_TTL : Z := 1000 * 60 * 60.

(** [{ content, timestamp }]. *)
Record cache : Type := {
  content : string;
  timestamp : Z
}.

(** What the handlers read of a [Response]: [ok], [status], and what
    [text()] settles to. *)
Record response : Type := {
  ok : bool;
  status : Z;
  text : completion string
}.

(** The world of this module: the clock and the network. *)
Record docs_ops (World : Type) : Type := {
  Date_now : World -> Z * World;
  fetch : string -> World -> completion response * World
}.

(** The state: the world, the module-level [docsCache] ([None] is
    [null]), and the URLs fetched so far. *)
Record state (World : Type) : Type := {
  world : World;
  docsCache : option cache;
  fetched : list string
}.
Arguments world {World} s.
Arguments docsCache {World} s.
Arguments fetched {World} s.

(** One entry of the [contents] a resource returns. *)
Record resource : Type := {
  uri : string;
  body : string;
  mimeType : string
}.

Section Docs.
Context {World : Type} (ops : docs_ops World).

(** The [catch] clause of [fetchDocs]: the stale cache when there is one,
    the error again otherwise. *)
Definition or_stale (error : thrown) (s : state World)
  : completion string * state World :=
  match docsCache s with
  | Some c => (Normal (content c), s)
  | None => (Abrupt error, s)
  end.

(** The [try] block of [fetchDocs]. *)
Definition refresh (s : state World) : completion string * state World :=
  match fetch _ ops FOUNDRY_DOCS_URL (world s) with
  | (answer, w1) =>
      let s1 := {| world := w1; docsCache := docsCache s;
                   fetched := fetched s ++ [FOUNDRY_DOCS_URL] |} in
      match answer with
      | Abrupt error => or_stale error s1
      | Normal r =>
          if negb (ok r) then
            or_stale (ThrownError ("Failed to fetch docs: "
                                   ++ String_of_number (status r))) s1
          else
            match text r with
            | Abrupt error => or_stale error s1
            | Normal body =>
                match Date_now _ ops w1 with
                | (t, w2) =>
                    (Normal body,
                     {| world := w2;
                        docsCache := Some {| content := body;
                                             timestamp := t |};
                        fetched := fetched s1 |})
                end
            end
      end
  end.

Definition fetchDocs (s : state World) : completion string * state World :=
  match docsCache s with
  | Some c =>
      match Date_now _ ops (world s) with
      | (t, w1) =>
          let s1 := {| world := w1; docsCache := docsCache s;
                       fetched := fetched s |} in
          if t - timestamp c <? CACHE_TTL then (Normal (content c), s1)
          else refresh s1
      end
  | None => refresh s
  end.

(** The handler of [foundry://docs]. *)
Definition foundry_docs (s : state World) : resource * state World :=
  match fetchDocs s with
  | (Normal body, s') =>
      ({| uri := "foundry://docs"; body := body;
          mimeType := "text/plain" |}, s')
  | (Abrupt error, s') =>
      ({| uri := "foundry://docs";
          body := "Failed to fetch documentation: " ++ describe error
                  ++ LF ++ LF
                  ++ "You can access the documentation directly at:" ++ LF
                  ++ "- Full LLM docs: " ++ FOUNDRY_DOCS_URL ++ LF
                  ++ "- Web docs: " ++ FOUNDRY_DOCS_BASE;
          mimeType := "text/plain" |}, s')
  end.

(** The state after [n] reads of the resource. *)
Fixpoint read_times (n : nat) (s : state World) : state World :=
  match n with
  | O => s
  | S k => read_times k (snd (foundry_docs s))
  end.

End Docs.

(** The state at start-up: [docsCache = null]. *)
Definition initial {World : Type} (w : World) : state World :=
  {| world := w; docsCache := None; fetched := [] |}.

End Docs.

(* ================================================================== *)
(** ** [src/tools/help.ts] *)
(* ================================================================== *)

Module Help.
Import Js Runtime Exec.
Local Open Scope handler_scope.

(** [s.split(c)] for a one-character separator. *)
Fixpoint split (c : ascii) (s : string) : list string :=
  match s with
  | EmptyString => [EmptyString]
  | String d rest =>
      if Ascii.eqb d c then EmptyString :: split c rest
      else match split c rest with
           | piece :: pieces => String d piece :: pieces
           | [] => [String d EmptyString]
           end
  end.

(** [subcommand ? [...subcommand.split(" "), "--help"] : ["--help"]]. *)
Definition help_args (subcommand : option string) : list string :=
  match subcommand with
  | Some sub => if truthy_string sub then (split " " sub ++ ["--help"])%list
                else ["--help"]
  | None => ["--help"]
  end.

(** The longest prefix of non-white-space characters: [\S+], matched
    greedily. *)
Fixpoint word (s : string) : string :=
  match s with
  | EmptyString => EmptyString
  | String c rest => if is_white_space c then EmptyString
                     else String c (word rest)
  end.

(** [line.match(/^\s+(\S+)/)], giving the captured group: at least one
    white-space character, then at least one other. *)
Definition indented_word (line : string) : option string :=
  match line with
  | String c rest =>
      if is_white_space c then
        match word (trimStart rest) with
        | EmptyString => None
        | w => Some w
        end
      else None
  | EmptyString => None
  end.

(** The body of the [for (const line of lines)] loop of
    [foundry_list_commands]. *)
Fixpoint scan (lines : list string) (inCommandsSection : bool)
         (commands : list string) : list string :=
  match lines with
  | [] => commands
  | line :: rest =>
      if includes line "Commands:" || includes line "Subcommands:" then
        scan rest true commands
      else if inCommandsSection then
        if String.eqb (trim line) EmptyString || startsWith line "Options:"
        then scan rest false commands
        else match indented_word line with
             | Some w => scan rest true (commands ++ [w])
             | None => scan rest true commands
             end
      else scan rest false commands
  end.

(** The commands found in a help text. *)
Definition parse_commands (stdout : string) : list string :=
  scan (split (ascii_of_nat 10) stdout) false [].

(** The three tools [foundry_list_commands] accepts. *)
Inductive tool : Type := forge | cast | chisel.

Definition tool_name (t : tool) : string :=
  match t with
  | forge => "forge"
  | cast => "cast"
  | chisel => "chisel"
  end.

(** The text listing the commands. *)
Definition commands_text (t : tool) (commands : list string) : string :=
  "Available " ++ tool_name t ++ " commands:" ++ LF
  ++ join LF (map (fun c => "  - " ++ c) commands) ++ LF ++ LF
  ++ "Use " ++ tool_name t ++ "_help with a subcommand to get detailed help.".

Section Handlers.
Context {World : Type} (ops : world_ops World).
Local Abbreviation M := (@Runtime.M World).

Definition forge_help (subcommand : option string) : M tool_result :=
  let args := help_args subcommand in
  result <- exec ops "forge" args None ;;
  ret (textContent (formatOutput result)).

Definition cast_help (subcommand : option string) : M tool_result :=
  let args := help_args subcommand in
  result <- exec ops "cast" args None ;;
  ret (textContent (formatOutput result)).

Definition anvil_help : M tool_result :=
  result <- exec ops "anvil" ["--help"] None ;;
  ret (textContent (formatOutput result)).

Definition chisel_help (subcommand : option string) : M tool_result :=
  let args := help_args subcommand in
  result <- exec ops "chisel" args None ;;
  ret (textContent (formatOutput result)).

Definition foundry_list_commands (t : tool) : M tool_result :=
  result <- exec ops (tool_name t) ["--help"] None ;;
  if negb (success result) then
    ret (textContent ("Error: " ++ stderr result))
  else
    ret (textContent (commands_text t (parse_commands (stdout result)))).

(** A request to one of the help tools. *)
Inductive call : Type :=
| ForgeHelp (subcommand : option string)
| CastHelp (subcommand : option string)
| AnvilHelp
| ChiselHelp (subcommand : option string)
| ListCommands (t : tool).

Definition run (c : call) : M tool_result :=
  match c with
  | ForgeHelp subcommand => forge_help subcommand
  | CastHelp subcommand => cast_help subcommand
  | AnvilHelp => anvil_help
  | ChiselHelp subcommand => chisel_help subcommand
  | ListCommands t => foundry_list_commands t
  end.

(** *** [foundry_version]: four calls of [exec] awaited jointly

    A call of [exec] runs at once up to its first [await]: the working
    directory, the environment and the spawn.  [Promise.all] thus starts
    the four programs in order; each call then goes on when its two
    streams have been read, and once more when its process has exited, in
    the order in which the outside world completes them.  A call is
    known here by how far it has come. *)
Inductive pending : Type :=
| Reading (proc : Z)
| Exiting (proc : Z) (out : string * string)
| Settled (result : CommandResult).

(** The result of the [catch] clause of [exec]. *)
Definition failed (error : thrown) : CommandResult :=
  {| success := false; stdout := EmptyString; stderr := describe error;
     exitCode := 1 |}.

(** [exec] up to its first [await]. *)
Definition exec_start (command : string) (args : list string)
           (cwd : option string) : M pending :=
  try_catch
    (dir <- working_directory ops cwd ;;
     penv <- read_world (process_env _ ops) ;;
     proc <- spawn ops (command :: args) (exec_options dir penv) ;;
     ret (Reading proc))
    (fun error => ret (Settled (failed error))).

(** [exec] from one [await] to the next, or to its end. *)
Definition resume (call : pending) : M pending :=
  match call with
  | Reading proc =>
      try_catch
        (out <- pipes_text ops proc ;; ret (Exiting proc out))
        (fun error => ret (Settled (failed error)))
  | Exiting proc out =>
      try_catch
        (exitCode <- await_exited ops proc ;;
         ret (Settled {| success := exitCode =? 0;
                         stdout := trim (fst out);
                         stderr := trim (snd out);
                         exitCode := exitCode |}))
        (fun error => ret (Settled (failed error)))
  | Settled result => ret (Settled result)
  end.

(** The call of index [i] goes on. *)
Fixpoint resume_nth (i : nat) (calls : list pending) : M (list pending) :=
  match calls, i with
  | [], _ => ret []
  | call :: others, O => call' <- resume call ;; ret (call' :: others)
  | call :: others, S j =>
      others' <- resume_nth j others ;; ret (call :: others')
  end.

(** The calls go on in the order of the schedule. *)
Fixpoint follow (schedule : list nat) (calls : list pending)
  : M (list pending) :=
  match schedule with
  | [] => ret calls
  | i :: later => calls' <- resume_nth i calls ;; follow later calls'
  end.

(** [result?.stdout || "not installed"]. *)
Definition version_of (call : option pending) : string :=
  match call with
  | Some (Settled result) =>
      if truthy_string (stdout result) then stdout result
      else "not installed"
  | _ => "not installed"
  end.

(** The handler, for the order [schedule] in which the world lets the four
    calls go on; what the schedule leaves unfinished is finished call by
    call, since [Promise.all] waits for all four. *)
Definition foundry_version (schedule : list nat) : M tool_result :=
  forge_call <- exec_start "forge" ["--version"] None ;;
  cast_call <- exec_start "cast" ["--version"] None ;;
  anvil_call <- exec_start "anvil" ["--version"] None ;;
  chisel_call <- exec_start "chisel" ["--version"] None ;;
  results <- follow (schedule ++ [0; 0; 1; 1; 2; 2; 3; 3])%nat%list
                    [forge_call; cast_call; anvil_call; chisel_call] ;;
  let versions :=
    [ "Forge: " ++ version_of (nth_error results 0);
      "Cast: " ++ version_of (nth_error results 1);
      "Anvil: " ++ version_of (nth_error results 2);
      "Chisel: " ++ version_of (nth_error results 3) ] in
  ret (textContent (join LF versions)).

End Handlers.

End Help.

(* ================================================================== *)
(** ** The Cast tools *)
(* ================================================================== *)

Module Cast.
Import Js Runtime Exec.
Local Open Scope handler_scope.

(** [ToolContext] of [utils/types.ts], in full. *)
Record ToolContext : Type := {
  rpcUrl : option string;
  privateKey : option string;
  projectPath : option string
}.

(** [a || b] on strings that may be [undefined]. *)
Definition or_undefined (a b : option string) : option string :=
  match a with
  | Some s => if truthy_string s then a else b
  | None => b
  end.

Definition getRpcUrl (rpcUrl : option string) (context : ToolContext)
  : option string :=
  or_undefined rpcUrl (Cast.rpcUrl context).

Definition getPrivateKey (privateKey : option string) (context : ToolContext)
  : option string :=
  or_undefined privateKey (Cast.privateKey context).

(** [options[key]] for an option the schema makes a string. *)
Definition text_option (options : object value) (key : string)
  : option string :=
  match get options key with
  | Some (VString s) => Some s
  | _ => None
  end.

(** A string that may be [undefined], as a value. *)
Definition as_value (v : option string) : value :=
  match v with
  | Some s => VString s
  | None => VUndefined
  end.

(** [options["rpc-url"] = getRpcUrl(options["rpc-url"], context)]. *)
Definition with_rpc_url (options : object value) (context : ToolContext)
  : object value :=
  set options "rpc-url"
      (as_value (getRpcUrl (text_option options "rpc-url") context)).

(** [options["private-key"] = getPrivateKey(options["private-key"],
    context)]. *)
Definition with_private_key (options : object value) (context : ToolContext)
  : object value :=
  set options "private-key"
      (as_value (getPrivateKey (text_option options "private-key") context)).

(** [callArgs || []]: an array is truthy, also when empty. *)
Definition or_empty (callArgs : option (list string)) : list string :=
  match callArgs with
  | Some l => l
  | None => []
  end.

(** The arguments of [cast call] and [cast send]:
    [[to, sig, ...(callArgs || []), ...baseArgs]]. *)
Definition call_args (to sig : string) (callArgs : option (list string))
           (baseArgs : list string) : list string :=
  (to :: sig :: or_empty callArgs ++ baseArgs)%list.

(** The arguments of [cast estimate]: the signature and the call
    arguments are pushed only for a signature. *)
Definition estimate_args (to : string) (sig : option string)
           (callArgs : option (list string)) (baseArgs : list string)
  : list string :=
  let cmdArgs := [to] in
  let cmdArgs :=
    match sig with
    | Some g => if truthy_string g
                then (cmdArgs ++ g :: or_empty callArgs)%list
                else cmdArgs
    | None => cmdArgs
    end in
  (cmdArgs ++ baseArgs)%list.

Section Handlers.
Context {World : Type} (ops : world_ops World) (context : ToolContext).
Local Abbreviation M := (@Runtime.M World).

Definition cast_block_number (options : object value) : M tool_result :=
  let options := with_rpc_url options context in
  let args := buildArgs options in
  result <- exec ops "cast" ("block-number" :: args) None ;;
  ret (textContent (formatOutput result)).

Definition cast_block (block : option value) (options : object value)
  : M tool_result :=
  let options := with_rpc_url options context in
  let args := buildArgs options in
  let args := match block with
              | Some b => String_ b :: args
              | None => args
              end in
  result <- exec ops "cast" ("block" :: args) None ;;
  ret (textContent (formatOutput result)).

Definition cast_call (to sig : string) (callArgs : option (list string))
           (options : object value) : M tool_result :=
  let options := with_rpc_url options context in
  let baseArgs := buildArgs options in
  let cmdArgs := call_args to sig callArgs baseArgs in
  result <- exec ops "cast" ("call" :: cmdArgs) None ;;
  ret (textContent (formatOutput result)).

Definition cast_send (to sig : string) (callArgs : option (list string))
           (options : object value) : M tool_result :=
  let options := with_rpc_url options context in
  let options := with_private_key options context in
  let baseArgs := buildArgs options in
  let cmdArgs := call_args to sig callArgs baseArgs in
  result <- exec ops "cast" ("send" :: cmdArgs) None ;;
  ret (textContent (formatOutput result)).

Definition cast_estimate (to : string) (sig : option string)
           (callArgs : option (list string)) (options : object value)
  : M tool_result :=
  let options := with_rpc_url options context in
  let baseArgs := buildArgs options in
  let cmdArgs := estimate_args to sig callArgs baseArgs in
  result <- exec ops "cast" ("estimate" :: cmdArgs) None ;;
  ret (textContent (formatOutput result)).

Definition cast_wallet_address (options : object value) : M tool_result :=
  let pk := getPrivateKey (text_option options "private-key") context in
  match or_undefined pk None with
  | None => ret (textContent "Error: Private key is required")
  | Some pk =>
      result <- exec ops "cast" ["wallet"; "address"; "--private-key"; pk]
                     None ;;
      ret (textContent (formatOutput result))
  end.

Definition cast_wallet_sign (message : string) (options : object value)
  : M tool_result :=
  let pk := getPrivateKey (text_option options "private-key") context in
  match or_undefined pk None with
  | None => ret (textContent "Error: Private key is required")
  | Some pk =>
      result <- exec ops "cast"
                     ["wallet"; "sign"; message; "--private-key"; pk] None ;;
      ret (textContent (formatOutput result))
  end.

(** The handlers of the file, in its order.  The options are what is
    left of the arguments once the named ones are taken out. *)

Definition cast_chain (options : object value) : M tool_result :=
  let options := with_rpc_url options context in
  let args := buildArgs options in
  result <- exec ops "cast" ("chain" :: args) None ;;
  ret (textContent (formatOutput result)).

Definition cast_chain_id (options : object value) : M tool_result :=
  let options := with_rpc_url options context in
  let args := buildArgs options in
  result <- exec ops "cast" ("chain-id" :: args) None ;;
  ret (textContent (formatOutput result)).

Definition cast_client (options : object value) : M tool_result :=
  let options := with_rpc_url options context in
  let args := buildArgs options in
  result <- exec ops "cast" ("client" :: args) None ;;
  ret (textContent (formatOutput result)).

Definition cast_gas_price (options : object value) : M tool_result :=
  let options := with_rpc_url options context in
  let args := buildArgs options in
  result <- exec ops "cast" ("gas-price" :: args) None ;;
  ret (textContent (formatOutput result)).

Definition cast_base_fee (block : option value) (options : object value)
  : M tool_result :=
  let options := with_rpc_url options context in
  let args := buildArgs options in
  let args := match block with
              | Some b => String_ b :: args
              | None => args
              end in
  result <- exec ops "cast" ("base-fee" :: args) None ;;
  ret (textContent (formatOutput result)).

Definition cast_balance (address : string) (options : object value)
  : M tool_result :=
  let options := with_rpc_url options context in
  let args := buildArgs options in
  result <- exec ops "cast" ("balance" :: address :: args) None ;;
  ret (textContent (formatOutput result)).

Definition cast_nonce (address : string) (options : object value)
  : M tool_result :=
  let options := with_rpc_url options context in
  let args := buildArgs options in
  result <- exec ops "cast" ("nonce" :: address :: args) None ;;
  ret (textContent (formatOutput result)).

Definition cast_code (address : string) (options : object value)
  : M tool_result :=
  let options := with_rpc_url options context in
  let args := buildArgs options in
  result <- exec ops "cast" ("code" :: address :: args) None ;;
  ret (textContent (formatOutput result)).

Definition cast_storage (address slot : string) (options : object value)
  : M tool_result :=
  let options := with_rpc_url options context in
  let args := buildArgs options in
  result <- exec ops "cast" ("storage" :: address :: slot :: args) None ;;
  ret (textContent (formatOutput result)).

Definition cast_publish (tx : string) (options : object value)
  : M tool_result :=
  let options := with_rpc_url options context in
  let args := buildArgs options in
  result <- exec ops "cast" ("publish" :: tx :: args) None ;;
  ret (textContent (formatOutput result)).

Definition cast_tx (txHash : string) (options : object value)
  : M tool_result :=
  let options := with_rpc_url options context in
  let args := buildArgs options in
  result <- exec ops "cast" ("tx" :: txHash :: args) None ;;
  ret (textContent (formatOutput result)).

Definition cast_receipt (txHash : string) (options : object value)
  : M tool_result :=
  let options := with_rpc_url options context in
  let args := buildArgs options in
  result <- exec ops "cast" ("receipt" :: txHash :: args) None ;;
  ret (textContent (formatOutput result)).

Definition cast_run (txHash : string) (options : object value)
  : M tool_result :=
  let options := with_rpc_url options context in
  let args := buildArgs options in
  result <- exec ops "cast" ("run" :: txHash :: args) None ;;
  ret (textContent (formatOutput result)).

(** [if (sig) args.unshift(sig)], then [--topic <topic>] for each of the
    topics. *)
Definition cast_logs (sig : option string) (topics : option (list string))
           (options : object value) : M tool_result :=
  let options := with_rpc_url options context in
  let args := buildArgs options in
  let args := match or_undefined sig None with
              | Some g => g :: args
              | None => args
              end in
  let args := match topics with
              | Some l =>
                  (args ++ flat_map (fun topic => ["--topic"; topic]) l)%list
              | None => args
              end in
  result <- exec ops "cast" ("logs" :: args) None ;;
  ret (textContent (formatOutput result)).

Definition cast_abi_encode (sig : string) (encodeArgs : list string)
  : M tool_result :=
  result <- exec ops "cast" ("abi-encode" :: sig :: encodeArgs) None ;;
  ret (textContent (formatOutput result)).

Definition cast_abi_decode (sig data : string) (input : option bool)
  : M tool_result :=
  let args := match input with
              | Some true => ["--input"]
              | _ => []
              end in
  result <- exec ops "cast" ("abi-decode" :: sig :: data :: args) None ;;
  ret (textContent (formatOutput result)).

Definition cast_calldata (sig : string) (encodeArgs : option (list string))
  : M tool_result :=
  result <- exec ops "cast" ("calldata" :: sig :: or_empty encodeArgs) None ;;
  ret (textContent (formatOutput result)).

Definition cast_calldata_decode (sig calldata : string) : M tool_result :=
  result <- exec ops "cast" ["calldata-decode"; sig; calldata] None ;;
  ret (textContent (formatOutput result)).

Definition cast_sig (sig : string) : M tool_result :=
  result <- exec ops "cast" ["sig"; sig] None ;;
  ret (textContent (formatOutput result)).

Definition cast_sig_event (sig : string) : M tool_result :=
  result <- exec ops "cast" ["sig-event"; sig] None ;;
  ret (textContent (formatOutput result)).

Definition cast_4byte (selector : string) : M tool_result :=
  result <- exec ops "cast" ["4byte"; selector] None ;;
  ret (textContent (formatOutput result)).

Definition cast_4byte_decode (calldata : string) : M tool_result :=
  result <- exec ops "cast" ["4byte-decode"; calldata] None ;;
  ret (textContent (formatOutput result)).

(** [unit ? [value, unit] : [value]]. *)
Definition with_unit (value : string) (unit : option string) : list string :=
  match or_undefined unit None with
  | Some u => [value; u]
  | None => [value]
  end.

Definition cast_to_wei (value : string) (unit : option string)
  : M tool_result :=
  let args := with_unit value unit in
  result <- exec ops "cast" ("to-wei" :: args) None ;;
  ret (textContent (formatOutput result)).

Definition cast_from_wei (value : string) (unit : option string)
  : M tool_result :=
  let args := with_unit value unit in
  result <- exec ops "cast" ("from-wei" :: args) None ;;
  ret (textContent (formatOutput result)).

Definition cast_to_hex (value : string) : M tool_result :=
  result <- exec ops "cast" ["to-hex"; value] None ;;
  ret (textContent (formatOutput result)).

Definition cast_to_dec (value : string) : M tool_result :=
  result <- exec ops "cast" ["to-dec"; value] None ;;
  ret (textContent (formatOutput result)).

Definition cast_to_base (value base : string) : M tool_result :=
  result <- exec ops "cast" ["to-base"; value; base] None ;;
  ret (textContent (formatOutput result)).

Definition cast_keccak (data : string) : M tool_result :=
  result <- exec ops "cast" ["keccak"; data] None ;;
  ret (textContent (formatOutput result)).

Definition cast_resolve_name (name : string) (options : object value)
  : M tool_result :=
  let options := with_rpc_url options context in
  let args := buildArgs options in
  result <- exec ops "cast" ("resolve-name" :: name :: args) None ;;
  ret (textContent (formatOutput result)).

Definition cast_lookup_address (address : string) (options : object value)
  : M tool_result :=
  let options := with_rpc_url options context in
  let args := buildArgs options in
  result <- exec ops "cast" ("lookup-address" :: address :: args) None ;;
  ret (textContent (formatOutput result)).

(** [if (nonce !== undefined) args.push("--nonce", String(nonce))]. *)
Definition cast_compute_address (address : string) (nonce : option number)
           (options : object value) : M tool_result :=
  let options := with_rpc_url options context in
  let args := buildArgs options in
  let args := match nonce with
              | Some n => (args ++ ["--nonce"; Number_toString n])%list
              | None => args
              end in
  result <- exec ops "cast" ("compute-address" :: address :: args) None ;;
  ret (textContent (formatOutput result)).

Definition cast_create2 (options : object value) : M tool_result :=
  let args := buildArgs options in
  result <- exec ops "cast" ("create2" :: args) None ;;
  ret (textContent (formatOutput result)).

(** [if (name) args.push("-n", name)]. *)
Definition cast_interface (address_or_path : string) (name : option string)
           (options : object value) : M tool_result :=
  let options := with_rpc_url options context in
  let args := buildArgs options in
  let args := match or_undefined name None with
              | Some n => (args ++ ["-n"; n])%list
              | None => args
              end in
  result <- exec ops "cast" ("interface" :: address_or_path :: args) None ;;
  ret (textContent (formatOutput result)).

Definition cast_age (block : option value) (options : object value)
  : M tool_result :=
  let options := with_rpc_url options context in
  let args := buildArgs options in
  let args := match block with
              | Some b => String_ b :: args
              | None => args
              end in
  result <- exec ops "cast" ("age" :: args) None ;;
  ret (textContent (formatOutput result)).

Definition cast_wallet_new (options : object value) : M tool_result :=
  let args := buildArgs options in
  result <- exec ops "cast" ("wallet" :: "new" :: args) None ;;
  ret (textContent (formatOutput result)).

Definition cast_format_bytes32 (value : string) : M tool_result :=
  result <- exec ops "cast" ["format-bytes32-string"; value] None ;;
  ret (textContent (formatOutput result)).

Definition cast_parse_bytes32 (value : string) : M tool_result :=
  result <- exec ops "cast" ["parse-bytes32-string"; value] None ;;
  ret (textContent (formatOutput result)).

Definition cast_concat_hex (values : list string) : M tool_result :=
  result <- exec ops "cast" ("concat-hex" :: values) None ;;
  ret (textContent (formatOutput result)).

End Handlers.

End Cast.

(* ================================================================== *)
(** ** [src/tools/forge.ts] *)
(* ================================================================== *)

Module Forge.
Import Js Runtime Exec.
Local Open Scope handler_scope.

(** A boolean that may be [undefined], as a value. *)
Definition as_boolean (v : option bool) : value :=
  match v with
  | Some b => VBoolean b
  | None => VUndefined
  end.

(** [v ? [...words, v] : []] for a string that may be [undefined]. *)
Definition when_given (words : list string) (v : option string)
  : list string :=
  match Cast.or_undefined v None with
  | Some s => (words ++ [s])%list
  | None => []
  end.

Section Handlers.
Context {World : Type} (ops : world_ops World) (context : Cast.ToolContext).
Local Abbreviation M := (@Runtime.M World).

(** Every handler runs [forge] in [context.projectPath]. *)
Definition directory : option string := Cast.projectPath context.

Definition forge_init (name : string) (template : option string)
           (vscode force : option bool) : M tool_result :=
  let args := buildArgs [("template", Cast.as_value template);
                         ("vscode", as_boolean vscode);
                         ("force", as_boolean force)] in
  let args := (args ++ [name])%list in
  result <- exec ops "forge" ("init" :: args) directory ;;
  ret (textContent (formatOutput result)).

Definition forge_build (options : object value) : M tool_result :=
  let args := buildArgs options in
  result <- exec ops "forge" ("build" :: args) directory ;;
  ret (textContent (formatOutput result)).

Definition forge_test (options : object value) : M tool_result :=
  let args := buildArgs options in
  result <- exec ops "forge" ("test" :: args) directory ;;
  ret (textContent (formatOutput result)).

Definition forge_coverage (options : object value) : M tool_result :=
  let args := buildArgs options in
  result <- exec ops "forge" ("coverage" :: args) directory ;;
  ret (textContent (formatOutput result)).

Definition forge_script (script : string) (options : object value)
  : M tool_result :=
  let args := buildArgs options in
  result <- exec ops "forge" ("script" :: script :: args) directory ;;
  ret (textContent (formatOutput result)).

(** [if (constructorArgs && constructorArgs.length > 0)
       args.push("--constructor-args", ...constructorArgs)]. *)
Definition forge_create (contract : string)
           (constructorArgs : option (list string)) (options : object value)
  : M tool_result :=
  let args := buildArgs options in
  let args := match constructorArgs with
              | Some (first :: others) =>
                  (args ++ "--constructor-args" :: first :: others)%list
              | _ => args
              end in
  result <- exec ops "forge" ("create" :: contract :: args) directory ;;
  ret (textContent (formatOutput result)).

Definition forge_verify (address contract : string) (options : object value)
  : M tool_result :=
  let args := buildArgs options in
  result <- exec ops "forge" ("verify-contract" :: address :: contract :: args)
                 directory ;;
  ret (textContent (formatOutput result)).

Definition forge_flatten (contract : string) (output : option string)
  : M tool_result :=
  let args := when_given ["-o"] output in
  result <- exec ops "forge" ("flatten" :: contract :: args) directory ;;
  ret (textContent (formatOutput result)).

Definition forge_inspect (contract field : string) (pretty : option bool)
  : M tool_result :=
  let args := match pretty with
              | Some true => ["--pretty"]
              | _ => []
              end in
  result <- exec ops "forge" ("inspect" :: contract :: field :: args) directory ;;
  ret (textContent (formatOutput result)).

Definition forge_remappings : M tool_result :=
  result <- exec ops "forge" ["remappings"] directory ;;
  ret (textContent (formatOutput result)).

Definition forge_tree (options : object value) : M tool_result :=
  let args := buildArgs options in
  result <- exec ops "forge" ("tree" :: args) directory ;;
  ret (textContent (formatOutput result)).

Definition forge_clean : M tool_result :=
  result <- exec ops "forge" ["clean"] directory ;;
  ret (textContent (formatOutput result)).

Definition forge_install (dependency : string) (options : object value)
  : M tool_result :=
  let args := buildArgs options in
  result <- exec ops "forge" ("install" :: dependency :: args) directory ;;
  ret (textContent (formatOutput result)).

Definition forge_update (dependency : option string) : M tool_result :=
  let args := when_given [] dependency in
  result <- exec ops "forge" ("update" :: args) directory ;;
  ret (textContent (formatOutput result)).

Definition forge_fmt (options : object value) : M tool_result :=
  let args := buildArgs options in
  result <- exec ops "forge" ("fmt" :: args) directory ;;
  ret (textContent (formatOutput result)).

Definition forge_snapshot (options : object value) : M tool_result :=
  let args := buildArgs options in
  result <- exec ops "forge" ("snapshot" :: args) directory ;;
  ret (textContent (formatOutput result)).

Definition forge_doc (options : object value) : M tool_result :=
  let args := buildArgs options in
  result <- exec ops "forge" ("doc" :: args) directory ;;
  ret (textContent (formatOutput result)).

Definition forge_selectors (contract : option string) : M tool_result :=
  let args := when_given [] contract in
  result <- exec ops "forge" ("selectors" :: "list" :: args) directory ;;
  ret (textContent (formatOutput result)).

Definition forge_bind (options : object value) : M tool_result :=
  let args := buildArgs options in
  result <- exec ops "forge" ("bind" :: args) directory ;;
  ret (textContent (formatOutput result)).

End Handlers.

End Forge.

(* ================================================================== *)
(** ** [src/resources/project.ts] *)
(* ================================================================== *)

Module Project.
Import Js Runtime Exec.
Local Open Scope handler_scope.

(** [s.endsWith(suffix)]. *)
Definition endsWith (s suffix : string) : bool :=
  (String.length suffix <=? String.length s)%nat
  && String.eqb (substring (String.length s - String.length suffix)
                           (String.length suffix) s) suffix.

(** [s.replace(pattern, by)] for a pattern that is a string: the first
    occurrence only ([by] without [$]). *)
Fixpoint replace_first (pattern by_ s : string) : string :=
  if String.prefix pattern s then
    by_ ++ substring (String.length pattern)
                     (String.length s - String.length pattern) s
  else match s with
       | EmptyString => EmptyString
       | String c rest => String c (replace_first pattern by_ rest)
       end.

(** [JSON.stringify(array, null, 2)] for an array of strings. *)
Definition stringify_indented (items : list string) : string :=
  match items with
  | [] => "[]"
  | _ => "[" ++ LF ++ join ("," ++ LF) (map (fun item => "  " ++ quote item) items)
         ++ LF ++ "]"
  end.

(** What [.] matches: any character but a line terminator. *)
Definition is_line_terminator (c : ascii) : bool :=
  ((c =? ascii_of_nat 10) || (c =? ascii_of_nat 13))%char.

(** The longest prefix without a line terminator: [.*], matched
    greedily. *)
Fixpoint line_prefix (s : string) : string :=
  match s with
  | EmptyString => EmptyString
  | String c rest => if is_line_terminator c then EmptyString
                     else String c (line_prefix rest)
  end.

(** [href.match(/<marker>(.+)/)], giving the captured group: what follows
    the first occurrence of the marker that a character other than a line
    terminator follows, up to the end of the line. *)
Fixpoint captured_after (marker href : string) : option string :=
  let here :=
    if String.prefix marker href then
      line_prefix (substring (String.length marker)
                             (String.length href - String.length marker)
                             href)
    else EmptyString in
  match here with
  | String _ _ => Some here
  | EmptyString =>
      match href with
      | EmptyString => None
      | String _ rest => captured_after marker rest
      end
  end.

Section Resources.
Context {World : Type} (ops : world_ops World).
(** [context.projectPath || process.cwd()], computed once when the
    resources are registered. *)
Variable projectPath : string.
Local Abbreviation M := (@Runtime.M World).

Definition fileExists (path : string) : M bool :=
  try_catch (file_exists ops path) (fun _ => ret false).

Definition readFile (path : string) : M (option string) :=
  try_catch
    (present <- file_exists ops path ;;
     if present then (text <- file_text ops path ;; ret (Some text))
     else ret None)
    (fun _ => ret None).

(** [["ls", "-1", path]], spawned without a working directory or an
    environment of its own; only the output stream is read. *)
Definition listDirectory (path : string) : M (list string) :=
  try_catch
    (proc <- spawn ops ["ls"; "-1"; path] {| cwd := None; env := None |} ;;
     stdout <- stdout_text ops proc ;;
     await_exited ops proc ;;;
     ret (filter truthy_string (Help.split (ascii_of_nat 10) (trim stdout))))
    (fun _ => ret []).

Definition text_resource (uri text : string) : Docs.resource :=
  {| Docs.uri := uri; Docs.body := text; Docs.mimeType := "text/plain" |}.

Definition json_resource (uri text : string) : Docs.resource :=
  {| Docs.uri := uri; Docs.body := text;
     Docs.mimeType := "application/json" |}.

Definition foundry_config : M Docs.resource :=
  let configPath := projectPath ++ "/foundry.toml" in
  content <- readFile configPath ;;
  match Cast.or_undefined content None with
  | None =>
      ret (text_resource "foundry://config"
                         "No foundry.toml found in project directory")
  | Some text => ret (text_resource "foundry://config" text)
  end.

Definition foundry_remappings : M Docs.resource :=
  result <- exec ops "forge" ["remappings"] (Some projectPath) ;;
  ret (text_resource "foundry://remappings"
         (if success result then
            if truthy_string (stdout result) then stdout result
            else "No remappings configured"
          else "Error: " ++ stderr result)).

(** [findSolFiles], which calls itself on every entry without a dot in
    its name: [fuel] bounds the depth of these calls, and [None] tells
    that it did not suffice.  [contracts] is the array pushed to. *)
Fixpoint findSolFiles (fuel : nat) (dir : string) (contracts : list string)
  : M (option (list string)) :=
  match fuel with
  | O => ret None
  | S fuel' =>
      entries <- listDirectory dir ;;
      (fix each (entries : list string) (contracts : list string)
         : M (option (list string)) :=
         match entries with
         | [] => ret (Some contracts)
         | entry :: later =>
             let fullPath := dir ++ "/" ++ entry in
             if endsWith entry ".sol" then
               each later
                    (contracts
                     ++ [replace_first (projectPath ++ "/") EmptyString
                                       fullPath])%list
             else if negb (includes entry ".") then
               found <- findSolFiles fuel' fullPath contracts ;;
               match found with
               | Some contracts' => each later contracts'
               | None => ret None
               end
             else each later contracts
         end) entries contracts
  end.

Definition foundry_contracts (fuel : nat) : M (option Docs.resource) :=
  let srcPath := projectPath ++ "/src" in
  present <- fileExists srcPath ;;
  found <- (if present then findSolFiles fuel srcPath []
            else ret (Some [])) ;;
  match found with
  | Some contracts =>
      ret (Some (json_resource "foundry://contracts"
                               (stringify_indented contracts)))
  | None => ret None
  end.

(** The five resources of a compiled contract: the name is taken from
    the URI and [forge inspect <name> <field>] is run. *)
Definition inspected (marker field : string)
           (resource_of : string -> string -> Docs.resource) (href : string)
  : M Docs.resource :=
  match captured_after marker href with
  | None => ret (text_resource href "Invalid URI format")
  | Some contract =>
      result <- exec ops "forge" ["inspect"; contract; field]
                     (Some projectPath) ;;
      ret (resource_of href
             (if success result then stdout result
              else "Error: " ++ stderr result))
  end.

Definition contract_abi : string -> M Docs.resource :=
  inspected "foundry://abi/" "abi" json_resource.

Definition contract_bytecode : string -> M Docs.resource :=
  inspected "foundry://bytecode/" "bytecode" text_resource.

Definition contract_storage_layout : string -> M Docs.resource :=
  inspected "foundry://storage-layout/" "storageLayout" json_resource.

Definition contract_method_identifiers : string -> M Docs.resource :=
  inspected "foundry://method-identifiers/" "methodIdentifiers" json_resource.

Definition contract_gas_estimates : string -> M Docs.resource :=
  inspected "foundry://gas-estimates/" "gasEstimates" json_resource.

End Resources.

End Project.

(* ================================================================== *)
(** ** The operations that run one program *)
(* ================================================================== *)

Module Dispatch.
Import Js Runtime Exec.

(** The tools of [forge.ts], of the Cast file and of [help.ts], and the
    Chisel tools other than the two that go through a shell, each with
    the arguments its handler destructures. *)
Inductive tool : Type :=
| ForgeInit (name : string) (template : option string)
            (vscode force : option bool)
| ForgeBuild (options : object value)
| ForgeTest (options : object value)
| ForgeCoverage (options : object value)
| ForgeScript (script : string) (options : object value)
| ForgeCreate (contract : string) (constructorArgs : option (list string))
              (options : object value)
| ForgeVerify (address contract : string) (options : object value)
| ForgeFlatten (contract : string) (output : option string)
| ForgeInspect (contract field : string) (pretty : option bool)
| ForgeRemappings
| ForgeTree (options : object value)
| ForgeClean
| ForgeInstall (dependency : string) (options : object value)
| ForgeUpdate (dependency : option string)
| ForgeFmt (options : object value)
| ForgeSnapshot (options : object value)
| ForgeDoc (options : object value)
| ForgeSelectors (contract : option string)
| ForgeBind (options : object value)
| CastBlock (block : option value) (options : object value)
| CastBlockNumber (options : object value)
| CastChain (options : object value)
| CastChainId (options : object value)
| CastClient (options : object value)
| CastGasPrice (options : object value)
| CastBaseFee (block : option value) (options : object value)
| CastBalance (address : string) (options : object value)
| CastNonce (address : string) (options : object value)
| CastCode (address : string) (options : object value)
| CastStorage (address slot : string) (options : object value)
| CastCall (to sig : string) (callArgs : option (list string))
           (options : object value)
| CastSend (to sig : string) (callArgs : option (list string))
           (options : object value)
| CastPublish (tx : string) (options : object value)
| CastTx (txHash : string) (options : object value)
| CastReceipt (txHash : string) (options : object value)
| CastRun (txHash : string) (options : object value)
| CastEstimate (to : string) (sig : option string)
               (callArgs : option (list string)) (options : object value)
| CastLogs (sig : option string) (topics : option (list string))
           (options : object value)
| CastAbiEncode (sig : string) (encodeArgs : list string)
| CastAbiDecode (sig data : string) (input : option bool)
| CastCalldata (sig : string) (encodeArgs : option (list string))
| CastCalldataDecode (sig calldata : string)
| CastSig (sig : string)
| CastSigEvent (sig : string)
| Cast4byte (selector : string)
| Cast4byteDecode (calldata : string)
| CastToWei (value : string) (unit : option string)
| CastFromWei (value : string) (unit : option string)
| CastToHex (value : string)
| CastToDec (value : string)
| CastToBase (value base : string)
| CastKeccak (data : string)
| CastResolveName (name : string) (options : object value)
| CastLookupAddress (address : string) (options : object value)
| CastComputeAddress (address : string) (nonce : option number)
                     (options : object value)
| CastCreate2 (options : object value)
| CastInterface (address_or_path : string) (name : option string)
                (options : object value)
| CastAge (block : option value) (options : object value)
| CastWalletNew (options : object value)
| CastWalletAddress (options : object value)
| CastWalletSign (message : string) (options : object value)
| CastFormatBytes32 (value : string)
| CastParseBytes32 (value : string)
| CastConcatHex (values : list string)
| HelpTool (request : Help.call)
| ChiselList
| ChiselLoad (id : string)
| ChiselView (id : string)
| ChiselClearCache.

(** The resources of [project.ts] that run a program through [exec]. *)
Inductive inspection : Type :=
| Remappings
| ContractAbi (href : string)
| ContractBytecode (href : string)
| ContractStorageLayout (href : string)
| ContractMethodIdentifiers (href : string)
| ContractGasEstimates (href : string).

Section Dispatch.
Context {World : Type} (ops : world_ops World) (context : Cast.ToolContext).

Definition run (t : tool) : @M World tool_result :=
  match t with
  | ForgeInit name template vscode force =>
      Forge.forge_init ops context name template vscode force
  | ForgeBuild options => Forge.forge_build ops context options
  | ForgeTest options => Forge.forge_test ops context options
  | ForgeCoverage options => Forge.forge_coverage ops context options
  | ForgeScript script options => Forge.forge_script ops context script options
  | ForgeCreate contract constructorArgs options =>
      Forge.forge_create ops context contract constructorArgs options
  | ForgeVerify address contract options =>
      Forge.forge_verify ops context address contract options
  | ForgeFlatten contract output =>
      Forge.forge_flatten ops context contract output
  | ForgeInspect contract field pretty =>
      Forge.forge_inspect ops context contract field pretty
  | ForgeRemappings => Forge.forge_remappings ops context
  | ForgeTree options => Forge.forge_tree ops context options
  | ForgeClean => Forge.forge_clean ops context
  | ForgeInstall dependency options =>
      Forge.forge_install ops context dependency options
  | ForgeUpdate dependency => Forge.forge_update ops context dependency
  | ForgeFmt options => Forge.forge_fmt ops context options
  | ForgeSnapshot options => Forge.forge_snapshot ops context options
  | ForgeDoc options => Forge.forge_doc ops context options
  | ForgeSelectors contract => Forge.forge_selectors ops context contract
  | ForgeBind options => Forge.forge_bind ops context options
  | CastBlock block options => Cast.cast_block ops context block options
  | CastBlockNumber options => Cast.cast_block_number ops context options
  | CastChain options => Cast.cast_chain ops context options
  | CastChainId options => Cast.cast_chain_id ops context options
  | CastClient options => Cast.cast_client ops context options
  | CastGasPrice options => Cast.cast_gas_price ops context options
  | CastBaseFee block options => Cast.cast_base_fee ops context block options
  | CastBalance address options =>
      Cast.cast_balance ops context address options
  | CastNonce address options => Cast.cast_nonce ops context address options
  | CastCode address options => Cast.cast_code ops context address options
  | CastStorage address slot options =>
      Cast.cast_storage ops context address slot options
  | CastCall to sig callArgs options =>
      Cast.cast_call ops context to sig callArgs options
  | CastSend to sig callArgs options =>
      Cast.cast_send ops context to sig callArgs options
  | CastPublish tx options => Cast.cast_publish ops context tx options
  | CastTx txHash options => Cast.cast_tx ops context txHash options
  | CastReceipt txHash options => Cast.cast_receipt ops context txHash options
  | CastRun txHash options => Cast.cast_run ops context txHash options
  | CastEstimate to sig callArgs options =>
      Cast.cast_estimate ops context to sig callArgs options
  | CastLogs sig topics options =>
      Cast.cast_logs ops context sig topics options
  | CastAbiEncode sig encodeArgs => Cast.cast_abi_encode ops sig encodeArgs
  | CastAbiDecode sig data input => Cast.cast_abi_decode ops sig data input
  | CastCalldata sig encodeArgs => Cast.cast_calldata ops sig encodeArgs
  | CastCalldataDecode sig calldata =>
      Cast.cast_calldata_decode ops sig calldata
  | CastSig sig => Cast.cast_sig ops sig
  | CastSigEvent sig => Cast.cast_sig_event ops sig
  | Cast4byte selector => Cast.cast_4byte ops selector
  | Cast4byteDecode calldata => Cast.cast_4byte_decode ops calldata
  | CastToWei value unit => Cast.cast_to_wei ops value unit
  | CastFromWei value unit => Cast.cast_from_wei ops value unit
  | CastToHex value => Cast.cast_to_hex ops value
  | CastToDec value => Cast.cast_to_dec ops value
  | CastToBase value base => Cast.cast_to_base ops value base
  | CastKeccak data => Cast.cast_keccak ops data
  | CastResolveName name options =>
      Cast.cast_resolve_name ops context name options
  | CastLookupAddress address options =>
      Cast.cast_lookup_address ops context address options
  | CastComputeAddress address nonce options =>
      Cast.cast_compute_address ops context address nonce options
  | CastCreate2 options => Cast.cast_create2 ops options
  | CastInterface address_or_path name options =>
      Cast.cast_interface ops context address_or_path name options
  | CastAge block options => Cast.cast_age ops context block options
  | CastWalletNew options => Cast.cast_wallet_new ops options
  | CastWalletAddress options => Cast.cast_wallet_address ops context options
  | CastWalletSign message options =>
      Cast.cast_wallet_sign ops context message options
  | CastFormatBytes32 value => Cast.cast_format_bytes32 ops value
  | CastParseBytes32 value => Cast.cast_parse_bytes32 ops value
  | CastConcatHex values => Cast.cast_concat_hex ops values
  | HelpTool request => Help.run ops request
  | ChiselList => Chisel.chisel_list ops
  | ChiselLoad id => Chisel.chisel_load ops id
  | ChiselView id => Chisel.chisel_view ops id
  | ChiselClearCache => Chisel.chisel_clear_cache ops
  end.

Definition read (projectPath : string) (r : inspection)
  : @M World Docs.resource :=
  match r with
  | Remappings => Project.foundry_remappings ops projectPath
  | ContractAbi href => Project.contract_abi ops projectPath href
  | ContractBytecode href => Project.contract_bytecode ops projectPath href
  | ContractStorageLayout href =>
      Project.contract_storage_layout ops projectPath href
  | ContractMethodIdentifiers href =>
      Project.contract_method_identifiers ops projectPath href
  | ContractGasEstimates href =>
      Project.contract_gas_estimates ops projectPath href
  end.

End Dispatch.

End Dispatch.

(* ================================================================== *)
(** ** [src/utils/validation.ts]: the patterns of the schemas *)
(* ================================================================== *)

Module Validation.
Import Js.

(** [[a-fA-F0-9]]. *)
Definition is_hex (c : ascii) : bool :=
  let n := nat_of_ascii c in
  ((48 <=? n) && (n <=? 57) || (97 <=? n) && (n <=? 102)
   || (65 <=? n) && (n <=? 70))%nat.

(** [[a-zA-Z_]] and [[a-zA-Z0-9_]]. *)
Definition is_name_start (c : ascii) : bool :=
  let n := nat_of_ascii c in
  ((97 <=? n) && (n <=? 122) || (65 <=? n) && (n <=? 90) || (n =? 95))%nat.

Definition is_name_char (c : ascii) : bool :=
  let n := nat_of_ascii c in
  (is_name_start c || (48 <=? n) && (n <=? 57))%nat.

Fixpoint all (f : ascii -> bool) (s : string) : bool :=
  match s with
  | EmptyString => true
  | String c rest => f c && all f rest
  end.

(** [[a-fA-F0-9]{n}$], from the start of [s]. *)
Definition hex_exactly (n : nat) (s : string) : bool :=
  (String.length s =? n)%nat && all is_hex s.

(** [/^0x[a-fA-F0-9]{40}$/]. *)
Definition addressSchema (s : string) : bool :=
  match s with
  | String "0" (String "x" rest) => hex_exactly 40 rest
  | _ => false
  end.

(** [/^0x[a-fA-F0-9]{64}$/]. *)
Definition txHashSchema (s : string) : bool :=
  match s with
  | String "0" (String "x" rest) => hex_exactly 64 rest
  | _ => false
  end.

(** [/^0x[a-fA-F0-9]*$/]. *)
Definition hexDataSchema (s : string) : bool :=
  match s with
  | String "0" (String "x" rest) => all is_hex rest
  | _ => false
  end.

(** [/^(0x)?[a-fA-F0-9]{64}$/], for a key that is given. *)
Definition privateKeySchema (s : string) : bool :=
  hex_exactly 64 s
  || match s with
     | String "0" (String "x" rest) => hex_exactly 64 rest
     | _ => false
     end.

(** [min(1)] and [/^[a-zA-Z_][a-zA-Z0-9_]*$/]. *)
Definition contractNameSchema (s : string) : bool :=
  match s with
  | String c rest => is_name_start c && all is_name_char rest
  | EmptyString => false
  end.

End Validation.

(* ================================================================== *)
(** ** A scripted clock and network for the documentation resource *)
(* ================================================================== *)

Module DocsScenario.
Import Js Runtime Docs.

(** The readings the clock will give and the answers the network will
    give, in order. *)
Record script : Type := {
  readings : list Z;
  answers : list (completion response)
}.

Definition scripted : docs_ops script :=
  {| Date_now := fun w =>
       match readings w with
       | t :: rest => (t, {| readings := rest; answers := answers w |})
       | [] => (0, w)
       end;
     fetch := fun _ w =>
       match answers w with
       | a :: rest => (a, {| readings := readings w; answers := rest |})
       | [] => (Abrupt (ThrownError "fetch failed"), w)
       end |}.

Definition page (body : string) : completion response :=
  Normal {| ok := true; status := 200; text := Normal body |}.

Definition unavailable : completion response :=
  Normal {| ok := false; status := 503; text := Normal "try later" |}.

Definition offline : completion response :=
  Abrupt (ThrownError "fetch failed").

(** A cache filled at time 1000. *)
Definition cached (w : script) : state script :=
  {| world := w;
     docsCache := Some {| content := "# Foundry"; timestamp := 1000 |};
     fetched := [] |}.

End DocsScenario.

(* ================================================================== *)
(** ** Further worlds for the handlers *)
(* ================================================================== *)

Module Cases.
Import Js Runtime Exec Anvil Scenario.

(** A machine where every program prints a result and nothing else, and
    exits with 1. *)
Definition failing_quietly : script :=
  {| replies := []; fresh_pid := 4242; clock := 1700000000000;
     binary_found := true; signal_delivered := true;
     outputs := ("Compiler run failed" ++ Js.LF, EmptyString);
     exit_status := 1 |}.


End Cases.

(* ================================================================== *)
(** * Vocabulary of the properties *)
(* ================================================================== *)

Import Js Runtime Exec Anvil Chisel.

(** The tokens one option contributes, in the words of the
    specification: nothing for [false] or an absent value, the flag alone
    for [true], the flag and the string form of the value otherwise; the
    flag is [-k] for a one-character name and [--name] for any other. *)
Definition option_tokens (p : string * value) : list string :=
  let flag := if (String.length (fst p) =? 1)%nat
              then ("-" ++ fst p)%string else ("--" ++ fst p)%string in
  match snd p with
  | VUndefined => []
  | VBoolean false => []
  | VBoolean true => [flag]
  | v => [flag; String_ v]
  end.

(** Ascending order of array indices. *)
Definition index_le (p q : string * value) : Prop :=
  (index_of p <= index_of q)%N.

(** The text returned for a successful command without output. *)
Definition placeholder : string := "Command completed successfully.".

(** The lines of a failure, in the words of the specification: an error
    line when [stderr] is not empty, an output line when [stdout] is not
    empty, and the exit code line. *)
Definition error_line (r : CommandResult) : list string :=
  match stderr r with
  | EmptyString => []
  | _ => [("Error: " ++ stderr r)%string]
  end.

Definition output_line (r : CommandResult) : list string :=
  match stdout r with
  | EmptyString => []
  | _ => [("Output: " ++ stdout r)%string]
  end.

Definition exit_code_line (r : CommandResult) : string :=
  "Exit code: " ++ String_of_number (exitCode r).

(** What a call makes of the answer to its request: a failed [fetch] or
    an unparsable body rejects, a parsed body is decoded. *)
Definition rpc_outcome (answer : completion (completion json))
  : completion (option json) :=
  match answer with
  | Abrupt error => Abrupt error
  | Normal (Abrupt error) => Abrupt error
  | Normal (Normal data) => rpc_decode data
  end.

(** The registry invariant: no port is the key of two entries, and every
    instance is stored under its own port. *)
Definition registry_ok (m : Map) : Prop :=
  NoDup (map fst m) /\ Forall (fun e => port (snd e) = fst e) m.

(** The instances tracked for a port: the entries keyed by it or whose
    instance carries it. *)
Definition tracked_on (m : Map) (p : Z) : list AnvilInstance :=
  map snd (filter (fun e => (fst e =? p) || (port (snd e) =? p)) m).

(** A computation keeps [I] when the registry satisfies it afterwards,
    however the computation completes. *)
Definition keeps {World A : Type} (I : Map -> Prop) (m : @M World A) : Prop :=
  forall s, I (anvilInstances s) -> I (anvilInstances (snd (m s))).

(** The argument vector [anvil_start] spawns. *)
Definition anvil_argv (p : Z) (options : object value) : list string :=
  "anvil" :: buildArgs (spread [("port", VNumber p)] options).

(** The liveness probe: [eth_chainId] on the local port. *)
Definition probe (p : Z) : http_request :=
  rpc_request (local_url p) "eth_chainId" [].

Definition default_options : spawn_options := {| cwd := None; env := None |}.

(** The text [anvil_stop] returns after signalling the process. *)
Definition stop_report (p : Z) (answer : completion unit) : string :=
  match answer with
  | Normal _ => "Anvil stopped on port " ++ String_of_number p
  | Abrupt error => "Error stopping Anvil: " ++ describe error
  end.






(** The value of a sequence of decimal digits, most significant first,
    continuing from [acc]. *)
Fixpoint uint_value (d : Decimal.uint) (acc : N) : N :=
  match d with
  | Decimal.Nil => acc
  | Decimal.D0 l => uint_value l (acc * 10 + 0)
  | Decimal.D1 l => uint_value l (acc * 10 + 1)
  | Decimal.D2 l => uint_value l (acc * 10 + 2)
  | Decimal.D3 l => uint_value l (acc * 10 + 3)
  | Decimal.D4 l => uint_value l (acc * 10 + 4)
  | Decimal.D5 l => uint_value l (acc * 10 + 5)
  | Decimal.D6 l => uint_value l (acc * 10 + 6)
  | Decimal.D7 l => uint_value l (acc * 10 + 7)
  | Decimal.D8 l => uint_value l (acc * 10 + 8)
  | Decimal.D9 l => uint_value l (acc * 10 + 9)
  end%N.

(** The parameters of [anvil_mine] in the words of the specification:
    the block count and, when an interval is given, the interval, each as
    a string of [0x] and hexadecimal digits. *)
Definition hex_params (blocks : N) (interval : option N) : list json :=
  JString ("0x" ++ toString16 blocks)
  :: match interval with
     | Some i => if (i =? 0)%N then [] else [JString ("0x" ++ toString16 i)]
     | None => []
     end.

(** The text between single quotes in the command of [chisel_eval]. *)
Definition quoted (code : string) : string :=
  String SQUOTE (escape_single_quotes code ++ String SQUOTE EmptyString).

(** The argument vector the specification expects an operation to be
    started with: the program, the words of the command, the values as
    they are given, and the tokens of the options; [None] when the
    operation starts no program. *)
Definition command_line (context : Cast.ToolContext) (t : Dispatch.tool)
  : option (list string) :=
  let tokens options := buildArgs options in
  let rpc options := buildArgs (Cast.with_rpc_url options context) in
  let leading (block : option value) :=
    match block with
    | Some b => [String_ b]
    | None => []
    end in
  let given (v : option string) :=
    match v with
    | Some (String c rest) => [String c rest]
    | _ => []
    end in
  let key options :=
    given (Cast.getPrivateKey (Cast.text_option options "private-key")
                              context) in
  match t with
  | Dispatch.ForgeInit name template vscode force =>
      Some ("forge" :: "init"
            :: tokens [("template", Cast.as_value template);
                       ("vscode", Forge.as_boolean vscode);
                       ("force", Forge.as_boolean force)] ++ [name])%list
  | Dispatch.ForgeBuild options => Some ("forge" :: "build" :: tokens options)
  | Dispatch.ForgeTest options => Some ("forge" :: "test" :: tokens options)
  | Dispatch.ForgeCoverage options =>
      Some ("forge" :: "coverage" :: tokens options)
  | Dispatch.ForgeScript script options =>
      Some ("forge" :: "script" :: script :: tokens options)
  | Dispatch.ForgeCreate contract constructorArgs options =>
      Some ("forge" :: "create" :: contract
            :: tokens options
            ++ match constructorArgs with
               | Some (first :: others) =>
                   "--constructor-args" :: first :: others
               | _ => []
               end)%list
  | Dispatch.ForgeVerify address contract options =>
      Some ("forge" :: "verify-contract" :: address :: contract
            :: tokens options)
  | Dispatch.ForgeFlatten contract output =>
      Some ("forge" :: "flatten" :: contract
            :: match given output with
               | [] => []
               | file => "-o" :: file
               end)
  | Dispatch.ForgeInspect contract field pretty =>
      Some ("forge" :: "inspect" :: contract :: field
            :: match pretty with
               | Some true => ["--pretty"]
               | _ => []
               end)
  | Dispatch.ForgeRemappings => Some ["forge"; "remappings"]
  | Dispatch.ForgeTree options => Some ("forge" :: "tree" :: tokens options)
  | Dispatch.ForgeClean => Some ["forge"; "clean"]
  | Dispatch.ForgeInstall dependency options =>
      Some ("forge" :: "install" :: dependency :: tokens options)
  | Dispatch.ForgeUpdate dependency =>
      Some ("forge" :: "update" :: given dependency)
  | Dispatch.ForgeFmt options => Some ("forge" :: "fmt" :: tokens options)
  | Dispatch.ForgeSnapshot options =>
      Some ("forge" :: "snapshot" :: tokens options)
  | Dispatch.ForgeDoc options => Some ("forge" :: "doc" :: tokens options)
  | Dispatch.ForgeSelectors contract =>
      Some ("forge" :: "selectors" :: "list" :: given contract)
  | Dispatch.ForgeBind options => Some ("forge" :: "bind" :: tokens options)
  | Dispatch.CastBlock block options =>
      Some ("cast" :: "block" :: leading block ++ rpc options)%list
  | Dispatch.CastBlockNumber options =>
      Some ("cast" :: "block-number" :: rpc options)
  | Dispatch.CastChain options => Some ("cast" :: "chain" :: rpc options)
  | Dispatch.CastChainId options => Some ("cast" :: "chain-id" :: rpc options)
  | Dispatch.CastClient options => Some ("cast" :: "client" :: rpc options)
  | Dispatch.CastGasPrice options =>
      Some ("cast" :: "gas-price" :: rpc options)
  | Dispatch.CastBaseFee block options =>
      Some ("cast" :: "base-fee" :: leading block ++ rpc options)%list
  | Dispatch.CastBalance address options =>
      Some ("cast" :: "balance" :: address :: rpc options)
  | Dispatch.CastNonce address options =>
      Some ("cast" :: "nonce" :: address :: rpc options)
  | Dispatch.CastCode address options =>
      Some ("cast" :: "code" :: address :: rpc options)
  | Dispatch.CastStorage address slot options =>
      Some ("cast" :: "storage" :: address :: slot :: rpc options)
  | Dispatch.CastCall to sig callArgs options =>
      Some ("cast" :: "call" :: to :: sig
            :: Cast.or_empty callArgs ++ rpc options)%list
  | Dispatch.CastSend to sig callArgs options =>
      Some ("cast" :: "send" :: to :: sig
            :: Cast.or_empty callArgs
            ++ buildArgs (Cast.with_private_key
                            (Cast.with_rpc_url options context) context))%list
  | Dispatch.CastPublish tx options =>
      Some ("cast" :: "publish" :: tx :: rpc options)
  | Dispatch.CastTx txHash options =>
      Some ("cast" :: "tx" :: txHash :: rpc options)
  | Dispatch.CastReceipt txHash options =>
      Some ("cast" :: "receipt" :: txHash :: rpc options)
  | Dispatch.CastRun txHash options =>
      Some ("cast" :: "run" :: txHash :: rpc options)
  | Dispatch.CastEstimate to sig callArgs options =>
      Some ("cast" :: "estimate" :: to
            :: match given sig with
               | [] => []
               | signature => signature ++ Cast.or_empty callArgs
               end ++ rpc options)%list
  | Dispatch.CastLogs sig topics options =>
      Some ("cast" :: "logs"
            :: given sig ++ rpc options
            ++ match topics with
               | Some l => flat_map (fun topic => ["--topic"; topic]) l
               | None => []
               end)%list
  | Dispatch.CastAbiEncode sig encodeArgs =>
      Some ("cast" :: "abi-encode" :: sig :: encodeArgs)
  | Dispatch.CastAbiDecode sig data input =>
      Some ("cast" :: "abi-decode" :: sig :: data
            :: match input with
               | Some true => ["--input"]
               | _ => []
               end)
  | Dispatch.CastCalldata sig encodeArgs =>
      Some ("cast" :: "calldata" :: sig :: Cast.or_empty encodeArgs)
  | Dispatch.CastCalldataDecode sig calldata =>
      Some ["cast"; "calldata-decode"; sig; calldata]
  | Dispatch.CastSig sig => Some ["cast"; "sig"; sig]
  | Dispatch.CastSigEvent sig => Some ["cast"; "sig-event"; sig]
  | Dispatch.Cast4byte selector => Some ["cast"; "4byte"; selector]
  | Dispatch.Cast4byteDecode calldata =>
      Some ["cast"; "4byte-decode"; calldata]
  | Dispatch.CastToWei value unit =>
      Some ("cast" :: "to-wei" :: value :: given unit)
  | Dispatch.CastFromWei value unit =>
      Some ("cast" :: "from-wei" :: value :: given unit)
  | Dispatch.CastToHex value => Some ["cast"; "to-hex"; value]
  | Dispatch.CastToDec value => Some ["cast"; "to-dec"; value]
  | Dispatch.CastToBase value base => Some ["cast"; "to-base"; value; base]
  | Dispatch.CastKeccak data => Some ["cast"; "keccak"; data]
  | Dispatch.CastResolveName name options =>
      Some ("cast" :: "resolve-name" :: name :: rpc options)
  | Dispatch.CastLookupAddress address options =>
      Some ("cast" :: "lookup-address" :: address :: rpc options)
  | Dispatch.CastComputeAddress address nonce options =>
      Some ("cast" :: "compute-address" :: address
            :: rpc options
            ++ match nonce with
               | Some n => ["--nonce"; Number_toString n]
               | None => []
               end)%list
  | Dispatch.CastCreate2 options =>
      Some ("cast" :: "create2" :: tokens options)
  | Dispatch.CastInterface address_or_path name options =>
      Some ("cast" :: "interface" :: address_or_path
            :: rpc options
            ++ match given name with
               | [] => []
               | interface => "-n" :: interface
               end)%list
  | Dispatch.CastAge block options =>
      Some ("cast" :: "age" :: leading block ++ rpc options)%list
  | Dispatch.CastWalletNew options =>
      Some ("cast" :: "wallet" :: "new" :: tokens options)
  | Dispatch.CastWalletAddress options =>
      match key options with
      | [] => None
      | pk => Some ("cast" :: "wallet" :: "address" :: "--private-key" :: pk)
      end
  | Dispatch.CastWalletSign message options =>
      match key options with
      | [] => None
      | pk => Some ("cast" :: "wallet" :: "sign" :: message
                    :: "--private-key" :: pk)
      end
  | Dispatch.CastFormatBytes32 value =>
      Some ["cast"; "format-bytes32-string"; value]
  | Dispatch.CastParseBytes32 value =>
      Some ["cast"; "parse-bytes32-string"; value]
  | Dispatch.CastConcatHex values => Some ("cast" :: "concat-hex" :: values)
  | Dispatch.HelpTool (Help.ForgeHelp subcommand) =>
      Some ("forge" :: Help.help_args subcommand)
  | Dispatch.HelpTool (Help.CastHelp subcommand) =>
      Some ("cast" :: Help.help_args subcommand)
  | Dispatch.HelpTool Help.AnvilHelp => Some ["anvil"; "--help"]
  | Dispatch.HelpTool (Help.ChiselHelp subcommand) =>
      Some ("chisel" :: Help.help_args subcommand)
  | Dispatch.HelpTool (Help.ListCommands t) =>
      Some [Help.tool_name t; "--help"]
  | Dispatch.ChiselList => Some ["chisel"; "list"]
  | Dispatch.ChiselLoad id => Some ["chisel"; "load"; id]
  | Dispatch.ChiselView id => Some ["chisel"; "view"; id]
  | Dispatch.ChiselClearCache => Some ["chisel"; "clear-cache"]
  end.

(** The directory an operation names for its program: the Forge tools
    name the project path of the context, the others none. *)
Definition directory_of (context : Cast.ToolContext) (t : Dispatch.tool)
  : option string :=
  match t with
  | Dispatch.ForgeInit _ _ _ _ | Dispatch.ForgeBuild _ | Dispatch.ForgeTest _
  | Dispatch.ForgeCoverage _ | Dispatch.ForgeScript _ _
  | Dispatch.ForgeCreate _ _ _ | Dispatch.ForgeVerify _ _ _
  | Dispatch.ForgeFlatten _ _ | Dispatch.ForgeInspect _ _ _
  | Dispatch.ForgeRemappings | Dispatch.ForgeTree _ | Dispatch.ForgeClean
  | Dispatch.ForgeInstall _ _ | Dispatch.ForgeUpdate _ | Dispatch.ForgeFmt _
  | Dispatch.ForgeSnapshot _ | Dispatch.ForgeDoc _
  | Dispatch.ForgeSelectors _ | Dispatch.ForgeBind _ =>
      Cast.projectPath context
  | _ => None
  end.

(** The argument vector of a project resource: [forge remappings], or
    [forge inspect] with the name found in the URI and the field of the
    resource. *)
Definition inspection_line (r : Dispatch.inspection) : option (list string) :=
  let inspect marker field href :=
    match Project.captured_after marker href with
    | Some contract => Some ["forge"; "inspect"; contract; field]
    | None => None
    end in
  match r with
  | Dispatch.Remappings => Some ["forge"; "remappings"]
  | Dispatch.ContractAbi href => inspect "foundry://abi/" "abi" href
  | Dispatch.ContractBytecode href =>
      inspect "foundry://bytecode/" "bytecode" href
  | Dispatch.ContractStorageLayout href =>
      inspect "foundry://storage-layout/" "storageLayout" href
  | Dispatch.ContractMethodIdentifiers href =>
      inspect "foundry://method-identifiers/" "methodIdentifiers" href
  | Dispatch.ContractGasEstimates href =>
      inspect "foundry://gas-estimates/" "gasEstimates" href
  end.

(** An event that is not a spawn, or the spawn of an allowed argument
    vector. *)
Definition spawns_only (allowed : list string -> spawn_options -> Prop)
           (ev : event) : Prop :=
  match ev with
  | Spawned argv options _ => allowed argv options
  | _ => True
  end.

(** Whatever a computation logs satisfies [P]. *)
Definition logs_only {World A : Type} (P : event -> Prop)
           (m : @M World A) : Prop :=
  forall s, exists events,
    trace (snd (m s)) = (trace s ++ events)%list /\ Forall P events.

(** Every spawn a computation logs from [s] is allowed. *)
Definition spawns_within {World A : Type}
           (allowed : list string -> spawn_options -> Prop)
           (m : @M World A) (s : state World) : Prop :=
  exists events,
    trace (snd (m s)) = (trace s ++ events)%list
    /\ (forall argv options answer,
           In (Spawned argv options answer) events -> allowed argv options).

(** A computation starts [argv] directly, in a directory of its choice
    or in the server's: every spawn it logs is of [argv], and once the
    working directory is known the spawn is its first effect, made with
    the environment of [exec]. *)
Definition runs_directly {World A : Type} (ops : world_ops World)
           (tool : @M World A) (argv : list string) (cwd : option string)
           (s : state World) : Prop :=
  exists events,
    trace (snd (tool s)) = (trace s ++ events)%list
    /\ (forall argv' options answer,
           In (Spawned argv' options answer) events -> argv' = argv)
    /\ (forall dir,
           fst (working_directory ops cwd s) = Normal dir ->
           exists answer rest,
             events = Spawned argv
                              (exec_options dir (process_env _ ops (world s)))
                              answer :: rest).

(** The programs the server starts without a shell. *)
Definition programs : list string :=
  ["forge"; "cast"; "anvil"; "chisel"; "ls"].

(** An argument vector whose program is one of these. *)
Definition direct (argv : list string) : Prop :=
  exists program arguments,
    argv = program :: arguments /\ In program programs.

(** The text of a tool whose program could not be spawned. *)
Definition spawn_failure_text (error : thrown) : string :=
  match describe error with
  | EmptyString => "Exit code: 1"
  | message => "Error: " ++ message ++ LF ++ "Exit code: 1"
  end.

(** An option that contributes no token. *)
Definition silent (p : string * value) : Prop :=
  snd p = VUndefined \/ snd p = VBoolean false.

(** An option set as the tool schemas produce it: distinct keys, none of
    them an array index. *)
Definition named_options (options : object value) : Prop :=
  NoDup (map fst options)
  /\ forallb (fun p => negb (is_array_index p)) options = true.

(** A string that does not start with white space. *)
Definition starts_clean (s : string) : Prop :=
  match s with
  | String c _ => is_white_space c = false
  | EmptyString => True
  end.




(** The code units of a string. *)
Definition chars (s : string) : list ascii := list_ascii_of_string s.

(** How often a character occurs in a string. *)
Definition occurrences (c : ascii) (s : string) : nat :=
  count_occ ascii_dec (chars s) c.

(** A character that no [BigInt] literal holds: neither white space, nor
    a sign, nor a letter or a digit. *)
Definition foreign (c : ascii) : bool :=
  negb (is_white_space c) && negb (c =? "+")%char && negb (c =? "-")%char
  && match digit_of 36 c with
     | Some _ => false
     | None => true
     end.

(** A non-empty string without white space. *)
Definition is_word (w : string) : Prop :=
  w <> EmptyString /\ forall c, In c (chars w) -> is_white_space c = false.

(** A line of a help text that opens a list of commands. *)
Definition is_header (line : string) : bool :=
  includes line "Commands:" || includes line "Subcommands:".

(** The file events of a log. *)
Definition file_events (events : list event) : list event :=
  filter (fun ev => match ev with
                    | FileWritten _ _ _ | FileProbed _ _ => true
                    | _ => false
                    end) events.

(** An optional string that is falsy: [undefined] or empty. *)
Definition falsy (v : option string) : Prop :=
  v = None \/ v = Some EmptyString.

Create HintDb keeps discriminated.

(* ================================================================== *)
(** * Properties *)
(* ================================================================== *)

(** ** Process runner *)

Section ExecFacts.
Context {World : Type} (ops : world_ops World).

Lemma working_directory_state cwd (s : state World) :
  snd (working_directory ops cwd s) = s.
Proof.
  unfold working_directory, current_directory, ret.
  destruct cwd as [dir|]; [destruct (truthy_string dir)|]; reflexivity.
Qed.

Ltac spawned_cases :=
  split; [|split];
  [ intros ? ? ? Hin; simpl in Hin;
    repeat (destruct Hin as [Hin|Hin]; [inversion Hin; reflexivity || discriminate|]);
    try contradiction
  | intros ? ? ? Hin; simpl in Hin;
    repeat (destruct Hin as [Hin|Hin];
            [try discriminate; inversion Hin; subst; reflexivity|]);
    try contradiction
  | intros ? Hdir; inversion Hdir; subst; do 2 eexists; reflexivity ].

(** One run of [exec]: it completes normally, leaves the registry alone,
    and logs at most one spawn, of the program and arguments as given. *)
Lemma exec_run command args cwd (s : state World) :
  exists r events w',
    exec ops command args cwd s
    = (Normal r, {| world := w'; anvilInstances := anvilInstances s;
                    trace := trace s ++ events |})
    /\ success r = (exitCode r =? 0)
    /\ (forall argv options answer,
           In (Spawned argv options answer) events -> argv = command :: args)
    /\ (forall argv options error,
           In (Spawned argv options (Abrupt error)) events ->
           r = {| success := false; stdout := EmptyString;
                  stderr := describe error; exitCode := 1 |})
    /\ (forall dir,
           fst (working_directory ops cwd s) = Normal dir ->
           exists answer rest,
             events = Spawned (command :: args)
                              (exec_options dir (process_env _ ops (world s)))
                              answer :: rest).
Proof.
  unfold exec, try_catch, bind at 1.
  pose proof (working_directory_state cwd s) as Hst.
  destruct (working_directory ops cwd s) as [[dir|e] s0]; simpl in Hst;
    subst s0; simpl fst.
  2:{ exists {| success := false; stdout := EmptyString;
               stderr := describe e; exitCode := 1 |}, [], (world s).
      unfold ret. rewrite app_nil_r. destruct s; simpl.
      split; [reflexivity|]. split; [reflexivity|].
      split; [intros ? ? ? []|]. split; [intros ? ? ? []|].
      intros dir Hdir. discriminate. }
  unfold bind, read_world, spawn, pipes_text, await_exited, perform, ret.
  simpl.
  destruct (Bun_spawn _ ops _ _ _) as [[proc|e] w1]; simpl.
  2:{ do 3 eexists. split; [reflexivity|]. split; [reflexivity|].
      spawned_cases. }
  destruct (read_pipes _ ops proc w1) as [[out|e] w2]; simpl.
  2:{ rewrite <- app_assoc. do 3 eexists. split; [reflexivity|].
      split; [reflexivity|]. spawned_cases. }
  destruct (exited _ ops proc w2) as [[code|e] w3]; simpl;
    rewrite <- !app_assoc; do 3 eexists; (split; [reflexivity|]);
    (split; [reflexivity|]); spawned_cases.
Qed.

End ExecFacts.

(** C1. Every call of [exec] completes normally with a [CommandResult]
    (it never raises); in that result [success] is [exitCode == 0]; and
    when the spawn the call logged failed, the result is
    [success = false], [exitCode = 1], an empty [stdout] and, as [stderr],
    the description of the failure. *)
Theorem exec_never_raises :
  forall (World : Type) (ops : world_ops World)
         (command : string) (args : list string) (cwd : option string)
         (s : state World),
  exists (r : CommandResult) (events : list event),
    fst (exec ops command args cwd s) = Normal r
    /\ trace (snd (exec ops command args cwd s)) = (trace s ++ events)%list
    /\ success r = (exitCode r =? 0)
    /\ (forall argv options error,
           In (Spawned argv options (Abrupt error)) events ->
           r = {| success := false; stdout := EmptyString;
                  stderr := describe error; exitCode := 1 |}).
Proof.
  intros World ops command args cwd s.
  destruct (exec_run ops command args cwd s)
    as (r & events & w' & Hrun & Hs & _ & Hfail & _).
  exists r, events. rewrite Hrun. simpl.
  split; [reflexivity|]. split; [reflexivity|]. split; assumption.
Qed.

(** [forge] is not installed: the failure to spawn it comes back as a
    result. *)
Lemma exec_never_raises_witness :
  fst (exec Scenario.scripted "forge" ["--version"] None
            (initial Scenario.nothing_installed))
  = Normal {| success := false; stdout := EmptyString;
              stderr := "Executable not found in $PATH: forge";
              exitCode := 1 |}.
Proof.
  destruct (exec_never_raises _ Scenario.scripted "forge" ["--version"] None
              (initial Scenario.nothing_installed))
    as (r & events & Hr & Htrace & _ & Hfail).
  rewrite Hr. f_equal.
  apply (Hfail ["forge"; "--version"]
               (exec_options "/work" [("PATH", "/usr/bin")])
               (ThrownError "Executable not found in $PATH: forge")).
  apply (app_inv_head []) in Htrace. rewrite <- Htrace. left. reflexivity.
Defined.

(** A program that exits with 0 after printing [ok]. *)
Example exec_ok :
  fst (exec Scenario.scripted "forge" ["--version"] None
            (initial Scenario.prints_ok))
  = Normal {| success := true; stdout := "ok"; stderr := EmptyString;
              exitCode := 0 |}.
Proof. reflexivity. Qed.

(** ** Argument serializer *)

Section ObjectEntries.
Context {A : Type}.
Implicit Types (p q : string * A) (l : list (string * A)).

Let le p q : Prop := (index_of p <= index_of q)%N.

Lemma insert_by_index_perm p l :
  Permutation (insert_by_index p l) (p :: l).
Proof.
  induction l as [|q l IH]; simpl.
  - apply Permutation_refl.
  - destruct (index_of p <? index_of q)%N.
    + apply Permutation_refl.
    + eapply Permutation_trans.
      * apply perm_skip, IH.
      * apply perm_swap.
Qed.

Lemma sort_by_index_perm l : Permutation (sort_by_index l) l.
Proof.
  induction l as [|p l IH]; simpl.
  - constructor.
  - eapply Permutation_trans.
    + apply insert_by_index_perm.
    + apply perm_skip, IH.
Qed.

Lemma insert_by_index_hd p q l :
  le q p -> HdRel le q l -> HdRel le q (insert_by_index p l).
Proof.
  intros Hqp Hl. destruct l as [|r l]; simpl.
  - constructor. exact Hqp.
  - destruct (index_of p <? index_of r)%N; constructor.
    + exact Hqp.
    + inversion Hl; assumption.
Qed.

Lemma insert_by_index_sorted p l :
  Sorted le l -> Sorted le (insert_by_index p l).
Proof.
  induction 1 as [|q l Hs IH Hhd]; simpl.
  - repeat constructor.
  - destruct (index_of p <? index_of q)%N eqn:E.
    + apply N.ltb_lt in E. constructor.
      * constructor; assumption.
      * constructor. unfold le. lia.
    + apply N.ltb_ge in E. constructor.
      * exact IH.
      * apply insert_by_index_hd; assumption.
Qed.

Lemma sort_by_index_sorted l : StronglySorted le (sort_by_index l).
Proof.
  apply Sorted_StronglySorted.
  - intros x y z Hxy Hyz. unfold le in *. lia.
  - induction l as [|p l IH]; simpl.
    + constructor.
    + apply insert_by_index_sorted, IH.
Qed.

Lemma filter_none (f : string * A -> bool) l :
  forallb (fun p => negb (f p)) l = true ->
  filter f l = [] /\ filter (fun p => negb (f p)) l = l.
Proof.
  induction l as [|p l IH]; simpl; intros H.
  - split; reflexivity.
  - apply andb_true_iff in H. destruct H as [Hp Hl].
    destruct (IH Hl) as [E1 E2]. rewrite Hp.
    apply negb_true_iff in Hp. rewrite Hp, E1, E2. split; reflexivity.
Qed.

(** Without an array index among the keys, [Object.entries] is the
    creation order. *)
Lemma Object_entries_named (o : object A) :
  forallb (fun p => negb (is_array_index p)) o = true ->
  Object_entries o = o.
Proof.
  intros H. unfold Object_entries.
  destruct (filter_none is_array_index o H) as [E1 E2].
  rewrite E1, E2. reflexivity.
Qed.

End ObjectEntries.

Lemma buildArgs_loop_tokens (entries : list (string * value))
      (args : list string) :
  buildArgs_loop entries args = (args ++ flat_map option_tokens entries)%list.
Proof.
  revert args. induction entries as [|[key v] rest IH]; intros args; simpl.
  - now rewrite app_nil_r.
  - destruct v as [|[|]|n|x|s]; rewrite IH; unfold option_tokens, flag_of;
      simpl; rewrite <- ?app_assoc; reflexivity.
Qed.

(** What [String] makes of some Numbers: the exponent notation from
    [10^21] on and below [10^-6], the shortest decimal that reads back
    as the Number otherwise. *)
Lemma Number_toString_samples :
  Number_toString (Number_of_Z 0) = "0"
  /\ Number_toString (Number_of_Z 8545) = "8545"
  /\ Number_toString (Number_of_Z (- 42)) = "-42"
  /\ Number_toString (Number_of_Z (2 ^ 53)) = "9007199254740992"
  /\ Number_toString (Number_of_Z (10 ^ 20)) = "100000000000000000000"
  /\ Number_toString (Number_of_Z (10 ^ 21)) = "1e+21"
  /\ Number_toString (Number_of_Z (2 ^ 70)) = "1.1805916207174113e+21"
  /\ Number_toString (Number_of_quotient 3 2) = "1.5"
  /\ Number_toString (Number_of_quotient 1 10) = "0.1"
  /\ Number_toString (Number_of_quotient 1 3) = "0.3333333333333333"
  /\ Number_toString (Number_of_quotient 1 1000000) = "0.000001"
  /\ Number_toString (Number_of_quotient 1 10000000) = "1e-7"
  /\ Number_toString (S754_finite false 1 (-1074)) = "5e-324"
  /\ Number_toString (S754_finite false (2 ^ 53 - 1) 971)
     = "1.7976931348623157e+308".
Proof. vm_compute. repeat split. Qed.

(** C2, as amended.  [buildArgs] emits, for the entries of the option set
    in the order of [Object.entries], the tokens of each: [-k] or [--name]
    by the length of the key, nothing for [false] and [undefined], the flag
    alone for [true], the flag and the string of the value (also for [0]
    and for the empty string) otherwise.  The string of a number is what
    [String] gives: the decimal digits of an integer of the safe range,
    and for any Number the text of [Number::toString], which is [1e+21]
    for [10^21] and [1.5] for three halves.  [Object.entries] lists the
    keys that are array indices first, in ascending numeric order, then
    the other keys in insertion order; so the tokens are in insertion
    order whenever no key is an array index. *)
Theorem buildArgs_serializes :
  forall options : object value,
    buildArgs options = flat_map option_tokens (Object_entries options)
    /\ (forall key : string,
          option_tokens (key, VUndefined) = []
          /\ option_tokens (key, VBoolean false) = []
          /\ option_tokens (key, VBoolean true) = [flag_of key]
          /\ option_tokens (key, VNumber 0) = [flag_of key; "0"]
          /\ option_tokens (key, VString EmptyString)
             = [flag_of key; EmptyString]
          /\ (forall n, - 2 ^ 53 <= n <= 2 ^ 53 ->
                        option_tokens (key, VNumber n)
                        = [flag_of key; String_of_number n])
          /\ (forall x, option_tokens (key, VDouble x)
                        = [flag_of key; Number_toString x])
          /\ option_tokens (key, VDouble (Number_of_Z (10 ^ 21)))
             = [flag_of key; "1e+21"]
          /\ option_tokens (key, VDouble (Number_of_quotient 3 2))
             = [flag_of key; "1.5"]
          /\ (forall s, option_tokens (key, VString s) = [flag_of key; s])
          /\ flag_of key = (if (String.length key =? 1)%nat
                            then String "-" key
                            else String "-" (String "-" key)))
    /\ (exists indexed named,
          Object_entries options = (indexed ++ named)%list
          /\ named = filter (fun p => negb (is_array_index p)) options
          /\ Permutation indexed (filter is_array_index options)
          /\ StronglySorted index_le indexed)
    /\ (forallb (fun p => negb (is_array_index p)) options = true ->
        buildArgs options = flat_map option_tokens options).
Proof.
  intros options. split; [|split; [|split]].
  - unfold buildArgs. now rewrite buildArgs_loop_tokens.
  - intros key.
    destruct Number_toString_samples
      as (_ & _ & _ & _ & _ & Hlarge & _ & Hhalves & _).
    rewrite <- Hlarge, <- Hhalves.
    unfold option_tokens, flag_of. cbn [fst snd String_].
    change (String_of_number 0) with "0".
    repeat split; destruct (String.length key =? 1)%nat; reflexivity.
  - exists (sort_by_index (filter is_array_index options)),
      (filter (fun p => negb (is_array_index p)) options).
    split; [reflexivity|]. split; [reflexivity|]. split.
    + apply sort_by_index_perm.
    + apply sort_by_index_sorted.
  - intros H. unfold buildArgs.
    rewrite buildArgs_loop_tokens, (Object_entries_named options H).
    reflexivity.
Qed.

(** An option set of [anvil_start], named keys only, with a gas limit of
    [10^21] and a balance of three halves. *)
Lemma buildArgs_serializes_witness :
  forallb (fun p => negb (is_array_index p))
          [("port", VNumber 8545); ("fork-url", VString "http://node");
           ("silent", VBoolean true); ("no-mining", VBoolean false);
           ("gas-limit", VDouble (Number_of_Z (10 ^ 21)));
           ("balance", VDouble (Number_of_quotient 3 2))] = true
  /\ buildArgs [("port", VNumber 8545); ("fork-url", VString "http://node");
                ("silent", VBoolean true); ("no-mining", VBoolean false);
                ("gas-limit", VDouble (Number_of_Z (10 ^ 21)));
                ("balance", VDouble (Number_of_quotient 3 2))]
     = ["--port"; "8545"; "--fork-url"; "http://node"; "--silent";
        "--gas-limit"; "1e+21"; "--balance"; "1.5"].
Proof.
  split; [reflexivity|].
  refine (eq_trans
            (proj2 (proj2 (proj2 (buildArgs_serializes
               [("port", VNumber 8545); ("fork-url", VString "http://node");
                ("silent", VBoolean true); ("no-mining", VBoolean false);
                ("gas-limit", VDouble (Number_of_Z (10 ^ 21)));
                ("balance", VDouble (Number_of_quotient 3 2))])))
               eq_refl)
            _).
  vm_compute. reflexivity.
Defined.

(** C2 as stated fails: with the keys [b] then [1], the tokens come out
    as [-1], [-b], not in insertion order. *)
Lemma buildArgs_not_insertion_order :
  buildArgs [("b", VBoolean true); ("1", VBoolean true)] = ["-1"; "-b"]
  /\ flat_map option_tokens [("b", VBoolean true); ("1", VBoolean true)]
     = ["-b"; "-1"]
  /\ buildArgs [("b", VBoolean true); ("1", VBoolean true)]
     <> flat_map option_tokens [("b", VBoolean true); ("1", VBoolean true)].
Proof.
  split; [reflexivity|]. split; [reflexivity|]. discriminate.
Qed.

(** ** Output formatter *)

Lemma truthy_string_empty s :
  truthy_string s = match s with EmptyString => false | _ => true end.
Proof. destruct s; reflexivity. Qed.

Lemma append_nil_r (s : string) : (s ++ EmptyString)%string = s.
Proof. induction s; simpl; congruence. Qed.

Lemma append_assoc (a b c : string) :
  ((a ++ b) ++ c)%string = (a ++ (b ++ c))%string.
Proof. induction a; simpl; congruence. Qed.

Lemma append_not_empty (a b : string) :
  b <> EmptyString -> (a ++ b)%string <> EmptyString.
Proof. destruct a; simpl; [auto|discriminate]. Qed.

(** A joined list ends with its last part. *)
Lemma join_last (sep : string) (parts : list string) (last : string) :
  exists before, join sep (parts ++ [last]) = (before ++ last)%string.
Proof.
  induction parts as [|p parts IH]; simpl.
  - exists EmptyString. reflexivity.
  - destruct IH as [before IH]. unfold join in *.
    destruct (parts ++ [last])%list eqn:E.
    + destruct parts; discriminate.
    + rewrite IH. exists (p ++ sep ++ before)%string.
      now rewrite !append_assoc.
Qed.

(** C3. [formatOutput] is a function of the result alone.  On success it
    returns [stdout], or the fixed, non-empty placeholder when [stdout] is
    empty.  On failure it joins with line feeds at most three parts: the
    error line only when [stderr] is not empty, the output line only when
    [stdout] is not empty, and always, last, the line of the exit code; so
    the text of a failure is never empty. *)
Theorem formatOutput_text :
  forall r : CommandResult,
    placeholder <> EmptyString
    /\ formatOutput r
       = (if success r
          then match stdout r with
               | EmptyString => placeholder
               | out => out
               end
          else join LF (error_line r ++ output_line r ++ [exit_code_line r]))
    /\ (1 <= List.length (error_line r ++ output_line r ++ [exit_code_line r])
        <= 3)%nat
    /\ (if success r then True
        else exists before,
            formatOutput r
            = (before ++ "Exit code: " ++ String_of_number (exitCode r))%string)
    /\ formatOutput r <> EmptyString.
Proof.
  intros r.
  assert (Hfmt : formatOutput r
       = (if success r
          then match stdout r with
               | EmptyString => placeholder
               | out => out
               end
          else join LF (error_line r ++ output_line r ++ [exit_code_line r]))).
  { unfold formatOutput, error_line, output_line, exit_code_line, placeholder.
    rewrite !truthy_string_empty.
    destruct (success r), (stdout r), (stderr r); reflexivity. }
  assert (Hlast : success r = false -> exists before,
            formatOutput r
            = (before ++ "Exit code: " ++ String_of_number (exitCode r))%string).
  { intros Hs. rewrite Hfmt, Hs, app_assoc.
    apply (join_last LF (error_line r ++ output_line r) (exit_code_line r)). }
  split; [discriminate|]. split; [exact Hfmt|]. split; [|split].
  - unfold error_line, output_line.
    destruct (stderr r), (stdout r); simpl; lia.
  - destruct (success r); [exact I|]. now apply Hlast.
  - destruct (success r) eqn:Hs.
    + rewrite Hfmt. destruct (stdout r); discriminate.
    + destruct (Hlast eq_refl) as [before ->].
      apply append_not_empty. discriminate.
Qed.

(** The two results of the specification. *)
Example formatOutput_success_without_output :
  formatOutput {| success := true; stdout := EmptyString;
                  stderr := EmptyString; exitCode := 0 |}
  = "Command completed successfully.".
Proof. reflexivity. Qed.

Example formatOutput_failure_without_output :
  formatOutput {| success := false; stdout := EmptyString;
                  stderr := EmptyString; exitCode := 2 |}
  = "Exit code: 2".
Proof. reflexivity. Qed.

Example formatOutput_failure_with_both :
  formatOutput {| success := false; stdout := "partial";
                  stderr := "reverted"; exitCode := 1 |}
  = ("Error: reverted" ++ LF ++ "Output: partial" ++ LF ++ "Exit code: 1"
    )%string.
Proof. reflexivity. Qed.

(** ** RPC bridge *)

Section BridgeFacts.
Context {World : Type} (ops : world_ops World).

(** One call is one [fetch]: its completion is decided by the answer,
    the registry is left alone, and one event is logged. *)
Lemma jsonRpcCall_run url method params (s : state World) :
  jsonRpcCall ops url method params s
  = (rpc_outcome (fst (fetch _ ops (rpc_request url method params) (world s))),
     {| world := snd (fetch _ ops (rpc_request url method params) (world s));
        anvilInstances := anvilInstances s;
        trace := trace s
                 ++ [Fetched (rpc_request url method params)
                             (fst (fetch _ ops (rpc_request url method params)
                                         (world s)))] |}).
Proof.
  unfold jsonRpcCall, bind, do_fetch, perform, settle, rpc_outcome.
  destruct (fetch _ ops _ (world s)) as [[[data|e]|e] w']; simpl;
    try reflexivity.
  destruct (rpc_decode data); reflexivity.
Qed.

Lemma rpc_body_text method params :
  JSON_stringify (rpc_body method params)
  = ("{" ++ quote "jsonrpc" ++ ":" ++ quote "2.0" ++ ","
     ++ quote "id" ++ ":1,"
     ++ quote "method" ++ ":" ++ quote method ++ ","
     ++ quote "params" ++ ":[" ++ join "," (map JSON_stringify params)
     ++ "]}")%string.
Proof.
  unfold rpc_body. cbn [JSON_stringify map]. 
  change (Object_entries _) with
    [("jsonrpc", quote "2.0"); ("id", String_of_number 1);
     ("method", quote method);
     ("params", ("[" ++ join "," (map JSON_stringify params) ++ "]")%string)].
  cbn [map join String.concat fst snd].
  rewrite !append_assoc. reflexivity.
Qed.

End BridgeFacts.

(** C8. A call of [jsonRpcCall] issues exactly one request, a POST whose
    body is the JSON text of [{jsonrpc: "2.0", id: 1, method, params}];
    when the parsed body has a [result] field (and no error, or a falsy
    one) the call returns exactly that value; when it has an [error]
    object with a [message] string the call fails, as a thrown [Error]
    whose message is exactly that string. *)
Theorem jsonRpcCall_bridge :
  forall (World : Type) (ops : world_ops World)
         (url method : string) (params : list json) (s : state World),
    let request := rpc_request url method params in
    let answer := fst (fetch _ ops request (world s)) in
    let run := jsonRpcCall ops url method params s in
    (http_method request = "POST"
     /\ Runtime.url request = url
     /\ body request
        = ("{" ++ quote "jsonrpc" ++ ":" ++ quote "2.0" ++ ","
           ++ quote "id" ++ ":1,"
           ++ quote "method" ++ ":" ++ quote method ++ ","
           ++ quote "params" ++ ":[" ++ join "," (map JSON_stringify params)
           ++ "]}")%string)
    /\ (trace (snd run) = (trace s ++ [Fetched request answer])%list
        /\ anvilInstances (snd run) = anvilInstances s)
    /\ (forall fields v,
          answer = Normal (Normal (JObject fields)) ->
          truthy_opt (get fields "error") = false ->
          get fields "result" = Some v ->
          fst run = Normal (Some v))
    /\ (forall fields error_fields message,
          answer = Normal (Normal (JObject fields)) ->
          get fields "error" = Some (JObject error_fields) ->
          get error_fields "message" = Some (JString message) ->
          fst run = Abrupt (ThrownError message)).
Proof.
  intros World ops url method params s request answer run.
  subst run. rewrite jsonRpcCall_run. fold request. fold answer. simpl.
  split; [|split; [|split]].
  - split; [reflexivity|]. split; [reflexivity|]. apply rpc_body_text.
  - split; reflexivity.
  - intros fields v Ha Herr Hres. rewrite Ha. simpl.
    unfold rpc_decode. simpl. rewrite Herr, Hres. reflexivity.
  - intros fields efields message Ha Herr Hmsg. rewrite Ha. simpl.
    unfold rpc_decode. simpl. rewrite Herr. simpl. rewrite Hmsg. reflexivity.
Qed.

(** The two bodies of the specification: a result ["0x1"], and an error
    whose message is ["boom"]. *)
Lemma jsonRpcCall_bridge_witness :
  fst (jsonRpcCall Scenario.scripted "http://127.0.0.1:8545" "eth_chainId" []
         (initial (Scenario.answering
            [Normal (Normal (JObject [("jsonrpc", JString "2.0");
                                      ("id", JNumber 1);
                                      ("result", JString "0x1")]))])))
  = Normal (Some (JString "0x1"))
  /\ fst (jsonRpcCall Scenario.scripted "http://127.0.0.1:8545" "eth_chainId" []
            (initial (Scenario.answering
               [Normal (Normal (JObject
                  [("jsonrpc", JString "2.0"); ("id", JNumber 1);
                   ("error", JObject [("code", JNumber (-32601));
                                      ("message", JString "boom")])]))])))
     = Abrupt (ThrownError "boom").
Proof.
  split.
  - exact (proj1 (proj2 (proj2 (jsonRpcCall_bridge _ Scenario.scripted
             "http://127.0.0.1:8545" "eth_chainId" []
             (initial (Scenario.answering
                [Normal (Normal (JObject [("jsonrpc", JString "2.0");
                                          ("id", JNumber 1);
                                          ("result", JString "0x1")]))])))))
             _ (JString "0x1") eq_refl eq_refl eq_refl).
  - exact (proj2 (proj2 (proj2 (jsonRpcCall_bridge _ Scenario.scripted
             "http://127.0.0.1:8545" "eth_chainId" []
             (initial (Scenario.answering
                [Normal (Normal (JObject
                   [("jsonrpc", JString "2.0"); ("id", JNumber 1);
                    ("error", JObject [("code", JNumber (-32601));
                                       ("message", JString "boom")])]))])))))
             _ _ "boom" eq_refl eq_refl eq_refl).
Defined.

(** ** Node registry *)

Section MapFacts.
Implicit Types (m : Map) (p : Z) (i : AnvilInstance).

Lemma Map_get_In m p i : Map_get m p = Some i -> In (p, i) m.
Proof.
  induction m as [|[k w] m IH]; simpl; [discriminate|].
  destruct (Z.eqb_spec k p) as [->|Hne].
  - intros [= ->]. now left.
  - intros H. right. now apply IH.
Qed.

Lemma Map_get_None m p : Map_get m p = None <-> ~ In p (map fst m).
Proof.
  induction m as [|[k w] m IH]; simpl.
  - split; [intros _ []|reflexivity].
  - destruct (Z.eqb_spec k p) as [->|Hne].
    + split; [discriminate|]. intros H. exfalso. apply H. now left.
    + rewrite IH. split.
      * intros H [E|E]; [now apply Hne|now apply H].
      * intros H E. apply H. now right.
Qed.

Lemma Map_delete_keys m p x :
  In x (map fst (Map_delete m p)) -> In x (map fst m).
Proof.
  induction m as [|[k w] m IH]; simpl; [tauto|].
  destruct (k =? p); simpl.
  - now right.
  - intros [E|E]; [now left|right; now apply IH].
Qed.

Lemma Map_delete_ok m p : registry_ok m -> registry_ok (Map_delete m p).
Proof.
  intros [Hnd Hport]. induction m as [|[k w] m IH]; simpl.
  - split; constructor.
  - inversion Hnd as [|? ? Hk Hnd']; subst.
    inversion Hport as [|? ? Hw Hport']; subst.
    destruct (k =? p).
    + split; assumption.
    + destruct (IH Hnd' Hport') as [IH1 IH2]. split.
      * simpl. constructor; [|exact IH1].
        intros Hin. apply Hk. eapply Map_delete_keys, Hin.
      * constructor; assumption.
Qed.

Lemma Map_delete_absent m p :
  NoDup (map fst m) -> Map_get (Map_delete m p) p = None.
Proof.
  induction m as [|[k w] m IH]; simpl; intros Hnd; [reflexivity|].
  inversion Hnd as [|? ? Hk Hnd']; subst.
  destruct (Z.eqb_spec k p) as [->|Hne].
  - now apply Map_get_None.
  - simpl. destruct (Z.eqb_spec k p); [contradiction|]. now apply IH.
Qed.

Lemma Map_delete_other m p q :
  q <> p -> Map_get (Map_delete m p) q = Map_get m q.
Proof.
  intros Hne. induction m as [|[k w] m IH]; simpl; [reflexivity|].
  destruct (Z.eqb_spec k p) as [->|Hkp]; simpl.
  - destruct (Z.eqb_spec p q); [congruence|reflexivity].
  - now rewrite IH.
Qed.


Lemma Map_set_keys m p i x :
  In x (map fst (Map_set m p i)) -> x = p \/ In x (map fst m).
Proof.
  induction m as [|[k w] m IH]; simpl.
  - intros [E|[]]. now left.
  - destruct (Z.eqb_spec k p) as [->|Hne]; simpl.
    + intros [E|E]; right; [now left|now right].
    + intros [E|E]; [right; now left|].
      destruct (IH E) as [E'|E']; [now left|right; now right].
Qed.

Lemma Map_set_ok m p i :
  port i = p -> registry_ok m -> registry_ok (Map_set m p i).
Proof.
  intros Hp [Hnd Hport]. induction m as [|[k w] m IH]; simpl.
  - split; repeat constructor; [intros []|exact Hp].
  - inversion Hnd as [|? ? Hk Hnd']; subst.
    inversion Hport as [|? ? Hw Hport']; subst.
    destruct (Z.eqb_spec k (port i)) as [->|Hne].
    + split; [exact Hnd|]. constructor; [reflexivity|exact Hport'].
    + destruct (IH Hnd' Hport') as [IH1 IH2]. split.
      * simpl. constructor; [|exact IH1].
        intros Hin. apply Map_set_keys in Hin. destruct Hin; auto.
      * constructor; assumption.
Qed.

Lemma Map_set_get m p i : Map_get (Map_set m p i) p = Some i.
Proof.
  induction m as [|[k w] m IH]; simpl.
  - now rewrite Z.eqb_refl.
  - destruct (Z.eqb_spec k p) as [->|Hne]; simpl.
    + now rewrite Z.eqb_refl.
    + destruct (Z.eqb_spec k p); [contradiction|exact IH].
Qed.

Lemma tracked_on_absent m p :
  Forall (fun e => port (snd e) = fst e) m ->
  ~ In p (map fst m) ->
  tracked_on m p = [].
Proof.
  unfold tracked_on.
  induction m as [|[k w] m IH]; simpl; intros Hport Hin; [reflexivity|].
  inversion Hport as [|? ? Hw Hport']; subst. simpl in Hw.
  rewrite Hw, orb_diag.
  destruct (Z.eqb_spec k p) as [E|Hne].
  - exfalso. apply Hin. left. exact E.
  - apply IH; [exact Hport'|]. intros H. apply Hin. now right.
Qed.

(** Under the invariant a port has at most one tracked instance. *)
Lemma registry_ok_unique m p :
  registry_ok m -> (List.length (tracked_on m p) <= 1)%nat.
Proof.
  intros [Hnd Hport].
  induction m as [|[k w] m IH]; [simpl; lia|].
  inversion Hnd as [|? ? Hk Hnd']; subst.
  inversion Hport as [|? ? Hw Hport']; subst. simpl in Hw.
  specialize (IH Hnd' Hport').
  pose proof (tracked_on_absent m k Hport' Hk) as Hnone.
  unfold tracked_on in *. simpl. rewrite Hw, orb_diag.
  destruct (Z.eqb_spec k p) as [E|Hne]; [|exact IH].
  rewrite E in Hnone. simpl. rewrite Hnone. simpl. lia.
Qed.

End MapFacts.

(** *** Handlers keep the invariant *)

Section Keeps.
Context {World : Type} (ops : world_ops World) (I : Map -> Prop).

Lemma keeps_ret {A} (a : A) : keeps I (@ret World A a).
Proof. intros s H. exact H. Qed.

Lemma keeps_throw {A} e : keeps I (@throw World A e).
Proof. intros s H. exact H. Qed.

Lemma keeps_bind {A B} (m : @M World A) (k : A -> @M World B) :
  keeps I m -> (forall a, keeps I (k a)) -> keeps I (bind m k).
Proof.
  intros Hm Hk s H. unfold bind. specialize (Hm s H).
  destruct (m s) as [[a|e] s']; simpl in *; [now apply Hk|exact Hm].
Qed.

Lemma keeps_try_catch {A} (m : @M World A) (h : thrown -> @M World A) :
  keeps I m -> (forall e, keeps I (h e)) -> keeps I (try_catch m h).
Proof.
  intros Hm Hh s H. unfold try_catch. specialize (Hm s H).
  destruct (m s) as [[a|e] s']; simpl in *; [exact Hm|now apply Hh].
Qed.

Lemma keeps_perform {A} ask log : keeps I (@perform World A ask log).
Proof.
  intros s H. unfold perform. destruct (ask (world s)). exact H.
Qed.

Lemma keeps_perform_ {A} ask log : keeps I (@perform_ World A ask log).
Proof.
  intros s H. unfold perform_. destruct (ask (world s)). exact H.
Qed.

Lemma keeps_get_instances : keeps I (@get_instances World).
Proof. intros s H. exact H. Qed.

Lemma keeps_settle {A} (c : completion A) : keeps I (@settle World A c).
Proof. destruct c; intros s H; exact H. Qed.

Lemma keeps_jsonRpcCall url method params :
  keeps I (jsonRpcCall ops url method params).
Proof. intros s H. rewrite jsonRpcCall_run. exact H. Qed.

End Keeps.

#[local] Hint Resolve keeps_ret keeps_throw keeps_perform keeps_perform_
  keeps_get_instances keeps_settle keeps_jsonRpcCall : keeps.

Section LifecycleKeeps.
Context {World : Type} (ops : world_ops World).

Lemma keeps_delete_instance p :
  keeps registry_ok (@delete_instance World p).
Proof. intros s H. simpl. now apply Map_delete_ok. Qed.

Lemma keeps_set_instance p i :
  port i = p -> keeps registry_ok (@set_instance World p i).
Proof. intros Hp s H. simpl. now apply Map_set_ok. Qed.

Hint Resolve keeps_delete_instance keeps_set_instance : keeps.

Ltac keeps_step :=
  first [ solve [auto with keeps]
        | apply keeps_set_instance; reflexivity
        | apply keeps_bind; [|intro]
        | apply keeps_try_catch; [|intro]
        | unfold spawn, sleep, proc_kill, kill ].

Lemma keeps_anvil_start port options :
  keeps registry_ok (anvil_start ops port options).
Proof.
  unfold anvil_start. apply keeps_bind; [auto with keeps|intros m].
  destruct (Map_has m (default_port port)); [auto with keeps|].
  repeat keeps_step.
Qed.

Lemma keeps_anvil_stop port : keeps registry_ok (anvil_stop ops port).
Proof.
  unfold anvil_stop. apply keeps_bind; [auto with keeps|intros m].
  destruct (Map_get m (default_port port)); [|auto with keeps].
  repeat keeps_step.
Qed.

Lemma keeps_status_loop entries :
  forall statuses, keeps registry_ok (status_loop ops entries statuses).
Proof.
  induction entries as [|[p i] entries IH]; intros statuses; simpl.
  - auto with keeps.
  - apply keeps_bind; [|intro; apply IH]. repeat keeps_step.
Qed.

Lemma keeps_anvil_status port : keeps registry_ok (anvil_status ops port).
Proof.
  assert (Hall : keeps registry_ok (anvil_status_all ops)).
  { unfold anvil_status_all. apply keeps_bind; [auto with keeps|intros m].
    destruct (Map_size m =? 0); [auto with keeps|].
    apply keeps_bind; [apply keeps_status_loop|auto with keeps]. }
  unfold anvil_status. destruct port as [p|]; [|exact Hall].
  destruct (negb (p =? 0)); [|exact Hall].
  unfold anvil_status_port. apply keeps_bind; [auto with keeps|intros m].
  destruct (Map_get m p); repeat keeps_step.
Qed.

Lemma keeps_serve op : keeps registry_ok (serve ops op).
Proof.
  destruct op; simpl;
    [apply keeps_anvil_start|apply keeps_anvil_stop|apply keeps_anvil_status].
Qed.

(** The invariant holds in every state reached from one where it holds;
    by induction on the requests, from the last one. *)
Lemma serve_all_ok requests :
  forall s, registry_ok (anvilInstances s) ->
            registry_ok (anvilInstances (serve_all ops requests s)).
Proof.
  induction requests as [|op requests IH]; intros s H; simpl.
  - exact H.
  - apply IH. now apply keeps_serve.
Qed.

Lemma initial_ok (w : World) : registry_ok (anvilInstances (initial w)).
Proof. split; constructor. Qed.

(** The branch of [anvil_start] taken on a tracked port. *)
Lemma anvil_start_tracked port options (s : state World) :
  Map_has (anvilInstances s) (default_port port) = true ->
  anvil_start ops port options s
  = (Normal (textContent ("Anvil is already running on port "
                          ++ String_of_number (default_port port))), s).
Proof.
  intros H. unfold anvil_start, bind, get_instances, ret. simpl.
  rewrite H. reflexivity.
Qed.

End LifecycleKeeps.

(** C4. Started on a port the registry already tracks, [anvil_start]
    answers that Anvil is already running and leaves the whole state as it
    was: no process spawned, no effect logged, the registry untouched.  And
    in the state reached from start-up by any sequence of start, stop and
    status requests, every port has at most one tracked instance. *)
Theorem anvil_start_idempotent :
  forall (World : Type) (ops : world_ops World),
    (forall (port : option Z) (options : object value) (s : state World),
        Map_has (anvilInstances s) (default_port port) = true ->
        anvil_start ops port options s
        = (Normal (textContent ("Anvil is already running on port "
                                ++ String_of_number (default_port port))), s))
    /\ (forall (requests : list operation) (w : World) (p : Z),
           (List.length
              (tracked_on (anvilInstances (serve_all ops requests (initial w)))
                          p) <= 1)%nat).
Proof.
  intros World ops. split.
  - apply anvil_start_tracked.
  - intros requests w p. apply registry_ok_unique, serve_all_ok, initial_ok.
Qed.

(** Anvil tracked on 8545: a second start changes nothing; and two starts
    in a row from start-up leave one entry. *)
Lemma anvil_start_idempotent_witness :
  Map_has (anvilInstances (Scenario.tracking_8545 (Scenario.answering [])))
          8545 = true
  /\ anvil_start Scenario.scripted None [("silent", VBoolean true)]
                 (Scenario.tracking_8545 (Scenario.answering []))
     = (Normal (textContent "Anvil is already running on port 8545"),
        Scenario.tracking_8545 (Scenario.answering []))
  /\ List.length
       (tracked_on
          (anvilInstances
             (serve_all Scenario.scripted [Start None []; Start (Some 8545) []]
                (initial (Scenario.answering [Scenario.chain_id_reply]))))
          8545) = 1%nat.
Proof.
  split; [reflexivity|]. split; [|reflexivity].
  exact (proj1 (anvil_start_idempotent _ Scenario.scripted)
               None [("silent", VBoolean true)]
               (Scenario.tracking_8545 (Scenario.answering [])) eq_refl).
Defined.

(** *** Start-up *)

(** C5. When the port is not tracked, the node process is spawned and the
    probe sent after the warm-up delay fails (the request is refused, the
    body is not JSON, or it carries an error), [anvil_start] kills the
    process it spawned, reports the failure, and leaves the registry as it
    was: nothing is inserted. *)
Theorem anvil_start_probe_failure :
  forall (World : Type) (ops : world_ops World)
         (port : option Z) (options : object value) (s : state World)
         (proc : Z) (w1 : World) (error : thrown),
    let p := default_port port in
    let waited := setTimeout _ ops 1000 w1 in
    let answer := fst (fetch _ ops (probe p) waited) in
    Map_has (anvilInstances s) p = false ->
    Bun_spawn _ ops (anvil_argv p options) default_options (world s)
    = (Normal proc, w1) ->
    rpc_outcome answer = Abrupt error ->
    anvil_start ops port options s
    = (Normal (textContent ("Failed to start Anvil on port "
                            ++ String_of_number p
                            ++ ". Check if the port is available.")),
       {| world := subprocess_kill _ ops proc
                     (snd (fetch _ ops (probe p) waited));
          anvilInstances := anvilInstances s;
          trace := trace s
                   ++ [Spawned (anvil_argv p options) default_options
                               (Normal proc);
                       Slept 1000;
                       Fetched (probe p) answer;
                       SubprocessKilled proc] |}).
Proof.
  intros World ops port options s proc w1 error p waited answer Hnew Hspawn Hfail.
  unfold anvil_start. fold p.
  unfold bind at 1. unfold get_instances. rewrite Hnew.
  unfold bind at 1. unfold spawn, perform.
  change ("anvil" :: buildArgs (spread [("port", VNumber p)] options))
    with (anvil_argv p options).
  change {| cwd := None; env := None |} with default_options.
  rewrite Hspawn.
  unfold bind at 1. unfold sleep, perform_. simpl world. simpl anvilInstances.
  simpl trace.
  unfold try_catch, bind at 1. rewrite jsonRpcCall_run.
  fold (probe p). simpl world. fold waited. fold answer. rewrite Hfail.
  unfold bind, proc_kill, perform_, ret. simpl.
  rewrite <- !app_assoc. reflexivity.
Qed.

(** Nothing listens on 8545: the spawned process 4242 is killed and the
    registry stays empty. *)
Lemma anvil_start_probe_failure_witness :
  anvil_start Scenario.scripted None [] (initial (Scenario.answering []))
  = (Normal (textContent
       "Failed to start Anvil on port 8545. Check if the port is available."),
     {| world := snd (fetch _ Scenario.scripted (probe 8545)
                        (setTimeout _ Scenario.scripted 1000
                           (snd (Bun_spawn _ Scenario.scripted
                                   (anvil_argv 8545 []) default_options
                                   (Scenario.answering [])))));
        anvilInstances := [];
        trace := [Spawned ["anvil"; "--port"; "8545"] default_options
                          (Normal 4242);
                  Slept 1000;
                  Fetched (probe 8545) (Abrupt Scenario.connection_refused);
                  SubprocessKilled 4242] |}).
Proof.
  exact (anvil_start_probe_failure _ Scenario.scripted None []
           (initial (Scenario.answering [])) 4242 _
           Scenario.connection_refused eq_refl eq_refl eq_refl).
Defined.

(** *** Stop *)

(** C7. On a tracked port, [anvil_stop] sends SIGTERM to the tracked pid
    and removes the entry whether the signal was delivered or the attempt
    threw; under the registry invariant the port is then untracked.  On an
    untracked port it reports that no instance is tracked, completes
    normally, and leaves the whole state unchanged. *)
Theorem anvil_stop_removes :
  forall (World : Type) (ops : world_ops World)
         (port : option Z) (s : state World),
    let p := default_port port in
    (forall instance : AnvilInstance,
        Map_get (anvilInstances s) p = Some instance ->
        let signalled := process_kill _ ops (pid instance) "SIGTERM" (world s) in
        anvil_stop ops port s
        = (Normal (textContent (stop_report p (fst signalled))),
           {| world := snd signalled;
              anvilInstances := Map_delete (anvilInstances s) p;
              trace := trace s ++ [ProcessKilled (pid instance) "SIGTERM"
                                                 (fst signalled)] |})
        /\ (registry_ok (anvilInstances s) ->
            Map_has (anvilInstances (snd (anvil_stop ops port s))) p = false))
    /\ (Map_get (anvilInstances s) p = None ->
        anvil_stop ops port s
        = (Normal (textContent ("No Anvil instance tracked on port "
                                ++ String_of_number p)), s)).
Proof.
  intros World ops port s p. split.
  - intros instance Hget signalled.
    assert (Hrun : anvil_stop ops port s
        = (Normal (textContent (stop_report p (fst signalled))),
           {| world := snd signalled;
              anvilInstances := Map_delete (anvilInstances s) p;
              trace := trace s ++ [ProcessKilled (pid instance) "SIGTERM"
                                                 (fst signalled)] |})).
    { unfold anvil_stop. fold p. unfold bind at 1. unfold get_instances.
      rewrite Hget. unfold try_catch, bind, kill, perform, delete_instance,
        bind, get_instances, put_instances, ret. fold signalled.
      destruct signalled as [[[]|e] w1]; reflexivity. }
    split; [exact Hrun|].
    intros [Hnd _]. rewrite Hrun. simpl. unfold Map_has.
    now rewrite Map_delete_absent.
  - intros Hget. unfold anvil_stop. fold p. unfold bind, get_instances.
    rewrite Hget. reflexivity.
Qed.

(** The tracked process is gone already: the signal fails, the entry is
    removed all the same; a second stop finds nothing tracked. *)
Lemma anvil_stop_removes_witness :
  (anvil_stop Scenario.scripted None
              (Scenario.tracking_8545 Scenario.process_gone)
   = (Normal (textContent
        "Error stopping Anvil: kill() failed: ESRCH: No such process"),
      {| world := Scenario.process_gone;
         anvilInstances := [];
         trace := [ProcessKilled 4242 "SIGTERM"
                     (Abrupt (ThrownError
                        "kill() failed: ESRCH: No such process"))] |})
   /\ Map_has (anvilInstances
                 (snd (anvil_stop Scenario.scripted None
                         (Scenario.tracking_8545 Scenario.process_gone))))
              8545 = false)
  /\ anvil_stop Scenario.scripted None (initial Scenario.process_gone)
     = (Normal (textContent "No Anvil instance tracked on port 8545"),
        initial Scenario.process_gone).
Proof.
  split.
  - destruct (proj1 (anvil_stop_removes _ Scenario.scripted None
                       (Scenario.tracking_8545 Scenario.process_gone))
                    {| port := 8545; pid := 4242; forkUrl := None |} eq_refl)
      as [Hrun Hgone].
    split; [exact Hrun|]. apply Hgone.
    split; repeat constructor. intros [].
  - exact (proj2 (anvil_stop_removes _ Scenario.scripted None
                    (initial Scenario.process_gone))
                 eq_refl).
Defined.

(** *** Status *)

Section StatusFacts.
Context {World : Type} (ops : world_ops World).




End StatusFacts.



(** ** Node control: how numbers reach the RPC bridge *)

Section Digits.
Import Decimal.

Lemma digits_value_decimal d :
  forall acc,
    digits_value 10 (DecimalString.NilEmpty.string_of_uint d) acc
    = Some (uint_value d acc).
Proof.
  induction d; intros acc; simpl; try reflexivity; apply IHd.
Qed.

Lemma of_uint_acc_value d :
  forall acc, Npos (Pos.of_uint_acc d acc) = uint_value d (Npos acc).
Proof.
  induction d; intros acc; cbn [Pos.of_uint_acc uint_value];
    try reflexivity; rewrite IHd; f_equal; lia.
Qed.

Lemma of_uint_value d : N.of_uint d = uint_value d 0.
Proof.
  unfold N.of_uint.
  induction d; cbn [Pos.of_uint uint_value]; try reflexivity;
    try exact IHd; apply of_uint_acc_value.
Qed.

Lemma trimEnd_decimal d :
  trimEnd (DecimalString.NilEmpty.string_of_uint d)
  = DecimalString.NilEmpty.string_of_uint d.
Proof.
  induction d; simpl; try reflexivity; rewrite IHd;
    destruct (DecimalString.NilEmpty.string_of_uint d); reflexivity.
Qed.

Lemma trim_decimal d :
  trim (DecimalString.NilEmpty.string_of_uint d)
  = DecimalString.NilEmpty.string_of_uint d.
Proof.
  unfold trim.
  replace (trimStart (DecimalString.NilEmpty.string_of_uint d))
    with (DecimalString.NilEmpty.string_of_uint d)
    by (destruct d; reflexivity).
  apply trimEnd_decimal.
Qed.
End Digits.

Lemma trimStart_decimal d :
  trimStart (DecimalString.NilEmpty.string_of_uint d)
  = DecimalString.NilEmpty.string_of_uint d.
Proof. destruct d; reflexivity. Qed.

(** Skipping the leading zeros of a numeral leaves a numeral of the same
    value. *)
Lemma skip_zeros_decimal d :
  exists d',
    skip_zeros (DecimalString.NilEmpty.string_of_uint d)
    = DecimalString.NilEmpty.string_of_uint d'
    /\ uint_value d' 0 = uint_value d 0.
Proof.
  induction d as [|d IH|d IH|d IH|d IH|d IH|d IH|d IH|d IH|d IH|d IH].
  - now exists Decimal.Nil.
  - destruct IH as (d' & Hskip & Hvalue). exists d'. split; assumption.
  - now exists (Decimal.D1 d).
  - now exists (Decimal.D2 d).
  - now exists (Decimal.D3 d).
  - now exists (Decimal.D4 d).
  - now exists (Decimal.D5 d).
  - now exists (Decimal.D6 d).
  - now exists (Decimal.D7 d).
  - now exists (Decimal.D8 d).
  - now exists (Decimal.D9 d).
Qed.

Lemma digits_decimal d :
  d <> Decimal.Nil ->
  digits 10 true (DecimalString.NilEmpty.string_of_uint d)
  = Some (Z.of_N (N.of_uint d)).
Proof.
  intros Hd. unfold digits. cbn [negb andb].
  destruct (skip_zeros_decimal d) as (d' & -> & Hvalue).
  now rewrite trimEnd_decimal, digits_value_decimal, of_uint_value, Hvalue.
Qed.

Lemma StringToBigInt_decimal d :
  d <> Decimal.Nil ->
  StringToBigInt (DecimalString.NilEmpty.string_of_uint d)
  = Some (Z.of_N (N.of_uint d)).
Proof.
  intros Hd. unfold StringToBigInt. rewrite trimStart_decimal.
  destruct d as [|d|d|d|d|d|d|d|d|d|d]; [contradiction|..];
    destruct d as [|d|d|d|d|d|d|d|d|d|d];
    lazymatch goal with
    | |- _ = Some (Z.of_N (N.of_uint ?x)) => exact (digits_decimal x Hd)
    end.
Qed.

Lemma startsWith_decimal d :
  startsWith (DecimalString.NilEmpty.string_of_uint d) "0x" = false.
Proof.
  destruct d as [|d|d|d|d|d|d|d|d|d|d]; try reflexivity.
  destruct d; reflexivity.
Qed.

Lemma String_of_number_N (n : N) :
  exists d, String_of_number (Z.of_N n) = DecimalString.NilEmpty.string_of_uint d
            /\ d <> Decimal.Nil /\ N.of_uint d = n.
Proof.
  unfold String_of_number. destruct n as [|p]; simpl.
  - exists (Decimal.D0 Decimal.Nil). repeat split. discriminate.
  - exists (Pos.to_uint p). split; [|split].
    + unfold DecimalString.NilZero.string_of_uint.
      pose proof (DecimalPos.Unsigned.to_uint_nonnil p) as H.
      destruct (Pos.to_uint p); [contradiction|reflexivity..].
    + apply DecimalPos.Unsigned.to_uint_nonnil.
    + apply (DecimalN.Unsigned.of_to (Npos p)).
Qed.

Lemma hex_value_toString16 (n : N) : hex_value (toString16 n) = Some n.
Proof.
  unfold hex_value, toString16.
  rewrite HexadecimalString.NilZero.usu.
  - simpl. now rewrite HexadecimalN.Unsigned.of_to.
  - destruct n; [discriminate|]. simpl. apply HexadecimalPos.Unsigned.to_uint_nonnil.
Qed.

Section ControlFacts.
Context {World : Type} (ops : world_ops World) (context : ToolContext).

(** A handler made of one bridge call logs that call and nothing else. *)
Lemma one_call_trace url method params
      (done : option json -> @M World tool_result)
      (failed : thrown -> @M World tool_result) (s : state World) :
  (forall v s', trace (snd (done v s')) = trace s') ->
  (forall e s', trace (snd (failed e s')) = trace s') ->
  trace (snd (try_catch (bind (jsonRpcCall ops url method params) done)
                        failed s))
  = (trace s
     ++ [Fetched (rpc_request url method params)
                 (fst (fetch _ ops (rpc_request url method params)
                             (world s)))])%list.
Proof.
  intros Hdone Hfailed. unfold try_catch, bind. rewrite jsonRpcCall_run.
  destruct (rpc_outcome _) as [v|e].
  - match goal with
    | |- context [done v ?st] =>
        pose proof (Hdone v st) as H; destruct (done v st) as [[r|e] s']
    end; simpl in *.
    + exact H.
    + rewrite Hfailed. exact H.
  - rewrite Hfailed. reflexivity.
Qed.

Lemma number_toString16_N (n : N) :
  hex_quantity (Z.of_N n) = ("0x" ++ toString16 n)%string.
Proof.
  unfold hex_quantity, number_toString16.
  replace (Z.of_N n <? 0) with false by (symmetry; apply Z.ltb_ge; lia).
  now rewrite N2Z.id.
Qed.

Lemma mine_params_hex (blocks : N) (interval : option N) :
  mine_params (Z.of_N blocks) (option_map Z.of_N interval)
  = hex_params blocks interval.
Proof.
  unfold mine_params, hex_params. destruct interval as [i|]; simpl.
  - rewrite !number_toString16_N.
    destruct (N.eqb_spec i 0) as [->|Hi]; [reflexivity|].
    replace (Z.of_N i =? 0) with false; [reflexivity|].
    symmetry. apply Z.eqb_neq. lia.
  - now rewrite number_toString16_N.
Qed.

Lemma hexBalance_of_decimal (n : N) :
  hexBalance_of (String_of_number (Z.of_N n))
  = Normal ("0x" ++ toString16 n)%string.
Proof.
  destruct (String_of_number_N n) as (d & -> & Hd & Hn).
  unfold hexBalance_of.
  rewrite startsWith_decimal, (StringToBigInt_decimal d Hd), Hn.
  now rewrite number_toString16_N.
Qed.

End ControlFacts.

(** C9, as amended.  [anvil_mine] passes the block count, and the
    interval when one is given, as strings of [0x] and the hexadecimal
    digits of the number; [anvil_setBalance] passes a balance that starts
    with [0x] as it is, and a decimal balance as [0x] and the hexadecimal
    digits of its value; the hexadecimal digits denote the number.
    [anvil_setNextBlockTimestamp] and [anvil_increaseTime] pass the
    timestamp and the seconds as the JSON number itself. *)
Theorem node_control_parameters :
  forall (World : Type) (ops : world_ops World) (context : ToolContext)
         (rpcUrl : option string) (s : state World),
    let url := getRpcUrl rpcUrl context None in
    let sent method params :=
      (trace s
       ++ [Fetched (rpc_request url method params)
                   (fst (fetch _ ops (rpc_request url method params)
                               (world s)))])%list in
    (forall (blocks : N) (interval : option N),
        trace (snd (anvil_mine ops context (Some (Z.of_N blocks))
                               (option_map Z.of_N interval) rpcUrl s))
        = sent "anvil_mine" (hex_params blocks interval))
    /\ (forall interval : option N,
           trace (snd (anvil_mine ops context None
                                  (option_map Z.of_N interval) rpcUrl s))
           = sent "anvil_mine" (hex_params 1 interval))
    /\ (forall address balance : string,
           startsWith balance "0x" = true ->
           trace (snd (anvil_setBalance ops context address balance rpcUrl s))
           = sent "anvil_setBalance" [JString address; JString balance])
    /\ (forall (address : string) (wei : N),
           trace (snd (anvil_setBalance ops context address
                                        (String_of_number (Z.of_N wei))
                                        rpcUrl s))
           = sent "anvil_setBalance"
                  [JString address; JString ("0x" ++ toString16 wei)])
    /\ (forall n : N, hex_value (toString16 n) = Some n)
    /\ (forall timestamp : Z,
           trace (snd (anvil_setNextBlockTimestamp ops context timestamp
                                                   rpcUrl s))
           = sent "evm_setNextBlockTimestamp" [JNumber timestamp])
    /\ (forall seconds : Z,
           trace (snd (anvil_increaseTime ops context seconds rpcUrl s))
           = sent "evm_increaseTime" [JNumber seconds]).
Proof.
  intros World ops context rpcUrl s url sent. subst sent. cbv beta.
  repeat split.
  - intros blocks interval. unfold anvil_mine. fold url.
    rewrite <- mine_params_hex. now apply one_call_trace.
  - intros interval. unfold anvil_mine. fold url.
    rewrite <- mine_params_hex. now apply one_call_trace.
  - intros address balance Hprefix. unfold anvil_setBalance. fold url.
    unfold hexBalance_of. rewrite Hprefix. unfold settle.
    unfold try_catch at 1, bind at 1, ret at 1.
    apply (one_call_trace ops url "anvil_setBalance"
             [JString address; JString balance]); reflexivity.
  - intros address wei. unfold anvil_setBalance. fold url.
    rewrite hexBalance_of_decimal. unfold settle.
    unfold try_catch at 1, bind at 1, ret at 1.
    apply (one_call_trace ops url "anvil_setBalance"
             [JString address; JString ("0x" ++ toString16 wei)]);
      reflexivity.
  - apply hex_value_toString16.
  - intros timestamp. unfold anvil_setNextBlockTimestamp. fold url.
    now apply one_call_trace.
  - intros seconds. unfold anvil_increaseTime. fold url.
    now apply one_call_trace.
Qed.

(** One ether, given in hexadecimal and given in decimal, reaches the
    node as the same parameter. *)
Lemma node_control_parameters_witness :
  startsWith "0xde0b6b3a7640000" "0x" = true
  /\ trace (snd (anvil_setBalance Scenario.scripted Scenario.no_context
                   Scenario.account "0xde0b6b3a7640000" None Scenario.idle))
     = Scenario.refused "anvil_setBalance"
         [JString Scenario.account; JString "0xde0b6b3a7640000"]
  /\ trace (snd (anvil_setBalance Scenario.scripted Scenario.no_context
                   Scenario.account "1000000000000000000" None Scenario.idle))
     = Scenario.refused "anvil_setBalance"
         [JString Scenario.account; JString "0xde0b6b3a7640000"].
Proof.
  split; [reflexivity|]. split.
  - exact (proj1 (proj2 (proj2
             (node_control_parameters _ Scenario.scripted Scenario.no_context
                                      None Scenario.idle)))
                 Scenario.account "0xde0b6b3a7640000" eq_refl).
  - exact (proj1 (proj2 (proj2 (proj2
             (node_control_parameters _ Scenario.scripted Scenario.no_context
                                      None Scenario.idle))))
                 Scenario.account 1000000000000000000%N).
Defined.

(** C9 as stated fails for the two time operations: the timestamp
    1700000000 and the 3600 seconds are sent as JSON numbers, in requests
    that differ from the ones carrying their [0x] forms. *)
Lemma time_parameters_not_hex :
  (trace (snd (anvil_setNextBlockTimestamp Scenario.scripted
                 Scenario.no_context 1700000000 None Scenario.idle))
   = Scenario.refused "evm_setNextBlockTimestamp" [JNumber 1700000000]
   /\ hex_quantity 1700000000 = "0x6553f100"
   /\ trace (snd (anvil_setNextBlockTimestamp Scenario.scripted
                    Scenario.no_context 1700000000 None Scenario.idle))
      <> Scenario.refused "evm_setNextBlockTimestamp"
                          [JString (hex_quantity 1700000000)])
  /\ (trace (snd (anvil_increaseTime Scenario.scripted Scenario.no_context
                    3600 None Scenario.idle))
      = Scenario.refused "evm_increaseTime" [JNumber 3600]
      /\ hex_quantity 3600 = "0xe10"
      /\ trace (snd (anvil_increaseTime Scenario.scripted Scenario.no_context
                       3600 None Scenario.idle))
         <> Scenario.refused "evm_increaseTime"
                             [JString (hex_quantity 3600)]).
Proof.
  split; (split; [reflexivity|split; [reflexivity|]]).
  - vm_compute. discriminate.
  - vm_compute. discriminate.
Qed.

(** ** The REPL operations and the shell *)

Section ShellFacts.
Context {World : Type} (ops : world_ops World) (context : ToolContext).

Lemma sh_word_close rest : sh_word true (String SQUOTE rest) = sh_word false rest.
Proof. reflexivity. Qed.

Lemma sh_word_open rest : sh_word false (String SQUOTE rest) = sh_word true rest.
Proof. reflexivity. Qed.

Lemma sh_word_backslash d rest :
  sh_word false (String "\" (String d rest))
  = option_map (String d) (sh_word false rest).
Proof. reflexivity. Qed.

Lemma sh_word_literal c rest :
  c <> SQUOTE ->
  sh_word true (String c rest) = option_map (String c) (sh_word true rest).
Proof.
  intros Hc. cbn [sh_word].
  destruct (Ascii.eqb_spec c SQUOTE); [contradiction|reflexivity].
Qed.

(** Read inside the opening quote, the escaped text followed by the
    closing quote gives back the text. *)
Lemma sh_word_escaped (code : string) :
  sh_word true (escape_single_quotes code ++ String SQUOTE EmptyString)
  = Some code.
Proof.
  induction code as [|c code IH]; [reflexivity|].
  unfold escape_single_quotes in *. cbn [replace_all].
  destruct (Ascii.eqb_spec c SQUOTE) as [->|Hc].
  - change ((quote_idiom ++ replace_all SQUOTE quote_idiom code)
            ++ String SQUOTE EmptyString)%string
      with (String SQUOTE (String "\" (String SQUOTE (String SQUOTE
              (replace_all SQUOTE quote_idiom code
               ++ String SQUOTE EmptyString))))).
    rewrite sh_word_close, sh_word_backslash, sh_word_open, IH.
    reflexivity.
  - cbn [append]. rewrite (sh_word_literal _ _ Hc), IH. reflexivity.
Qed.

Lemma eval_command_text code args :
  eval_command code args
  = ("echo " ++ quoted code ++ " | chisel " ++ join " " args)%string.
Proof.
  unfold eval_command, quoted. f_equal. simpl. f_equal.
  now rewrite append_assoc.
Qed.

Lemma chisel_eval_spawns code forkUrl (s : state World) :
  exists options answer rest,
    trace (snd (chisel_eval ops context code forkUrl s))
    = (trace s
       ++ Spawned ["bash"; "-c";
                   eval_command code (fork_args forkUrl context)]
                  options answer :: rest)%list.
Proof.
  unfold chisel_eval, shell_options, bind, read_world, ret, spawn,
    pipes_text, await_exited, perform. simpl.
  destruct (Bun_spawn _ ops _ _ _) as [[proc|e] w1]; simpl.
  2:{ do 3 eexists; reflexivity. }
  destruct (read_pipes _ ops proc w1) as [[out|e] w2]; simpl.
  2:{ rewrite <- app_assoc. do 3 eexists; reflexivity. }
  destruct (exited _ ops proc w2) as [[code'|e] w3]; simpl.
  2:{ rewrite <- !app_assoc. do 3 eexists; reflexivity. }
  destruct (negb (code' =? 0)); simpl; rewrite <- !app_assoc;
    do 3 eexists; reflexivity.
Qed.

(** [chisel_run] first writes the text, as it is, to the temporary
    file named after the clock; when that succeeds it spawns the shell
    on a command made of the file name and the fork arguments. *)
Lemma chisel_run_spawns code forkUrl (s : state World) :
  let t := fst (Date_now _ ops (world s)) in
  let written := fst (Bun_write _ ops (tmp_file t) code
                                (snd (Date_now _ ops (world s)))) in
  exists rest,
    trace (snd (chisel_run ops context code forkUrl s))
    = (trace s ++ FileWritten (tmp_file t) code written :: rest)%list
    /\ match written with
       | Normal _ =>
           exists options answer rest',
           rest = Spawned ["bash"; "-c";
                           run_command (tmp_file t)
                                       (fork_args forkUrl context)]
                          options answer :: rest'
       | Abrupt _ => rest = []
       end.
Proof.
  intros t written. subst t written.
  unfold chisel_run. unfold bind at 1. unfold now.
  destruct (Date_now _ ops (world s)) as [t w0]; simpl fst; simpl snd.
  unfold bind at 1. unfold write_file at 1, perform at 1. simpl world.
  destruct (Bun_write _ ops (tmp_file t) code w0) as [[[]|e] w1];
    simpl fst.
  2:{ exists []. split; reflexivity. }
  unfold try_finally, cleanup, try_catch, shell_options, bind, read_world,
    ret, spawn, pipes_text, await_exited, file_exists, write_file, perform.
  simpl.
  destruct (Bun_spawn _ ops _ _ w1) as [[proc|e] w2]; simpl.
  2:{ destruct (Bun_file_exists _ ops _ w2) as [[[|]|e'] w3]; simpl;
      [destruct (Bun_write _ ops _ _ w3) as [[[]|e'] w4]; simpl|..];
      rewrite <- ?app_assoc; simpl; eexists; (split; [reflexivity|]);
      do 3 eexists; reflexivity. }
  destruct (read_pipes _ ops proc w2) as [[out|e] w3]; simpl.
  2:{ destruct (Bun_file_exists _ ops _ w3) as [[[|]|e'] w4]; simpl;
      [destruct (Bun_write _ ops _ _ w4) as [[[]|e'] w5]; simpl|..];
      rewrite <- ?app_assoc; simpl; eexists; (split; [reflexivity|]);
      do 3 eexists; reflexivity. }
  destruct (exited _ ops proc w3) as [[code'|e] w4]; simpl.
  2:{ destruct (Bun_file_exists _ ops _ w4) as [[[|]|e'] w5]; simpl;
      [destruct (Bun_write _ ops _ _ w5) as [[[]|e'] w6]; simpl|..];
      rewrite <- ?app_assoc; simpl; eexists; (split; [reflexivity|]);
      do 3 eexists; reflexivity. }
  destruct (negb (code' =? 0) && truthy_string (snd out)); simpl;
    (destruct (Bun_file_exists _ ops _ w4) as [[[|]|e'] w5]; simpl;
     [destruct (Bun_write _ ops _ _ w5) as [[[]|e'] w6]; simpl|..];
     rewrite <- ?app_assoc; simpl; eexists; (split; [reflexivity|]);
     do 3 eexists; reflexivity).
Qed.

End ShellFacts.

Section SpawnFacts.
Context {World : Type} (ops : world_ops World).

Section Logs.
Variable allowed : list string -> spawn_options -> Prop.
Local Abbreviation logs := (logs_only (spawns_only allowed)).

Lemma logs_ret A (a : A) :
  logs_only (spawns_only allowed) (@ret World A a).
Proof.
  intros s. exists []. rewrite app_nil_r. split; [reflexivity|constructor].
Qed.

Lemma logs_throw A error :
  logs_only (spawns_only allowed) (@throw World A error).
Proof.
  intros s. exists []. rewrite app_nil_r. split; [reflexivity|constructor].
Qed.

Lemma logs_bind A B (m : @M World A) (k : A -> @M World B) :
  logs m -> (forall a, logs (k a)) -> logs (bind m k).
Proof.
  intros Hm Hk s. destruct (Hm s) as (e1 & H1 & F1). unfold bind.
  destruct (m s) as [[a|error] s1]; simpl in H1.
  - destruct (Hk a s1) as (e2 & H2 & F2). exists (e1 ++ e2)%list.
    rewrite H2, H1, app_assoc. split; [reflexivity|].
    apply Forall_app. now split.
  - exists e1. now split.
Qed.

Lemma logs_try_catch A (body : @M World A) handler :
  logs body -> (forall error, logs (handler error)) ->
  logs (try_catch body handler).
Proof.
  intros Hm Hk s. destruct (Hm s) as (e1 & H1 & F1). unfold try_catch.
  destruct (body s) as [[a|error] s1]; simpl in H1.
  - exists e1. now split.
  - destruct (Hk error s1) as (e2 & H2 & F2). exists (e1 ++ e2)%list.
    rewrite H2, H1, app_assoc. split; [reflexivity|].
    apply Forall_app. now split.
Qed.

Lemma logs_try_finally A (body : @M World A) cleanup :
  logs body -> logs cleanup -> logs (try_finally body cleanup).
Proof.
  intros Hm Hk s. destruct (Hm s) as (e1 & H1 & F1). unfold try_finally.
  destruct (body s) as [c s1]; simpl in H1.
  destruct (Hk s1) as (e2 & H2 & F2).
  exists (e1 ++ e2)%list.
  destruct (cleanup s1) as [[[]|error] s2]; simpl in H2 |- *;
    rewrite H2, H1, app_assoc; (split; [reflexivity|]);
    apply Forall_app; now split.
Qed.

Lemma logs_perform A ask log :
  (forall answer, spawns_only allowed (log answer)) ->
  logs (@perform World A ask log).
Proof.
  intros Hlog s. unfold perform.
  destruct (ask (world s)) as [answer w']. exists [log answer].
  split; [reflexivity|]. constructor; [apply Hlog|constructor].
Qed.

Lemma logs_perform_ A ask log :
  (forall answer, spawns_only allowed (log answer)) ->
  logs (@perform_ World A ask log).
Proof.
  intros Hlog s. unfold perform_.
  destruct (ask (world s)) as [answer w']. exists [log answer].
  split; [reflexivity|]. constructor; [apply Hlog|constructor].
Qed.

Lemma logs_spawn argv options :
  allowed argv options -> logs (spawn ops argv options).
Proof. intros H. apply logs_perform. intros answer. exact H. Qed.

Lemma logs_pipes_text proc :
  logs_only (spawns_only allowed) (pipes_text ops proc).
Proof. apply logs_perform. intros answer. exact I. Qed.

Lemma logs_await_exited proc :
  logs_only (spawns_only allowed) (await_exited ops proc).
Proof. apply logs_perform. intros answer. exact I. Qed.

Lemma logs_proc_kill proc :
  logs_only (spawns_only allowed) (proc_kill ops proc).
Proof. apply logs_perform_. intros answer. exact I. Qed.

Lemma logs_kill target signal :
  logs_only (spawns_only allowed) (kill ops target signal).
Proof. apply logs_perform. intros answer. exact I. Qed.

Lemma logs_sleep ms :
  logs_only (spawns_only allowed) (sleep ops ms).
Proof. apply logs_perform_. intros answer. exact I. Qed.

Lemma logs_do_fetch request :
  logs_only (spawns_only allowed) (do_fetch ops request).
Proof. apply logs_perform. intros answer. exact I. Qed.

Lemma logs_write_file path text :
  logs_only (spawns_only allowed) (write_file ops path text).
Proof. apply logs_perform. intros answer. exact I. Qed.

Lemma logs_file_exists path :
  logs_only (spawns_only allowed) (file_exists ops path).
Proof. apply logs_perform. intros answer. exact I. Qed.

Lemma logs_stdout_text proc :
  logs_only (spawns_only allowed) (stdout_text ops proc).
Proof. apply logs_perform. intros answer. exact I. Qed.

Lemma logs_file_text path :
  logs_only (spawns_only allowed) (file_text ops path).
Proof. apply logs_perform. intros answer. exact I. Qed.

Lemma logs_now :
  logs_only (spawns_only allowed) (now ops).
Proof.
  intros s. unfold now. destruct (Date_now _ ops (world s)) as [t w'].
  exists []. rewrite app_nil_r. split; [reflexivity|constructor].
Qed.

Lemma logs_read_world A (f : World -> A) :
  logs_only (spawns_only allowed) (read_world f).
Proof.
  intros s. exists []. rewrite app_nil_r. split; [reflexivity|constructor].
Qed.

Lemma logs_current_directory :
  logs_only (spawns_only allowed) (current_directory ops).
Proof.
  intros s. exists []. rewrite app_nil_r. split; [reflexivity|constructor].
Qed.

Lemma logs_get_instances :
  logs_only (spawns_only allowed) (@get_instances World).
Proof.
  intros s. exists []. rewrite app_nil_r. split; [reflexivity|constructor].
Qed.

Lemma logs_put_instances m :
  logs_only (spawns_only allowed) (@put_instances World m).
Proof.
  intros s. exists []. rewrite app_nil_r. split; [reflexivity|constructor].
Qed.

Lemma logs_settle A (c : completion A) :
  logs_only (spawns_only allowed) (@settle World A c).
Proof. destruct c; [apply logs_ret|apply logs_throw]. Qed.

Lemma logs_working_directory cwd :
  logs_only (spawns_only allowed) (working_directory ops cwd).
Proof.
  unfold working_directory.
  destruct cwd as [dir|]; [destruct (truthy_string dir)|];
    first [apply logs_ret|apply logs_current_directory].
Qed.

End Logs.

(** One step of a proof that a handler logs allowed events only; a
    spawn is left to be justified. *)
Ltac logs_step :=
  first
    [ apply logs_ret | apply logs_throw
    | apply logs_pipes_text | apply logs_await_exited | apply logs_proc_kill
    | apply logs_kill | apply logs_sleep | apply logs_do_fetch
    | apply logs_write_file | apply logs_file_exists | apply logs_stdout_text
    | apply logs_file_text | apply logs_now | apply logs_read_world
    | apply logs_current_directory | apply logs_get_instances
    | apply logs_put_instances | apply logs_settle
    | apply logs_working_directory
    | apply logs_spawn
    | apply logs_bind; [|intros ?]
    | apply logs_try_catch; [|intros ?]
    | apply logs_try_finally
    | match goal with
      | |- logs_only _ (if ?b then _ else _) => destruct b
      | |- logs_only _ (match ?x with _ => _ end) => destruct x
      end ].

Lemma logs_jsonRpcCall allowed rpcUrl method params :
  logs_only (spawns_only allowed) (jsonRpcCall ops rpcUrl method params).
Proof. unfold jsonRpcCall. repeat logs_step. Qed.

Lemma logs_delete_instance allowed port :
  logs_only (spawns_only allowed) (@delete_instance World port).
Proof. unfold delete_instance. repeat logs_step. Qed.

Lemma logs_set_instance allowed port instance :
  logs_only (spawns_only allowed) (@set_instance World port instance).
Proof. unfold set_instance. repeat logs_step. Qed.

Lemma logs_exec allowed command args cwd :
  (forall options, allowed (command :: args) options) ->
  logs_only (spawns_only allowed) (exec ops command args cwd).
Proof. intros H. unfold exec. repeat logs_step. apply H. Qed.

Lemma logs_exec_start allowed command args cwd :
  (forall options, allowed (command :: args) options) ->
  logs_only (spawns_only allowed) (Help.exec_start ops command args cwd).
Proof. intros H. unfold Help.exec_start. repeat logs_step. apply H. Qed.

Lemma logs_resume allowed call :
  logs_only (spawns_only allowed) (Help.resume ops call).
Proof. unfold Help.resume. repeat logs_step. Qed.

Lemma logs_resume_nth allowed i calls :
  logs_only (spawns_only allowed) (Help.resume_nth ops i calls).
Proof.
  revert i. induction calls as [|call others IH]; intros i;
    [destruct i; apply logs_ret|].
  destruct i as [|j]; cbn [Help.resume_nth].
  - apply logs_bind; [apply logs_resume|intros; apply logs_ret].
  - apply logs_bind; [apply IH|intros; apply logs_ret].
Qed.

Lemma logs_follow allowed schedule calls :
  logs_only (spawns_only allowed) (Help.follow ops schedule calls).
Proof.
  revert calls. induction schedule as [|i later IH]; intros calls;
    cbn [Help.follow]; [apply logs_ret|].
  apply logs_bind; [apply logs_resume_nth|intros; apply IH].
Qed.

Lemma logs_status_loop allowed entries statuses :
  logs_only (spawns_only allowed) (status_loop ops entries statuses).
Proof.
  revert statuses.
  induction entries as [|[p instance] rest IH]; intros statuses;
    cbn [status_loop]; [apply logs_ret|].
  apply logs_bind; [|intros; apply IH].
  apply logs_try_catch; [|intros ?].
  - apply logs_bind; [apply logs_jsonRpcCall|intros; apply logs_ret].
  - apply logs_bind; [apply logs_delete_instance|intros; apply logs_ret].
Qed.

Lemma logs_listDirectory allowed path :
  allowed ["ls"; "-1"; path] default_options ->
  logs_only (spawns_only allowed) (Project.listDirectory ops path).
Proof. intros H. unfold Project.listDirectory. repeat logs_step. exact H. Qed.

Lemma logs_findSolFiles allowed projectPath fuel dir contracts :
  (forall path, allowed ["ls"; "-1"; path] default_options) ->
  logs_only (spawns_only allowed) (Project.findSolFiles ops projectPath fuel dir contracts).
Proof.
  intros H. revert dir contracts.
  induction fuel as [|fuel IH]; intros dir contracts;
    cbn [Project.findSolFiles]; [apply logs_ret|].
  apply logs_bind; [apply logs_listDirectory, H|intros entries].
  revert contracts. induction entries as [|entry later IHe]; intros contracts;
    [apply logs_ret|].
  destruct (Project.endsWith entry ".sol"); [apply IHe|].
  destruct (negb (includes entry ".")); [|apply IHe].
  apply logs_bind; [apply IH|intros [found|]; [apply IHe|apply logs_ret]].
Qed.


(** What [logs_only] says of the spawns of one run. *)
Lemma logs_spawns A allowed (m : @M World A) (s : state World) :
  logs_only (spawns_only allowed) m -> spawns_within allowed m s.
Proof.
  intros H. destruct (H s) as (events & Htrace & Hall).
  exists events. split; [exact Htrace|].
  intros argv options answer Hin.
  exact (proj1 (Forall_forall _ _) Hall _ Hin).
Qed.

Ltac logs_auto :=
  repeat first
    [ apply logs_jsonRpcCall | apply logs_delete_instance
    | apply logs_set_instance | apply logs_status_loop
    | apply logs_follow
    | logs_step ].

Lemma anvil_start_spawns_within port options (s : state World) :
  spawns_within
    (fun argv o => argv = anvil_argv (default_port port) options
                   /\ o = default_options)
    (anvil_start ops port options) s.
Proof.
  apply logs_spawns. unfold anvil_start. logs_auto. split; reflexivity.
Qed.

Lemma anvil_stop_spawns_within port (s : state World) :
  spawns_within (fun _ _ => False) (anvil_stop ops port) s.
Proof. apply logs_spawns. unfold anvil_stop. logs_auto. Qed.

Lemma anvil_status_spawns_within port (s : state World) :
  spawns_within (fun _ _ => False) (anvil_status ops port) s.
Proof.
  apply logs_spawns.
  unfold anvil_status, anvil_status_port, anvil_status_all. logs_auto.
Qed.

Lemma control_spawns_within context c (s : state World) :
  spawns_within (fun _ _ => False) (Control.run ops context c) s.
Proof.
  apply logs_spawns.
  destruct c; cbn [Control.run];
    unfold anvil_mine, anvil_setBalance, Control.anvil_setCode,
      Control.anvil_setStorageAt, Control.anvil_impersonateAccount,
      Control.anvil_stopImpersonatingAccount, Control.anvil_snapshot,
      Control.anvil_revert, anvil_setNextBlockTimestamp, anvil_increaseTime,
      Control.anvil_setAutomine, Control.anvil_reset;
    logs_auto.
Qed.

Lemma foundry_version_spawns_within schedule (s : state World) :
  spawns_within
    (fun argv _ => exists program,
         argv = [program; "--version"]
         /\ In program ["forge"; "cast"; "anvil"; "chisel"])
    (Help.foundry_version ops schedule) s.
Proof.
  apply logs_spawns. unfold Help.foundry_version.
  repeat (apply logs_bind; [|intros ?]);
    try apply logs_ret; try apply logs_follow;
    apply logs_exec_start; intros _; eexists; (split; [reflexivity|]);
    simpl; auto.
Qed.

Lemma foundry_config_spawns_within projectPath (s : state World) :
  spawns_within (fun _ _ => False) (Project.foundry_config ops projectPath) s.
Proof.
  apply logs_spawns. unfold Project.foundry_config, Project.readFile.
  logs_auto.
Qed.

Lemma foundry_contracts_spawns_within projectPath fuel (s : state World) :
  spawns_within
    (fun argv o => exists path,
         argv = ["ls"; "-1"; path] /\ o = default_options)
    (Project.foundry_contracts ops projectPath fuel) s.
Proof.
  apply logs_spawns. unfold Project.foundry_contracts, Project.fileExists.
  apply logs_bind; [logs_auto|intros present].
  apply logs_bind.
  - destruct present; [|apply logs_ret].
    apply logs_findSolFiles. intros path. now exists path.
  - intros [contracts|]; apply logs_ret.
Qed.

(** A handler that runs [exec] once and then only computes. *)
Lemma exec_then_runs A command args cwd (k : CommandResult -> @M World A)
      (s : state World) :
  (forall r s', trace (snd (k r s')) = trace s') ->
  runs_directly ops (bind (exec ops command args cwd) k) (command :: args)
                cwd s.
Proof.
  intros Hk.
  destruct (exec_run ops command args cwd s)
    as (r & events & w' & Hrun & _ & Hargv & _ & Hfirst).
  exists events. unfold bind. rewrite Hrun, Hk. simpl.
  split; [reflexivity|]. split; [exact Hargv|exact Hfirst].
Qed.

Lemma exec_ret_runs A command args cwd (f : CommandResult -> A)
      (s : state World) :
  runs_directly ops
    (bind (exec ops command args cwd) (fun result => ret (f result)))
    (command :: args) cwd s.
Proof. apply exec_then_runs. reflexivity. Qed.

Lemma given_or_undefined (v : option string) :
  Cast.or_undefined v None
  = match v with
    | Some (String c rest) => Some (String c rest)
    | _ => None
    end.
Proof. destruct v as [[|c rest]|]; reflexivity. Qed.

Lemma programs_direct program arguments :
  In program programs -> direct (program :: arguments).
Proof. intros H. now exists program, arguments. Qed.

End SpawnFacts.

Section ToolFacts.
Context {World : Type} (ops : world_ops World).

Lemma runs_as A (tool : @M World A) argv argv' cwd (s : state World) :
  argv' = argv -> runs_directly ops tool argv' cwd s ->
  runs_directly ops tool argv cwd s.
Proof. now intros <-. Qed.

Ltac same_line :=
  cbv zeta; unfold Cast.call_args, Cast.estimate_args, Cast.with_unit,
    Forge.when_given;
  rewrite ?given_or_undefined;
  repeat match goal with
         | |- context [match ?x with _ => _ end] =>
             is_var x; destruct x
         end;
  cbn [app]; rewrite ?app_nil_r, <- ?app_assoc; try reflexivity.

(** Each tool of the Forge, Cast and help files, and each Chisel tool
    that goes through [exec], starts the command line expected of it. *)
Lemma tool_runs settings (t : Dispatch.tool) (s : state World) :
  match command_line settings t with
  | Some argv =>
      runs_directly ops (Dispatch.run ops settings t) argv
                    (directory_of settings t) s
      /\ direct argv
  | None =>
      Dispatch.run ops settings t s
      = (Normal (textContent "Error: Private key is required"), s)
  end.
Proof.
  destruct t; try destruct request;
    cbv beta iota zeta delta [command_line directory_of Dispatch.run Help.run];
    try (split;
         [ eapply runs_as; [|first [apply exec_ret_runs
                                   |apply exec_then_runs; intros r s';
                                    destruct (negb (success r)); reflexivity]];
           same_line
         | apply programs_direct; try destruct t; simpl; auto ]).
  all: unfold Cast.cast_wallet_address, Cast.cast_wallet_sign;
    rewrite given_or_undefined;
    destruct (Cast.getPrivateKey _ _) as [[|c rest]|]; try reflexivity;
    (split; [apply exec_ret_runs|apply programs_direct; simpl; auto]).
Qed.

(** The remappings and the contract resources run [forge] once, in the
    project directory; a contract resource whose URI names no contract
    runs nothing. *)
Lemma resource_runs projectPath (r : Dispatch.inspection) (s : state World) :
  match inspection_line r with
  | Some argv =>
      runs_directly ops (Dispatch.read ops projectPath r) argv
                    (Some projectPath) s
  | None => snd (Dispatch.read ops projectPath r s) = s
  end.
Proof.
  destruct r;
    cbv beta iota zeta delta [inspection_line Dispatch.read
      Project.contract_abi Project.contract_bytecode
      Project.contract_storage_layout Project.contract_method_identifiers
      Project.contract_gas_estimates Project.inspected];
    [apply exec_ret_runs|..];
    destruct (Project.captured_after _ href);
    first [apply exec_ret_runs|reflexivity].
Qed.

End ToolFacts.

(** C10, as amended.  [chisel_eval] hands bash the command [echo '...' |
    chisel <args>], the text between the quotes being the code with every
    single quote replaced by the idiom quote-backslash-quote-quote, a word
    that bash reads back as the code.  [chisel_run] does not quote: it
    writes the code unchanged to a temporary file and hands bash the
    command [cat <file> | chisel <args>], in which the code does not
    occur.  Everything else that starts a program does so without a
    shell, the values being elements of the argument vector as they are:
    [exec] for any caller; each tool of the Forge, Cast and help files and
    each of the four other Chisel tools, which start their one command
    line first thing; the remappings and contract resources; the four
    version queries of [foundry_version]; [anvil_start]; and the [ls] of
    the contract listing.  [anvil_stop], [anvil_status], the node-control
    tools and the configuration resource start nothing. *)
Theorem repl_pipelines :
  forall (World : Type) (ops : world_ops World) (context : ToolContext)
         (code : string) (forkUrl : option string) (s : state World),
    (exists options answer rest,
        trace (snd (chisel_eval ops context code forkUrl s))
        = (trace s
           ++ Spawned ["bash"; "-c";
                       ("echo " ++ quoted code ++ " | chisel "
                        ++ join " " (fork_args forkUrl context))%string]
                      options answer :: rest)%list)
    /\ quoted code
       = String SQUOTE (replace_all SQUOTE quote_idiom code
                        ++ String SQUOTE EmptyString)
    /\ sh_word false (quoted code) = Some code
    /\ (let t := fst (Date_now _ ops (world s)) in
        let written := fst (Bun_write _ ops (tmp_file t) code
                                      (snd (Date_now _ ops (world s)))) in
        exists rest,
          trace (snd (chisel_run ops context code forkUrl s))
          = (trace s ++ FileWritten (tmp_file t) code written :: rest)%list
          /\ match written with
             | Normal _ =>
                 exists options answer rest',
                 rest = Spawned ["bash"; "-c";
                                 ("cat " ++ tmp_file t ++ " | chisel "
                                  ++ join " " (fork_args forkUrl context)
                                 )%string]
                                options answer :: rest'
             | Abrupt _ => rest = []
             end)
    /\ (forall (command : string) (args : list string) (cwd : option string),
           exists events,
             trace (snd (exec ops command args cwd s))
             = (trace s ++ events)%list
             /\ (forall argv options answer,
                    In (Spawned argv options answer) events ->
                    argv = command :: args))
    /\ (forall (settings : Cast.ToolContext) (t : Dispatch.tool),
           match command_line settings t with
           | Some argv =>
               runs_directly ops (Dispatch.run ops settings t) argv
                             (directory_of settings t) s
               /\ direct argv
           | None =>
               Dispatch.run ops settings t s
               = (Normal (textContent "Error: Private key is required"), s)
           end)
    /\ (forall (projectPath : string) (r : Dispatch.inspection),
           match inspection_line r with
           | Some argv =>
               runs_directly ops (Dispatch.read ops projectPath r) argv
                             (Some projectPath) s
           | None => snd (Dispatch.read ops projectPath r s) = s
           end)
    /\ (forall schedule : list nat,
           spawns_within
             (fun argv _ =>
                exists program,
                  argv = [program; "--version"]
                  /\ In program ["forge"; "cast"; "anvil"; "chisel"])
             (Help.foundry_version ops schedule) s)
    /\ (forall (port : option Z) (options : object value),
           spawns_within
             (fun argv o => argv = anvil_argv (default_port port) options
                            /\ o = default_options)
             (anvil_start ops port options) s)
    /\ (forall (projectPath : string) (fuel : nat),
           spawns_within
             (fun argv o => exists path,
                  argv = ["ls"; "-1"; path] /\ o = default_options)
             (Project.foundry_contracts ops projectPath fuel) s)
    /\ (forall (port : option Z) (c : Control.call) (projectPath : string),
           spawns_within (fun _ _ => False) (anvil_stop ops port) s
           /\ spawns_within (fun _ _ => False) (anvil_status ops port) s
           /\ spawns_within (fun _ _ => False) (Control.run ops context c) s
           /\ spawns_within (fun _ _ => False)
                            (Project.foundry_config ops projectPath) s).
Proof.
  intros World ops context code forkUrl s.
  repeat match goal with |- _ /\ _ => split end.
  - destruct (chisel_eval_spawns ops context code forkUrl s)
      as (options & answer & rest & H).
    exists options, answer, rest. rewrite H, eval_command_text. reflexivity.
  - reflexivity.
  - unfold quoted. rewrite sh_word_open. apply sh_word_escaped.
  - apply chisel_run_spawns.
  - intros command args cwd.
    destruct (exec_run ops command args cwd s)
      as (r & events & w' & Hrun & _ & Hargv & _).
    exists events. rewrite Hrun. split; [reflexivity|exact Hargv].
  - intros settings t. apply tool_runs.
  - intros projectPath r. apply resource_runs.
  - intros schedule. apply foundry_version_spawns_within.
  - intros port options. apply anvil_start_spawns_within.
  - intros projectPath fuel. apply foundry_contracts_spawns_within.
  - intros port c projectPath. split; [|split; [|split]].
    + apply anvil_stop_spawns_within.
    + apply anvil_status_spawns_within.
    + apply control_spawns_within.
    + apply foundry_config_spawns_within.
Qed.

(** The code [it's] reaches bash as ['it'\''s'], which bash reads back
    as [it's]; and [forge build --sizes] is started as three words in the
    project directory. *)
Lemma repl_pipelines_witness :
  (exists options answer rest,
      trace (snd (chisel_eval Scenario.scripted Scenario.no_context "it's"
                    None Scenario.idle))
      = Spawned ["bash"; "-c"; "echo 'it'\''s' | chisel "] options answer
        :: rest)
  /\ sh_word false "'it'\''s'" = Some "it's"
  /\ (exists answer rest,
         trace (snd (Forge.forge_build Scenario.scripted
                       {| Cast.rpcUrl := None; Cast.privateKey := None;
                          Cast.projectPath := Some "/repo" |}
                       [("sizes", VBoolean true)] Scenario.idle))
         = Spawned ["forge"; "build"; "--sizes"]
                   (exec_options "/repo" [("PATH", "/usr/bin")]) answer
           :: rest).
Proof.
  destruct (repl_pipelines _ Scenario.scripted Scenario.no_context "it's"
              None Scenario.idle)
    as (Heval & _ & Hword & _ & _ & Htools & _).
  split; [exact Heval|]. split; [exact Hword|].
  destruct (Htools {| Cast.rpcUrl := None; Cast.privateKey := None;
                      Cast.projectPath := Some "/repo" |}
                   (Dispatch.ForgeBuild [("sizes", VBoolean true)]))
    as ((events & Htrace & _ & Hfirst) & _).
  destruct (Hfirst "/repo" eq_refl) as (answer & rest & Hevents).
  exists answer, rest. rewrite Hevents in Htrace. exact Htrace.
Defined.

(** C10 as stated fails for [chisel_run]: for the code [it's], the
    command handed to bash names the temporary file and contains neither
    the quoted text nor any single quote. *)
Lemma chisel_run_does_not_quote :
  trace (snd (chisel_run Scenario.scripted Scenario.no_context
                (String "i" (String "t" (String SQUOTE (String "s" EmptyString))))
                None (initial (Scenario.answering []))))
  = [FileWritten "/tmp/chisel_1700000000000.sol"
                 (String "i" (String "t" (String SQUOTE (String "s" EmptyString))))
                 (Normal tt);
     Spawned ["bash"; "-c"; "cat /tmp/chisel_1700000000000.sol | chisel "]
             {| cwd := None;
                env := Some [("PATH", "/usr/bin"); ("NO_COLOR", "1")] |}
             (Normal 4242);
     PipesRead 4242 (Normal (EmptyString, EmptyString));
     Exited 4242 (Normal 0);
     FileProbed "/tmp/chisel_1700000000000.sol" (Normal true);
     FileWritten "/tmp/chisel_1700000000000.sol" EmptyString (Normal tt)]
  /\ includes "cat /tmp/chisel_1700000000000.sol | chisel "
              (quoted (String "i" (String "t" (String SQUOTE
                                                 (String "s" EmptyString)))))
     = false
  /\ includes "cat /tmp/chisel_1700000000000.sol | chisel "
              (String SQUOTE EmptyString) = false.
Proof.
  split; [reflexivity|]. split; reflexivity.
Qed.

(* ================================================================== *)
(** * Further properties *)
(* ================================================================== *)

(** ** Objects: lookup after update *)

Section ObjectFacts.
Context {A : Type}.
Implicit Types (o : object A) (k : string) (v : A).

Lemma get_set_same o k v : get (set o k v) k = Some v.
Proof.
  induction o as [|[k0 v0] o IH]; simpl.
  - now rewrite String.eqb_refl.
  - destruct (String.eqb_spec k0 k) as [->|Hne]; simpl.
    + now rewrite String.eqb_refl.
    + destruct (String.eqb_spec k0 k); [contradiction|exact IH].
Qed.

Lemma get_set_other o k k' v : k' <> k -> get (set o k v) k' = get o k'.
Proof.
  intros Hne. induction o as [|[k0 v0] o IH]; simpl.
  - destruct (String.eqb_spec k k'); [congruence|reflexivity].
  - destruct (String.eqb_spec k0 k) as [->|Hk]; simpl.
    + destruct (String.eqb_spec k k'); [congruence|reflexivity].
    + now rewrite IH.
Qed.

Lemma get_absent o k : get o k = None <-> ~ In k (map fst o).
Proof.
  induction o as [|[k0 v0] o IH]; simpl.
  - split; [intros _ []|reflexivity].
  - destruct (String.eqb_spec k0 k) as [->|Hne].
    + split; [discriminate|]. intros H. exfalso. apply H. now left.
    + rewrite IH. split.
      * intros H [E|E]; [contradiction|now apply H].
      * intros H E. apply H. now right.
Qed.

Lemma get_In o k v : NoDup (map fst o) -> (get o k = Some v <-> In (k, v) o).
Proof.
  induction o as [|[k0 v0] o IH]; simpl; intros Hnd.
  - split; [discriminate|intros []].
  - inversion Hnd as [|? ? Hk Hnd']; subst.
    destruct (String.eqb_spec k0 k) as [->|Hne].
    + split.
      * intros [= ->]. now left.
      * intros [[= ->]|Hin]; [reflexivity|].
        exfalso. apply Hk. now apply (in_map fst) in Hin.
    + rewrite (IH Hnd'). split.
      * intros H. now right.
      * intros [[= E _]|H]; [contradiction|exact H].
Qed.

(** A fresh key is appended. *)
Lemma set_fresh o k v : ~ In k (map fst o) -> set o k v = (o ++ [(k, v)])%list.
Proof.
  induction o as [|[k0 v0] o IH]; simpl; intros H; [reflexivity|].
  destruct (String.eqb_spec k0 k) as [->|Hne].
  - exfalso. apply H. now left.
  - f_equal. apply IH. intros Hin. apply H. now right.
Qed.

Lemma fold_set_fresh (l base : object A) :
  NoDup (map fst (base ++ l)) ->
  fold_left (fun o p => set o (fst p) (snd p)) l base = (base ++ l)%list.
Proof.
  revert base. induction l as [|[k v] l IH]; intros base Hnd; simpl.
  - now rewrite app_nil_r.
  - rewrite set_fresh.
    + rewrite IH; rewrite <- app_assoc; [reflexivity|exact Hnd].
    + rewrite map_app in Hnd. simpl in Hnd.
      apply NoDup_remove_2 in Hnd. intros Hin. apply Hnd.
      apply in_or_app. now left.
Qed.

Lemma fold_set_get (l base : object A) k :
  NoDup (map fst l) ->
  get (fold_left (fun o p => set o (fst p) (snd p)) l base) k
  = match get l k with
    | Some v => Some v
    | None => get base k
    end.
Proof.
  revert base. induction l as [|[k0 v0] l IH]; intros base Hnd; simpl;
    [reflexivity|].
  inversion Hnd as [|? ? Hk Hnd']; subst. rewrite (IH _ Hnd').
  destruct (String.eqb_spec k0 k) as [->|Hne].
  - apply get_absent in Hk. rewrite Hk. apply get_set_same.
  - destruct (get l k); [reflexivity|]. apply get_set_other. congruence.
Qed.

Lemma filter_partition (f : string * A -> bool) (l : list (string * A)) :
  Permutation (filter f l ++ filter (fun p => negb (f p)) l) l.
Proof.
  induction l as [|p l IH]; simpl; [constructor|].
  destruct (f p); simpl.
  - now constructor.
  - eapply Permutation_trans; [apply Permutation_sym, Permutation_middle|].
    now constructor.
Qed.

Lemma Object_entries_perm o : Permutation (Object_entries o) o.
Proof.
  unfold Object_entries.
  eapply Permutation_trans; [|apply (filter_partition is_array_index)].
  apply Permutation_app_tail, sort_by_index_perm.
Qed.

Lemma Object_entries_get o k :
  NoDup (map fst o) -> get (Object_entries o) k = get o k.
Proof.
  intros Hnd.
  assert (Hnd' : NoDup (map fst (Object_entries o))).
  { eapply Permutation_NoDup; [|exact Hnd].
    apply Permutation_map, Permutation_sym, Object_entries_perm. }
  destruct (get o k) as [v|] eqn:E.
  - apply (get_In _ _ _ Hnd'). apply (get_In _ _ _ Hnd) in E.
    eapply Permutation_in; [apply Permutation_sym, Object_entries_perm|exact E].
  - apply get_absent. apply get_absent in E. intros Hin. apply E.
    eapply Permutation_in; [|exact Hin].
    apply Permutation_map, Object_entries_perm.
Qed.

(** A spread copies every property. *)
Lemma spread_get o k :
  NoDup (map fst o) -> get (spread [] o) k = get o k.
Proof.
  intros Hnd. unfold spread. rewrite fold_set_get.
  - rewrite (Object_entries_get o k Hnd). now destruct (get o k).
  - eapply Permutation_NoDup; [|exact Hnd].
    apply Permutation_map, Permutation_sym, Object_entries_perm.
Qed.

End ObjectFacts.

(** ** [trim] *)

Lemma trimStart_clean s : starts_clean (trimStart s).
Proof.
  induction s as [|c s IH]; simpl; [exact I|].
  destruct (is_white_space c) eqn:E; [exact IH|exact E].
Qed.

Lemma trimStart_of_clean s : starts_clean s -> trimStart s = s.
Proof. destruct s as [|c s]; simpl; [reflexivity|]. now intros ->. Qed.

Lemma trimEnd_clean s : starts_clean s -> starts_clean (trimEnd s).
Proof.
  destruct s as [|c s]; simpl; [trivial|]. intros Hc.
  destruct (trimEnd s); [rewrite Hc|]; exact Hc.
Qed.

Lemma trimEnd_idempotent s : trimEnd (trimEnd s) = trimEnd s.
Proof.
  induction s as [|c s IH]; simpl; [reflexivity|].
  destruct (trimEnd s) as [|d kept] eqn:E.
  - destruct (is_white_space c) eqn:Hc; simpl; [reflexivity|].
    now rewrite Hc.
  - change (trimEnd (String c (String d kept)))
      with (match trimEnd (String d kept) with
            | EmptyString => if is_white_space c then EmptyString
                             else String c EmptyString
            | k => String c k
            end).
    rewrite IH. reflexivity.
Qed.

Lemma trim_idempotent s : trim (trim s) = trim s.
Proof.
  unfold trim.
  rewrite (trimStart_of_clean (trimEnd (trimStart s))).
  - apply trimEnd_idempotent.
  - apply trimEnd_clean, trimStart_clean.
Qed.

(** ** The process runner, continued *)

Section ExecEvents.
Context {World : Type} (ops : world_ops World).

Ltac in_events :=
  let Hin := fresh "Hin" in
  intros; simpl in *;
  repeat match goal with
         | H : _ \/ _ |- _ => destruct H as [H|H]
         | H : False |- _ => destruct H
         | H : @eq event _ _ |- _ => inversion H; clear H; subst
         end.

(** What the events of a run of [exec] say about its result. *)
Lemma exec_events command args cwd (s : state World) :
  exists r events w',
    exec ops command args cwd s
    = (Normal r, {| world := w'; anvilInstances := anvilInstances s;
                    trace := trace s ++ events |})
    /\ (forall argv options answer,
           In (Spawned argv options answer) events ->
           exists dir,
             fst (working_directory ops cwd s) = Normal dir
             /\ options = exec_options dir (process_env _ ops (world s)))
    /\ (forall pid out pid' code,
           In (PipesRead pid (Normal out)) events ->
           In (Exited pid' (Normal code)) events ->
           r = {| success := code =? 0; stdout := trim (fst out);
                  stderr := trim (snd out); exitCode := code |})
    /\ (forall argv options error,
           In (Spawned argv options (Abrupt error)) events ->
           r = {| success := false; stdout := EmptyString;
                  stderr := describe error; exitCode := 1 |}).
Proof.
  unfold exec, try_catch, bind at 1.
  pose proof (working_directory_state ops cwd s) as Hst.
  destruct (working_directory ops cwd s) as [[dir|e] s0]; simpl in Hst;
    subst s0; simpl fst.
  2:{ exists {| success := false; stdout := EmptyString;
               stderr := describe e; exitCode := 1 |}, [], (world s).
      unfold ret. rewrite app_nil_r. destruct s; simpl.
      repeat split; in_events. }
  unfold bind, read_world, spawn, pipes_text, await_exited, perform, ret.
  simpl.
  destruct (Bun_spawn _ ops _ _ _) as [[proc|e] w1]; simpl.
  2:{ do 3 eexists. split; [reflexivity|].
      split; [|split]; in_events; eauto. }
  destruct (read_pipes _ ops proc w1) as [[out|e] w2]; simpl.
  2:{ rewrite <- app_assoc. do 3 eexists. split; [reflexivity|].
      split; [|split]; in_events; eauto. }
  destruct (exited _ ops proc w2) as [[code|e] w3]; simpl;
    rewrite <- !app_assoc; do 3 eexists; (split; [reflexivity|]);
    (split; [|split]); in_events; eauto.
Qed.

End ExecEvents.

(** X1. Whatever [process.env] holds, every process [exec] spawns gets
    [NO_COLOR=1] and [FORCE_COLOR=0], and (the names of the environment
    being distinct) every other variable as the server has it. *)
Theorem exec_environment :
  forall (World : Type) (ops : world_ops World)
         (command : string) (args : list string) (cwd : option string)
         (s : state World),
  exists events,
    trace (snd (exec ops command args cwd s)) = (trace s ++ events)%list
    /\ forall argv options answer,
        In (Spawned argv options answer) events ->
        exists vars,
          env options = Some vars
          /\ get vars "NO_COLOR" = Some "1"
          /\ get vars "FORCE_COLOR" = Some "0"
          /\ (NoDup (map fst (process_env _ ops (world s))) ->
              forall name,
                name <> "NO_COLOR" -> name <> "FORCE_COLOR" ->
                get vars name = get (process_env _ ops (world s)) name).
Proof.
  intros World ops command args cwd s.
  destruct (exec_events ops command args cwd s)
    as (r & events & w' & Hrun & Hopts & _).
  exists events. rewrite Hrun. split; [reflexivity|].
  intros argv options answer Hin.
  destruct (Hopts _ _ _ Hin) as (dir & _ & ->).
  eexists. split; [reflexivity|]. split; [|split].
  - rewrite get_set_other by discriminate. apply get_set_same.
  - apply get_set_same.
  - intros Hnd name H1 H2.
    rewrite !get_set_other by assumption. now apply spread_get.
Qed.

(** The server's [PATH] reaches [forge], next to the two overrides. *)
Lemma exec_environment_witness :
  exists vars,
    env (exec_options "/work" [("PATH", "/usr/bin")]) = Some vars
    /\ get vars "NO_COLOR" = Some "1"
    /\ get vars "FORCE_COLOR" = Some "0"
    /\ get vars "PATH" = Some "/usr/bin".
Proof.
  destruct (exec_environment _ Scenario.scripted "forge" ["build"] None
              Scenario.idle) as (events & Htrace & Henv).
  apply (app_inv_head []) in Htrace.
  destruct (Henv ["forge"; "build"]
                 (exec_options "/work" [("PATH", "/usr/bin")])
                 (Normal 4242)) as (vars & Hvars & Hno & Hforce & Hinherit).
  - rewrite <- Htrace. left. reflexivity.
  - exists vars. split; [exact Hvars|]. split; [exact Hno|].
    split; [exact Hforce|].
    apply Hinherit; [|discriminate|discriminate].
    repeat constructor. intros [].
Defined.

(** X2. When the process ran to its exit, the result of [exec] carries
    the exit code and both streams trimmed: trimming them again changes
    nothing. *)
Theorem exec_trims_output :
  forall (World : Type) (ops : world_ops World)
         (command : string) (args : list string) (cwd : option string)
         (s : state World),
  exists r events,
    fst (exec ops command args cwd s) = Normal r
    /\ trace (snd (exec ops command args cwd s)) = (trace s ++ events)%list
    /\ forall pid out pid' code,
        In (PipesRead pid (Normal out)) events ->
        In (Exited pid' (Normal code)) events ->
        (stdout r = trim (fst out) /\ stderr r = trim (snd out)
         /\ exitCode r = code)
        /\ trim (stdout r) = stdout r
        /\ trim (stderr r) = stderr r.
Proof.
  intros World ops command args cwd s.
  destruct (exec_events ops command args cwd s)
    as (r & events & w' & Hrun & _ & Hout & _).
  exists r, events. rewrite Hrun. split; [reflexivity|].
  split; [reflexivity|].
  intros pid out pid' code Hp He. rewrite (Hout _ _ _ _ Hp He). simpl.
  split; [repeat split|]. split; apply trim_idempotent.
Qed.

(** A program printing [ok] and a line feed. *)
Lemma exec_trims_output_witness :
  exists r,
    fst (exec Scenario.scripted "forge" ["--version"] None
              (initial Scenario.prints_ok)) = Normal r
    /\ stdout r = "ok" /\ trim (stdout r) = stdout r.
Proof.
  destruct (exec_trims_output _ Scenario.scripted "forge" ["--version"] None
              (initial Scenario.prints_ok))
    as (r & events & Hr & Htrace & Hout).
  exists r. split; [exact Hr|].
  apply (app_inv_head []) in Htrace.
  destruct (Hout 4242 ("ok" ++ LF, EmptyString)%string 4242 0)
    as ((Hstdout & _) & Htrim & _).
  - rewrite <- Htrace. right. left. reflexivity.
  - rewrite <- Htrace. right. right. left. reflexivity.
  - split; [exact Hstdout|exact Htrim].
Defined.

(** X3. A tool that formats the result of [exec] answers a failed spawn
    with the description of the failure and the exit code 1 (the exit code
    alone for an empty description). *)
Theorem spawn_failure_formatted :
  forall (World : Type) (ops : world_ops World)
         (command : string) (args : list string) (cwd : option string)
         (s : state World),
  exists r events,
    fst (exec ops command args cwd s) = Normal r
    /\ trace (snd (exec ops command args cwd s)) = (trace s ++ events)%list
    /\ forall argv options error,
        In (Spawned argv options (Abrupt error)) events ->
        formatOutput r = spawn_failure_text error.
Proof.
  intros World ops command args cwd s.
  destruct (exec_events ops command args cwd s)
    as (r & events & w' & Hrun & _ & _ & Hfail).
  exists r, events. rewrite Hrun. split; [reflexivity|].
  split; [reflexivity|].
  intros argv options error Hin. rewrite (Hfail _ _ _ Hin).
  unfold formatOutput, spawn_failure_text. simpl.
  destruct (describe error); reflexivity.
Qed.

(** No [chisel] on the machine: what [chisel_list] answers. *)
Lemma spawn_failure_formatted_witness :
  exists r,
    fst (exec Scenario.scripted "chisel" ["list"] None
              (initial Scenario.nothing_installed)) = Normal r
    /\ formatOutput r
       = ("Error: Executable not found in $PATH: chisel" ++ LF
          ++ "Exit code: 1")%string.
Proof.
  destruct (spawn_failure_formatted _ Scenario.scripted "chisel" ["list"] None
              (initial Scenario.nothing_installed))
    as (r & events & Hr & Htrace & Hfmt).
  exists r. split; [exact Hr|].
  apply (app_inv_head []) in Htrace.
  apply (Hfmt ["chisel"; "list"]
              (exec_options "/work" [("PATH", "/usr/bin")])
              (ThrownError "Executable not found in $PATH: chisel")).
  rewrite <- Htrace. left. reflexivity.
Defined.


(** ** The argument serializer, continued *)

Lemma option_tokens_silent (p : string * value) :
  option_tokens p = [] <-> silent p.
Proof.
  unfold option_tokens, silent. destruct p as [k v]. simpl.
  destruct v as [|[|]|n|x|t]; split; intros H; try reflexivity;
    try discriminate; auto; destruct H; discriminate.
Qed.

Lemma option_tokens_length (p : string * value) :
  (List.length (option_tokens p) <= 2)%nat.
Proof.
  unfold option_tokens. destruct (snd p) as [|[|]|n|x|t]; simpl; lia.
Qed.

Lemma flat_map_tokens_length (l : list (string * value)) :
  (List.length (flat_map option_tokens l) <= 2 * List.length l)%nat.
Proof.
  induction l as [|p l IH]; simpl; [lia|].
  rewrite length_app. pose proof (option_tokens_length p). lia.
Qed.

Lemma flat_map_tokens_nil (l : list (string * value)) :
  flat_map option_tokens l = [] <-> Forall silent l.
Proof.
  induction l as [|p l IH]; simpl.
  - split; [constructor|reflexivity].
  - split.
    + intros H. apply app_eq_nil in H. destruct H as [Hp Hl].
      constructor; [now apply option_tokens_silent|now apply IH].
    + intros H. inversion H as [|? ? Hp Hl]; subst.
      apply option_tokens_silent in Hp. apply IH in Hl.
      now rewrite Hp, Hl.
Qed.

Lemma buildArgs_flat_map (options : object value) :
  buildArgs options = flat_map option_tokens (Object_entries options).
Proof. unfold buildArgs. now rewrite buildArgs_loop_tokens. Qed.

(** X4. [buildArgs] emits at most two tokens per option, and none at all
    exactly when every value is [undefined] or [false]. *)
Theorem buildArgs_token_count :
  forall options : object value,
    (List.length (buildArgs options) <= 2 * List.length options)%nat
    /\ (buildArgs options = [] <-> Forall silent options).
Proof.
  intros options. rewrite buildArgs_flat_map. split.
  - rewrite <- (Permutation_length (Object_entries_perm options)).
    apply flat_map_tokens_length.
  - rewrite flat_map_tokens_nil. split; apply Permutation_Forall.
    + apply Object_entries_perm.
    + apply Permutation_sym, Object_entries_perm.
Qed.

(** An option set under construction continued by a spread of named,
    new options is the concatenation. *)
Lemma spread_named (base options : object value) :
  forallb (fun p => negb (is_array_index p)) options = true ->
  NoDup (map fst (base ++ options)) ->
  spread base options = (base ++ options)%list.
Proof.
  intros Hnamed Hnd. unfold spread.
  rewrite (Object_entries_named options Hnamed). now apply fold_set_fresh.
Qed.

Section StartFacts.
Context {World : Type} (ops : world_ops World).

(** On an untracked port the first effect of [anvil_start] is the spawn
    of the node. *)
Lemma anvil_start_spawns port options (s : state World) :
  Map_has (anvilInstances s) (default_port port) = false ->
  exists answer rest,
    trace (snd (anvil_start ops port options s))
    = (trace s
       ++ Spawned (anvil_argv (default_port port) options) default_options
                  answer :: rest)%list.
Proof.
  intros Hnew. unfold anvil_start. unfold bind at 1. unfold get_instances.
  rewrite Hnew. unfold bind at 1. unfold spawn, perform.
  change ("anvil" :: buildArgs (spread [("port", VNumber (default_port port))]
                                       options))
    with (anvil_argv (default_port port) options).
  change {| cwd := None; env := None |} with default_options.
  destruct (Bun_spawn _ ops _ _ _) as [[proc|e] w1].
  2:{ do 2 eexists. reflexivity. }
  unfold bind at 1. unfold sleep, perform_. simpl world. simpl trace.
  unfold try_catch, bind at 1. rewrite jsonRpcCall_run. simpl.
  destruct (rpc_outcome _); simpl; rewrite <- !app_assoc;
    do 2 eexists; reflexivity.
Qed.

End StartFacts.

(** X5. For the options of the tool schema (distinct named keys, [port]
    taken out), the node is spawned as [anvil --port <port>] followed by
    the tokens of the options, with port 8545 when none is given. *)
Theorem anvil_spawned_with_port :
  forall (World : Type) (ops : world_ops World)
         (port : option Z) (options : object value) (s : state World),
    named_options options ->
    get options "port" = None ->
    Map_has (anvilInstances s) (default_port port) = false ->
    exists answer rest,
      trace (snd (anvil_start ops port options s))
      = (trace s
         ++ Spawned ("anvil" :: "--port"
                     :: String_of_number (default_port port)
                     :: buildArgs options)
                    default_options answer :: rest)%list.
Proof.
  intros World ops port options s [Hnd Hnamed] Hport Hnew.
  destruct (anvil_start_spawns ops port options s Hnew)
    as (answer & rest & Htrace).
  exists answer, rest. rewrite Htrace. unfold anvil_argv.
  rewrite spread_named; [|exact Hnamed|].
  - rewrite !buildArgs_flat_map.
    rewrite (Object_entries_named options Hnamed).
    rewrite Object_entries_named; [reflexivity|].
    simpl. exact Hnamed.
  - simpl. constructor; [|exact Hnd]. now apply get_absent.
Qed.

(** A fork started without a port. *)
Lemma anvil_spawned_with_port_witness :
  exists answer rest,
    trace (snd (anvil_start Scenario.scripted None
                  [("fork-url", VString "http://node"); ("silent", VBoolean true)]
                  Scenario.idle))
    = Spawned ["anvil"; "--port"; "8545"; "--fork-url"; "http://node";
               "--silent"]
              default_options answer :: rest.
Proof.
  apply (anvil_spawned_with_port _ Scenario.scripted None
           [("fork-url", VString "http://node"); ("silent", VBoolean true)]
           Scenario.idle).
  - split; [|reflexivity]. repeat constructor; simpl; intuition discriminate.
  - reflexivity.
  - reflexivity.
Defined.

(** X6. The endpoint a node-control tool calls is never the empty
    string: it is the [rpc-url] given when that is not empty, otherwise
    the local URL of the port when a port is passed, otherwise the
    endpoint of the context when that is not empty, otherwise
    [http://127.0.0.1:8545]. *)
Theorem getRpcUrl_resolution :
  forall (rpcUrl : option string) (context : ToolContext) (port : option Z),
    Anvil.getRpcUrl rpcUrl context port <> EmptyString
    /\ (forall u, rpcUrl = Some u -> u <> EmptyString ->
                  Anvil.getRpcUrl rpcUrl context port = u)
    /\ (or_else rpcUrl None = None ->
        forall p, port = Some p -> p <> 0 ->
                  Anvil.getRpcUrl rpcUrl context port = local_url p)
    /\ (or_else rpcUrl None = None ->
        port = None ->
        Anvil.getRpcUrl rpcUrl context port
        = or_literal (Anvil.rpcUrl context) "http://127.0.0.1:8545").
Proof.
  intros rpcUrl context port.
  assert (Hdefault : or_literal (Anvil.rpcUrl context) "http://127.0.0.1:8545"
                     <> EmptyString).
  { unfold or_literal. destruct (Anvil.rpcUrl context) as [[|c u]|];
      discriminate. }
  assert (Hlocal : forall p, local_url p <> EmptyString) by discriminate.
  unfold Anvil.getRpcUrl. repeat split.
  - destruct rpcUrl as [[|c u]|]; simpl; try discriminate;
      destruct port as [p|]; try exact Hdefault;
      destruct (negb (p =? 0)); auto.
  - intros u -> Hu. destruct u; [contradiction|reflexivity].
  - intros Hnone p -> Hp.
    replace (negb (p =? 0)) with true
      by (symmetry; apply negb_true_iff, Z.eqb_neq, Hp).
    destruct rpcUrl as [[|c u]|]; simpl in *; try reflexivity; discriminate.
  - intros Hnone ->.
    destruct rpcUrl as [[|c u]|]; simpl in *; try reflexivity; discriminate.
Qed.

(** No [rpc-url], no port: the endpoint of the context. *)
Lemma getRpcUrl_resolution_witness :
  or_else None None = None
  /\ Anvil.getRpcUrl None {| Anvil.rpcUrl := Some "http://fork:8545";
                             Anvil.projectPath := "/work" |} None
     = "http://fork:8545".
Proof.
  split; [reflexivity|].
  exact (proj2 (proj2 (proj2 (getRpcUrl_resolution None
           {| Anvil.rpcUrl := Some "http://fork:8545";
              Anvil.projectPath := "/work" |} None))) eq_refl eq_refl).
Defined.


(** ** The RPC bridge, continued *)

(** X7. A parsed body makes [jsonRpcCall] fail exactly when it is [null]
    or an object whose [error] member is truthy; an [error] that is
    [null], [false], [0] or empty, and a body that is not an object, do not
    fail the call.  A truthy [error] fails it whatever [result] says. *)
Theorem rpc_failure_iff :
  forall data : json,
    (exists e, rpc_decode data = Abrupt e)
    <-> (data = JNull
         \/ exists fields err,
             data = JObject fields
             /\ get fields "error" = Some err
             /\ truthy err = true).
Proof.
  intros data. split.
  - intros [e He]. destruct data as [|b|n|t|items|fields];
      try (left; reflexivity); try discriminate.
    right. unfold rpc_decode in He. simpl in He.
    destruct (get fields "error") as [err|] eqn:Herr; simpl in He.
    + destruct (truthy err) eqn:Ht.
      * exists fields, err. repeat split; assumption.
      * discriminate.
    + discriminate.
  - intros [->|(fields & err & -> & Herr & Ht)].
    + eexists. reflexivity.
    + unfold rpc_decode. simpl. rewrite Herr. simpl. rewrite Ht.
      destruct err; simpl in *; try discriminate; eexists; reflexivity.
Qed.

(** A response in the style of JSON-RPC 1.0, with [error: null]. *)
Example rpc_error_null :
  rpc_decode (JObject [("result", JString "0x1"); ("error", JNull);
                       ("id", JNumber 1)])
  = Normal (Some (JString "0x1")).
Proof. reflexivity. Qed.

(** An error next to a result, and an error without a message. *)
Example rpc_error_wins :
  rpc_decode (JObject [("result", JString "0x1");
                       ("error", JObject [("message", JString "boom")])])
  = Abrupt (ThrownError "boom")
  /\ rpc_decode (JObject [("error", JObject [("code", JNumber 3)])])
     = Abrupt (ThrownError EmptyString).
Proof. split; reflexivity. Qed.

(** ** The registry, continued *)

Lemma Map_has_false (m : Map) p : Map_has m p = false -> Map_get m p = None.
Proof. unfold Map_has. now destruct (Map_get m p). Qed.

Lemma Map_set_fresh (m : Map) p i :
  Map_get m p = None -> Map_set m p i = (m ++ [(p, i)])%list.
Proof.
  induction m as [|[k w] m IH]; simpl; [reflexivity|].
  destruct (k =? p); [discriminate|]. intros H. now rewrite IH.
Qed.

Lemma Map_set_other (m : Map) p q i :
  q <> p -> Map_get (Map_set m p i) q = Map_get m q.
Proof.
  intros Hne. induction m as [|[k w] m IH]; simpl.
  - destruct (Z.eqb_spec p q); [congruence|reflexivity].
  - destruct (Z.eqb_spec k p) as [->|Hk]; simpl.
    + destruct (Z.eqb_spec p q); [congruence|reflexivity].
    + now rewrite IH.
Qed.

Lemma Map_delete_set_fresh (m : Map) p i :
  Map_get m p = None -> Map_delete (Map_set m p i) p = m.
Proof.
  induction m as [|[k w] m IH]; simpl.
  - now rewrite Z.eqb_refl.
  - destruct (Z.eqb_spec k p) as [->|Hne]; [discriminate|].
    intros H. simpl. destruct (Z.eqb_spec k p); [contradiction|].
    now rewrite IH.
Qed.

Lemma Map_delete_incl (m : Map) p : incl (Map_delete m p) m.
Proof.
  induction m as [|[k w] m IH]; simpl; [apply incl_refl|].
  destruct (k =? p).
  - apply incl_tl, incl_refl.
  - apply incl_cons; [now left|]. now apply incl_tl.
Qed.

Section StartMore.
Context {World : Type} (ops : world_ops World).

(** [anvil_start] on an untracked port, the spawn throwing. *)
Lemma anvil_start_spawn_throws port options (s : state World) error w1 :
  Map_has (anvilInstances s) (default_port port) = false ->
  Bun_spawn _ ops (anvil_argv (default_port port) options) default_options
            (world s) = (Abrupt error, w1) ->
  anvil_start ops port options s
  = (Abrupt error,
     {| world := w1; anvilInstances := anvilInstances s;
        trace := trace s
                 ++ [Spawned (anvil_argv (default_port port) options)
                             default_options (Abrupt error)] |}).
Proof.
  intros Hnew Hspawn. unfold anvil_start. unfold bind at 1.
  unfold get_instances. rewrite Hnew. unfold bind at 1.
  unfold spawn, perform.
  change ("anvil" :: buildArgs (spread [("port", VNumber (default_port port))]
                                       options))
    with (anvil_argv (default_port port) options).
  change {| cwd := None; env := None |} with default_options.
  rewrite Hspawn. reflexivity.
Qed.

(** [anvil_start] on an untracked port, the node answering the probe. *)
Lemma anvil_start_registers port options (s : state World) proc w1 chainId :
  let p := default_port port in
  let waited := setTimeout _ ops 1000 w1 in
  let answer := fst (fetch _ ops (probe p) waited) in
  Map_has (anvilInstances s) p = false ->
  Bun_spawn _ ops (anvil_argv p options) default_options (world s)
  = (Normal proc, w1) ->
  rpc_outcome answer = Normal chainId ->
  anvil_start ops port options s
  = (Normal (textContent
       ("Anvil started successfully on port " ++ String_of_number p ++ LF
        ++ "PID: " ++ String_of_number proc ++ LF
        ++ "Chain ID: " ++ String_opt chainId)),
     {| world := snd (fetch _ ops (probe p) waited);
        anvilInstances :=
          Map_set (anvilInstances s) p
                  {| port := p; pid := proc;
                     forkUrl := fork_url_of options |};
        trace := trace s
                 ++ [Spawned (anvil_argv p options) default_options
                             (Normal proc);
                     Slept 1000;
                     Fetched (probe p) answer] |}).
Proof.
  intros p waited answer Hnew Hspawn Hok.
  unfold anvil_start. fold p. unfold bind at 1. unfold get_instances.
  rewrite Hnew. unfold bind at 1. unfold spawn, perform.
  change ("anvil" :: buildArgs (spread [("port", VNumber p)] options))
    with (anvil_argv p options).
  change {| cwd := None; env := None |} with default_options.
  rewrite Hspawn.
  unfold bind at 1. unfold sleep, perform_. simpl world. simpl anvilInstances.
  simpl trace.
  unfold try_catch, bind at 1. rewrite jsonRpcCall_run.
  fold (probe p). simpl world. fold waited. fold answer. rewrite Hok.
  unfold bind, set_instance, bind, get_instances, put_instances, ret. simpl.
  rewrite <- !app_assoc. reflexivity.
Qed.

(** [anvil_stop] on a tracked port. *)
Lemma anvil_stop_run port (s : state World) instance :
  let p := default_port port in
  let signalled := process_kill _ ops (pid instance) "SIGTERM" (world s) in
  Map_get (anvilInstances s) p = Some instance ->
  anvil_stop ops port s
  = (Normal (textContent (stop_report p (fst signalled))),
     {| world := snd signalled;
        anvilInstances := Map_delete (anvilInstances s) p;
        trace := trace s ++ [ProcessKilled (pid instance) "SIGTERM"
                                           (fst signalled)] |}).
Proof.
  intros p signalled Hget.
  unfold anvil_stop. fold p. unfold bind at 1. unfold get_instances.
  rewrite Hget. unfold try_catch, bind, kill, perform, delete_instance,
    bind, get_instances, put_instances, ret. fold signalled.
  destruct signalled as [[[]|e] w1]; reflexivity.
Qed.

End StartMore.

(** X8. When the node binary cannot be spawned, [anvil_start] does not
    answer with a text: the error of the spawn is thrown to the caller,
    after the spawn attempt and nothing else, and the registry is as it
    was. *)
Theorem anvil_start_spawn_failure :
  forall (World : Type) (ops : world_ops World)
         (port : option Z) (options : object value) (s : state World)
         (error : thrown) (w1 : World),
    Map_has (anvilInstances s) (default_port port) = false ->
    Bun_spawn _ ops (anvil_argv (default_port port) options) default_options
              (world s) = (Abrupt error, w1) ->
    fst (anvil_start ops port options s) = Abrupt error
    /\ anvilInstances (snd (anvil_start ops port options s))
       = anvilInstances s
    /\ trace (snd (anvil_start ops port options s))
       = (trace s
          ++ [Spawned (anvil_argv (default_port port) options)
                      default_options (Abrupt error)])%list.
Proof.
  intros World ops port options s error w1 Hnew Hspawn.
  rewrite (anvil_start_spawn_throws ops port options s error w1 Hnew Hspawn).
  repeat split.
Qed.

Lemma anvil_start_spawn_failure_witness :
  fst (anvil_start Scenario.scripted None []
         (initial Scenario.nothing_installed))
  = Abrupt (ThrownError "Executable not found in $PATH: anvil")
  /\ anvilInstances (snd (anvil_start Scenario.scripted None []
                            (initial Scenario.nothing_installed))) = []
  /\ trace (snd (anvil_start Scenario.scripted None []
                   (initial Scenario.nothing_installed)))
     = [Spawned ["anvil"; "--port"; "8545"] default_options
                (Abrupt (ThrownError "Executable not found in $PATH: anvil"))].
Proof.
  exact (anvil_start_spawn_failure _ Scenario.scripted None []
           (initial Scenario.nothing_installed)
           (ThrownError "Executable not found in $PATH: anvil")
           Scenario.nothing_installed eq_refl eq_refl).
Defined.

(** X9. A start whose probe is answered registers the instance under
    its port, with the pid of the spawned process and the fork URL of the
    options, and leaves the entries of all other ports as they were. *)
Theorem anvil_start_registers_instance :
  forall (World : Type) (ops : world_ops World)
         (port : option Z) (options : object value) (s : state World)
         (proc : Z) (w1 : World) (chainId : option json),
    let p := default_port port in
    let after := anvilInstances (snd (anvil_start ops port options s)) in
    Map_has (anvilInstances s) p = false ->
    Bun_spawn _ ops (anvil_argv p options) default_options (world s)
    = (Normal proc, w1) ->
    rpc_outcome (fst (fetch _ ops (probe p) (setTimeout _ ops 1000 w1)))
    = Normal chainId ->
    Map_get after p = Some {| port := p; pid := proc;
                              forkUrl := fork_url_of options |}
    /\ (forall q, q <> p -> Map_get after q = Map_get (anvilInstances s) q)
    /\ after = (anvilInstances s
                ++ [(p, {| port := p; pid := proc;
                           forkUrl := fork_url_of options |})])%list.
Proof.
  intros World ops port options s proc w1 chainId p after Hnew Hspawn Hok.
  subst after.
  rewrite (anvil_start_registers ops port options s proc w1 chainId
             Hnew Hspawn Hok).
  simpl. fold p. split; [apply Map_set_get|]. split.
  - intros q Hq. now apply Map_set_other.
  - apply Map_set_fresh, Map_has_false, Hnew.
Qed.

Lemma anvil_start_registers_instance_witness :
  Map_get (anvilInstances
             (snd (anvil_start Scenario.scripted None
                     [("fork-url", VString "http://node")] Scenario.alive)))
          8545
  = Some {| port := 8545; pid := 4242; forkUrl := Some "http://node" |}.
Proof.
  exact (proj1 (anvil_start_registers_instance _ Scenario.scripted None
                  [("fork-url", VString "http://node")] Scenario.alive
                  4242 _ (Some (JString "0x7a69")) eq_refl eq_refl eq_refl)).
Defined.

(** X10. A successful start followed by a stop of the same port gives
    back the registry as it was before the start, whether or not the
    signal could be delivered; the signal is sent to the process the
    start spawned. *)
Theorem start_then_stop :
  forall (World : Type) (ops : world_ops World)
         (port : option Z) (options : object value) (s : state World)
         (proc : Z) (w1 : World) (chainId : option json),
    let p := default_port port in
    let started := snd (anvil_start ops port options s) in
    let stopped := snd (anvil_stop ops port started) in
    Map_has (anvilInstances s) p = false ->
    Bun_spawn _ ops (anvil_argv p options) default_options (world s)
    = (Normal proc, w1) ->
    rpc_outcome (fst (fetch _ ops (probe p) (setTimeout _ ops 1000 w1)))
    = Normal chainId ->
    anvilInstances stopped = anvilInstances s
    /\ exists answer,
        trace stopped
        = (trace started ++ [ProcessKilled proc "SIGTERM" answer])%list.
Proof.
  intros World ops port options s proc w1 chainId p started stopped
         Hnew Hspawn Hok.
  subst stopped started.
  rewrite (anvil_start_registers ops port options s proc w1 chainId
             Hnew Hspawn Hok).
  fold p. cbn [snd].
  erewrite anvil_stop_run by (cbn [anvilInstances]; apply Map_set_get).
  cbn [snd anvilInstances trace pid]. split.
  - apply Map_delete_set_fresh, Map_has_false, Hnew.
  - eexists. reflexivity.
Qed.

Lemma start_then_stop_witness :
  anvilInstances
    (snd (anvil_stop Scenario.scripted None
            (snd (anvil_start Scenario.scripted None [] Scenario.alive))))
  = [].
Proof.
  exact (proj1 (start_then_stop _ Scenario.scripted None [] Scenario.alive
                  4242 _ (Some (JString "0x7a69")) eq_refl eq_refl eq_refl)).
Defined.

Section OnlyShrinks.
Context {World : Type} (ops : world_ops World) (before : Map).

Let within (m : Map) : Prop := incl m before.

Lemma keeps_delete_within p : keeps within (@delete_instance World p).
Proof.
  intros s H. simpl. eapply incl_tran; [apply Map_delete_incl|exact H].
Qed.

Ltac within_step :=
  first [ solve [auto with keeps]
        | apply keeps_delete_within
        | apply keeps_bind; [|intro]
        | apply keeps_try_catch; [|intro]
        | unfold kill ].

Lemma keeps_within_stop port : keeps within (anvil_stop ops port).
Proof.
  unfold anvil_stop. apply keeps_bind; [auto with keeps|intros m].
  destruct (Map_get m (default_port port)); [|auto with keeps].
  repeat within_step.
Qed.

Lemma keeps_within_loop entries :
  forall statuses, keeps within (status_loop ops entries statuses).
Proof.
  induction entries as [|[p i] entries IH]; intros statuses; simpl.
  - auto with keeps.
  - apply keeps_bind; [|intro; apply IH]. repeat within_step.
Qed.

Lemma keeps_within_status port : keeps within (anvil_status ops port).
Proof.
  assert (Hall : keeps within (anvil_status_all ops)).
  { unfold anvil_status_all. apply keeps_bind; [auto with keeps|intros m].
    destruct (Map_size m =? 0); [auto with keeps|].
    apply keeps_bind; [apply keeps_within_loop|auto with keeps]. }
  unfold anvil_status. destruct port as [p|]; [|exact Hall].
  destruct (negb (p =? 0)); [|exact Hall].
  unfold anvil_status_port. apply keeps_bind; [auto with keeps|intros m].
  destruct (Map_get m p); repeat within_step.
Qed.

End OnlyShrinks.

(** X11. [anvil_stop] and [anvil_status] never add an entry to the
    registry nor change one: every entry they leave was there before, in
    both forms of the status and however the probes and the signal
    fare. *)
Theorem stop_and_status_only_remove :
  forall (World : Type) (ops : world_ops World)
         (port : option Z) (s : state World),
    incl (anvilInstances (snd (anvil_stop ops port s))) (anvilInstances s)
    /\ incl (anvilInstances (snd (anvil_status ops port s)))
            (anvilInstances s).
Proof.
  intros World ops port s. split.
  - apply (keeps_within_stop ops (anvilInstances s) port s), incl_refl.
  - apply (keeps_within_status ops (anvilInstances s) port s), incl_refl.
Qed.


(** ** Node control, continued *)

Section ControlMore.
Context {World : Type} (ops : world_ops World) (context : ToolContext).


(** A balance that is neither prefixed nor an integer literal: the tool
    answers before any call. *)
Lemma anvil_setBalance_invalid address balance rpcUrl (s : state World) :
  startsWith balance "0x" = false ->
  StringToBigInt balance = None ->
  anvil_setBalance ops context address balance rpcUrl s
  = (Normal (textContent ("Error setting balance: "
                          ++ describe bigint_syntax_error)), s).
Proof.
  intros Hprefix Hparse. unfold anvil_setBalance, hexBalance_of.
  rewrite Hprefix, Hparse. reflexivity.
Qed.


End ControlMore.


Section ForeignFacts.
Variable c : ascii.
Hypothesis Hforeign : foreign c = true.

Lemma foreign_not_space : is_white_space c = false.
Proof.
  unfold foreign in Hforeign. now destruct (is_white_space c).
Qed.

Lemma foreign_not_digit (radix : N) : digit_of radix c = None.
Proof.
  assert (H : digit_of 36 c = None).
  { unfold foreign in Hforeign. destruct (digit_of 36 c); [|reflexivity].
    now rewrite !andb_false_r in Hforeign. }
  revert H. unfold digit_of.
  destruct ((48 <=? N_of_ascii c) && (N_of_ascii c <=? 57))%N eqn:E1.
  { apply andb_true_iff in E1. destruct E1 as [_ E1].
    apply N.leb_le in E1.
    destruct (N.ltb_spec (N_of_ascii c - 48) 36); [discriminate|lia]. }
  destruct ((97 <=? N_of_ascii c) && (N_of_ascii c <=? 122))%N eqn:E2.
  { apply andb_true_iff in E2. destruct E2 as [_ E2].
    apply N.leb_le in E2.
    destruct (N.ltb_spec (N_of_ascii c - 87) 36); [discriminate|lia]. }
  destruct ((65 <=? N_of_ascii c) && (N_of_ascii c <=? 90))%N eqn:E3.
  { apply andb_true_iff in E3. destruct E3 as [_ E3].
    apply N.leb_le in E3.
    destruct (N.ltb_spec (N_of_ascii c - 55) 36); [discriminate|lia]. }
  reflexivity.
Qed.

Lemma foreign_neq (d : ascii) : foreign d = false -> c <> d.
Proof. intros Hd ->. congruence. Qed.

Lemma foreign_trimStart (s : string) :
  In c (chars s) -> In c (chars (trimStart s)).
Proof.
  unfold chars. induction s as [|d s IH]; simpl; [trivial|].
  destruct (is_white_space d) eqn:E; [|trivial].
  intros [->|Hin]; [|now apply IH].
  rewrite foreign_not_space in E. discriminate.
Qed.

Lemma foreign_trimEnd (s : string) :
  In c (chars s) -> In c (chars (trimEnd s)).
Proof.
  unfold chars. induction s as [|d s IH]; [trivial|].
  cbn [list_ascii_of_string trimEnd]. intros [->|Hin].
  - destruct (trimEnd s); [rewrite foreign_not_space|]; now left.
  - specialize (IH Hin). destruct (trimEnd s); [destruct IH|now right].
Qed.

Lemma foreign_skip_zeros (s : string) :
  In c (chars s) -> In c (chars (skip_zeros s)).
Proof.
  unfold chars. induction s as [|d s IH]; simpl; [trivial|].
  destruct (Ascii.eqb_spec d "0") as [->|Hd]; [|trivial].
  intros [<-|Hin]; [discriminate Hforeign|now apply IH].
Qed.

Lemma foreign_digits_value (radix : N) (s : string) :
  In c (chars s) -> forall acc, digits_value radix s acc = None.
Proof.
  unfold chars. induction s as [|d s IH]; simpl; [intros []|].
  intros [->|Hin] acc.
  - now rewrite foreign_not_digit.
  - destruct (digit_of radix d); [now apply IH|reflexivity].
Qed.

Lemma foreign_digits (radix : N) (allow_empty : bool) (s : string) :
  In c (chars s) -> digits radix allow_empty s = None.
Proof.
  intros Hin. unfold digits.
  rewrite (foreign_digits_value radix (trimEnd (skip_zeros s)))
    by now apply foreign_trimEnd, foreign_skip_zeros.
  now destruct (negb allow_empty && String.eqb s EmptyString).
Qed.

Lemma foreign_signed_decimal (t : string) :
  In c (chars t) -> signed_decimal t = None.
Proof.
  intros Hin. destruct t as [|d t]; [destruct Hin|].
  cbn [signed_decimal].
  destruct (Ascii.eqb_spec d "+") as [->|Hplus];
    [|destruct (Ascii.eqb_spec d "-") as [->|Hminus]].
  - destruct Hin as [<-|Hin]; [discriminate Hforeign|].
    now apply foreign_digits.
  - destruct Hin as [<-|Hin]; [discriminate Hforeign|].
    now rewrite foreign_digits.
  - now apply foreign_digits.
Qed.

(** A text that holds such a character is no [BigInt] literal. *)
Lemma foreign_StringToBigInt (s : string) :
  In c (chars s) -> StringToBigInt s = None.
Proof.
  intros Hin. apply foreign_trimStart in Hin. unfold StringToBigInt.
  cbv zeta. destruct (trimStart s) as [|d [|e t]].
  - destruct Hin.
  - now apply foreign_signed_decimal.
  - destruct (Ascii.eqb_spec d "0") as [->|Hd];
      [|now apply foreign_signed_decimal].
    destruct (radix_of e) as [radix|] eqn:Hradix;
      [|now apply foreign_signed_decimal].
    apply foreign_digits.
    destruct Hin as [<-|[Hec|Hin]]; [discriminate Hforeign| |exact Hin].
    exfalso. subst e. revert Hradix. generalize Hforeign.
    unfold radix_of, foreign.
    destruct (Ascii.eqb_spec c "b") as [->|_]; [discriminate|].
    destruct (Ascii.eqb_spec c "B") as [->|_]; [discriminate|].
    destruct (Ascii.eqb_spec c "x") as [->|_]; [discriminate|].
    destruct (Ascii.eqb_spec c "X") as [->|_]; [discriminate|].
    destruct (Ascii.eqb_spec c "o") as [->|_]; [discriminate|].
    destruct (Ascii.eqb_spec c "O") as [->|_]; discriminate.
Qed.

End ForeignFacts.

(** X13. [anvil_setBalance] refuses, without any request to the node, a
    balance that has no [0x] prefix and holds a character no integer
    literal can hold (any character that is not white space, a sign, a
    letter or a digit; a decimal point, say): the answer is the error of
    the conversion and the state is unchanged. *)
Theorem anvil_setBalance_refuses :
  forall (World : Type) (ops : world_ops World) (context : ToolContext)
         (address balance : string) (rpcUrl : option string)
         (s : state World) (c : ascii),
    startsWith balance "0x" = false ->
    In c (chars balance) ->
    foreign c = true ->
    anvil_setBalance ops context address balance rpcUrl s
    = (Normal (textContent
         "Error setting balance: Failed to parse String to BigInt"), s).
Proof.
  intros World ops context address balance rpcUrl s c Hprefix Hin Hforeign.
  apply anvil_setBalance_invalid; [exact Hprefix|].
  now apply (foreign_StringToBigInt c).
Qed.

(** One and a half ether, written with a decimal point. *)
Lemma anvil_setBalance_refuses_witness :
  anvil_setBalance Scenario.scripted Scenario.no_context Scenario.account
                   "1.5" None Scenario.idle
  = (Normal (textContent
       "Error setting balance: Failed to parse String to BigInt"),
     Scenario.idle).
Proof.
  refine (anvil_setBalance_refuses _ Scenario.scripted Scenario.no_context
            Scenario.account "1.5" None Scenario.idle "." eq_refl _ eq_refl).
  right. left. reflexivity.
Defined.

(** X14. [anvil_reset] sends a [forking] member only for a fork URL: a
    block number given without one is ignored altogether (the tool behaves
    as if it were absent, and the parameter is the empty object); given
    with one, it is sent inside [forking], after the URL. *)
Theorem anvil_reset_parameters :
  forall (World : Type) (ops : world_ops World) (context : ToolContext)
         (forkUrl : option string) (blockNumber : option Z)
         (rpcUrl : option string),
    (or_else forkUrl None = None ->
     Control.anvil_reset ops context forkUrl blockNumber rpcUrl
     = Control.anvil_reset ops context forkUrl None rpcUrl
     /\ JSON_stringify (Control.reset_params forkUrl blockNumber) = "{}"
     /\ Control.reset_text forkUrl blockNumber = "Reset to empty state")
    /\ (forall u b,
           forkUrl = Some u -> u <> EmptyString ->
           blockNumber = Some b -> b <> 0 ->
           Control.reset_params forkUrl blockNumber
           = JObject [("forking",
                       JObject [("jsonRpcUrl", JString u);
                                ("blockNumber", JNumber b)])]
           /\ Control.reset_text forkUrl blockNumber
              = ("Reset fork to " ++ u ++ " at block "
                 ++ String_of_number b)%string).
Proof.
  intros World ops context forkUrl blockNumber rpcUrl.
  unfold Control.anvil_reset, Control.reset_params, Control.reset_text.
  split.
  - intros Hnone. destruct forkUrl as [[|c u]|]; simpl in *;
      try discriminate; repeat split.
  - intros u b -> Hu -> Hb. destruct u as [|c u]; [contradiction|].
    replace (negb (b =? 0)) with true
      by (symmetry; apply negb_true_iff, Z.eqb_neq, Hb).
    split; reflexivity.
Qed.

(** A block number, and a fork URL that is the empty string. *)
Lemma anvil_reset_parameters_witness :
  Control.anvil_reset Scenario.scripted Scenario.no_context
                      (Some EmptyString) (Some 19000000) None
  = Control.anvil_reset Scenario.scripted Scenario.no_context
                        (Some EmptyString) None None
  /\ Control.reset_params (Some "https://eth.example") (Some 19000000)
     = JObject [("forking",
                 JObject [("jsonRpcUrl", JString "https://eth.example");
                          ("blockNumber", JNumber 19000000)])].
Proof.
  pose proof (anvil_reset_parameters _ Scenario.scripted Scenario.no_context
                (Some EmptyString) (Some 19000000) None) as [Hdrop _].
  pose proof (anvil_reset_parameters _ Scenario.scripted Scenario.no_context
                (Some "https://eth.example") (Some 19000000) None) as [_ Hfork].
  split.
  - exact (proj1 (Hdrop eq_refl)).
  - refine (proj1 (Hfork _ _ eq_refl _ eq_refl _)); discriminate.
Defined.


(** ** The documentation cache *)

Section DocsFacts.
Import Docs.
Context {World : Type} (ops : docs_ops World).

Lemma snoc_neq {A : Type} (l : list A) (x : A) : (l ++ [x])%list <> l.
Proof.
  intros H. apply (f_equal (@List.length A)) in H.
  rewrite length_app in H. simpl in H. lia.
Qed.

(** The [try] block with a cache to fall back on. *)
Lemma refresh_cached (s : state World) (c : cache) :
  docsCache s = Some c ->
  exists c' w',
    refresh ops s
    = (Normal (content c'),
       {| world := w'; docsCache := Some c';
          fetched := fetched s ++ [FOUNDRY_DOCS_URL] |}).
Proof.
  intros Hc. unfold refresh, or_stale.
  destruct (fetch World ops FOUNDRY_DOCS_URL (world s)) as [[r|e] w1];
    cbn [docsCache fetched world].
  - destruct (negb (ok r)); cbn [docsCache fetched world].
    + rewrite Hc. now exists c, w1.
    + destruct (text r) as [body|e]; cbn [docsCache fetched world].
      * destruct (Date_now World ops w1) as [t w2].
        now exists {| content := body; timestamp := t |}, w2.
      * rewrite Hc. now exists c, w1.
  - rewrite Hc. now exists c, w1.
Qed.

(** The [try] block hands out what the cache then holds. *)
Lemma refresh_serves_cache (s : state World) (body : string) :
  fst (refresh ops s) = Normal body ->
  exists c, docsCache (snd (refresh ops s)) = Some c /\ content c = body.
Proof.
  unfold refresh, or_stale.
  destruct (fetch World ops FOUNDRY_DOCS_URL (world s)) as [[r|e] w1];
    cbn [docsCache fetched world].
  - destruct (negb (ok r)); cbn [docsCache fetched world].
    + destruct (docsCache s) as [c|]; simpl; [|discriminate].
      intros [= <-]. now exists c.
    + destruct (text r) as [b|e]; cbn [docsCache fetched world].
      * destruct (Date_now World ops w1) as [t w2]. simpl.
        intros [= <-]. now eexists.
      * destruct (docsCache s) as [c|]; simpl; [|discriminate].
        intros [= <-]. now exists c.
  - destruct (docsCache s) as [c|]; simpl; [|discriminate].
    intros [= <-]. now exists c.
Qed.

Lemma refresh_fetched (s : state World) :
  fetched (snd (refresh ops s)) = (fetched s ++ [FOUNDRY_DOCS_URL])%list.
Proof.
  unfold refresh, or_stale.
  destruct (fetch World ops FOUNDRY_DOCS_URL (world s)) as [[r|e] w1];
    cbn [docsCache fetched world].
  - destruct (negb (ok r)); cbn [docsCache fetched world].
    + now destruct (docsCache s).
    + destruct (text r) as [b|e]; cbn [docsCache fetched world].
      * now destruct (Date_now World ops w1).
      * now destruct (docsCache s).
  - now destruct (docsCache s).
Qed.

Lemma refresh_keeps_cache (s : state World) :
  docsCache s <> None -> docsCache (snd (refresh ops s)) <> None.
Proof.
  intros Hc. destruct (docsCache s) as [c|] eqn:E; [|contradiction].
  destruct (refresh_cached s c E) as (c' & w' & ->). discriminate.
Qed.

Lemma fetchDocs_fetched (s : state World) :
  fetched (snd (fetchDocs ops s)) = fetched s
  \/ fetched (snd (fetchDocs ops s))
     = (fetched s ++ [FOUNDRY_DOCS_URL])%list.
Proof.
  unfold fetchDocs. destruct (docsCache s) as [c|].
  - destruct (Date_now World ops (world s)) as [t w1].
    destruct (t - timestamp c <? CACHE_TTL).
    + now left.
    + right. now rewrite refresh_fetched.
  - right. apply refresh_fetched.
Qed.

Lemma fetchDocs_keeps_cache (s : state World) :
  docsCache s <> None -> docsCache (snd (fetchDocs ops s)) <> None.
Proof.
  intros Hc. unfold fetchDocs. destruct (docsCache s) as [c|] eqn:E;
    [|contradiction].
  destruct (Date_now World ops (world s)) as [t w1].
  destruct (t - timestamp c <? CACHE_TTL).
  - simpl. discriminate.
  - apply refresh_keeps_cache. simpl. discriminate.
Qed.

Lemma foundry_docs_state (s : state World) :
  snd (foundry_docs ops s) = snd (fetchDocs ops s).
Proof.
  unfold foundry_docs. now destruct (fetchDocs ops s) as [[body|e] s'].
Qed.

End DocsFacts.

(** X15. Whatever [fetchDocs] returns is what the cache holds when it
    returns: fresh, refreshed or stale, the content served and the content
    cached are the same. *)
Theorem fetchDocs_serves_cache :
  forall (World : Type) (ops : Docs.docs_ops World) (s : Docs.state World)
         (body : string),
    fst (Docs.fetchDocs ops s) = Normal body ->
    exists c,
      Docs.docsCache (snd (Docs.fetchDocs ops s)) = Some c
      /\ Docs.content c = body.
Proof.
  intros World ops s body. unfold Docs.fetchDocs.
  destruct (Docs.docsCache s) as [c|] eqn:E.
  - destruct (Docs.Date_now World ops (Docs.world s)) as [t w1].
    destruct (t - Docs.timestamp c <? Docs.CACHE_TTL).
    + simpl. intros [= <-]. now exists c.
    + apply refresh_serves_cache.
  - apply refresh_serves_cache.
Qed.

(** A first read that succeeds. *)
Lemma fetchDocs_serves_cache_witness :
  exists c,
    Docs.docsCache
      (snd (Docs.fetchDocs DocsScenario.scripted
              (Docs.initial
                 {| DocsScenario.readings := [5000];
                    DocsScenario.answers := [DocsScenario.page "# Book"] |})))
    = Some c
    /\ Docs.content c = "# Book".
Proof.
  exact (fetchDocs_serves_cache _ DocsScenario.scripted
           (Docs.initial
              {| DocsScenario.readings := [5000];
                 DocsScenario.answers := [DocsScenario.page "# Book"] |})
           "# Book" eq_refl).
Defined.

(** X16. Once the cache is filled, [fetchDocs] never throws and never
    empties it; it goes to the network exactly when the cached copy is an
    hour old or older (3 600 000 ms, the bound excluded from the fresh
    side), and a copy younger than that is served as it is. *)
Theorem fetchDocs_with_cache :
  forall (World : Type) (ops : Docs.docs_ops World) (s : Docs.state World)
         (c : Docs.cache),
    Docs.docsCache s = Some c ->
    let age := fst (Docs.Date_now World ops (Docs.world s))
               - Docs.timestamp c in
    exists c' s',
      Docs.fetchDocs ops s = (Normal (Docs.content c'), s')
      /\ Docs.docsCache s' = Some c'
      /\ (age < 3600000 -> c' = c /\ Docs.fetched s' = Docs.fetched s)
      /\ (3600000 <= age ->
          Docs.fetched s'
          = (Docs.fetched s ++ [Docs.FOUNDRY_DOCS_URL])%list).
Proof.
  intros World ops s c Hc age. subst age. unfold Docs.fetchDocs. rewrite Hc.
  destruct (Docs.Date_now World ops (Docs.world s)) as [t w1]. simpl fst.
  change Docs.CACHE_TTL with 3600000.
  destruct (t - Docs.timestamp c <? 3600000) eqn:Hage.
  - apply Z.ltb_lt in Hage. do 2 eexists. split; [reflexivity|].
    cbn [Docs.docsCache Docs.fetched]. repeat split; lia.
  - apply Z.ltb_ge in Hage.
    destruct (refresh_cached ops
                {| Docs.world := w1; Docs.docsCache := Some c;
                   Docs.fetched := Docs.fetched s |} c eq_refl)
      as (c' & w' & Hrun).
    rewrite Hrun. do 2 eexists. split; [reflexivity|].
    cbn [Docs.docsCache Docs.fetched]. repeat split; lia.
Qed.

(** A copy aged exactly one hour, and a network that is down. *)
Lemma fetchDocs_with_cache_witness :
  exists c' s',
    Docs.fetchDocs DocsScenario.scripted
      (DocsScenario.cached
         {| DocsScenario.readings := [3601000];
            DocsScenario.answers := [DocsScenario.offline] |})
    = (Normal (Docs.content c'), s')
    /\ Docs.docsCache s' = Some c'
    /\ (3601000 - 1000 < 3600000 -> c' = {| Docs.content := "# Foundry";
                                            Docs.timestamp := 1000 |}
                                    /\ Docs.fetched s' = [])
    /\ (3600000 <= 3601000 - 1000 ->
        Docs.fetched s' = [Docs.FOUNDRY_DOCS_URL]).
Proof.
  exact (fetchDocs_with_cache _ DocsScenario.scripted
           (DocsScenario.cached
              {| DocsScenario.readings := [3601000];
                 DocsScenario.answers := [DocsScenario.offline] |})
           _ eq_refl).
Defined.

(** X17. Over any number of reads of [foundry://docs] from start-up, the
    only URL ever fetched is the documentation URL, at most once per read;
    and a cache that is filled stays filled. *)
Theorem docs_reads_fetch_only_docs :
  forall (World : Type) (ops : Docs.docs_ops World) (n : nat)
         (s : Docs.state World),
    let s' := Docs.read_times ops n s in
    (exists k, (k <= n)%nat
               /\ Docs.fetched s'
                  = (Docs.fetched s ++ repeat Docs.FOUNDRY_DOCS_URL k)%list)
    /\ (Docs.docsCache s <> None -> Docs.docsCache s' <> None).
Proof.
  intros World ops n. induction n as [|n IH]; intros s; cbn zeta.
  - split; [|trivial]. exists 0%nat. simpl. now rewrite app_nil_r.
  - cbn [Docs.read_times].
    specialize (IH (snd (Docs.foundry_docs ops s))). cbn zeta in IH.
    destruct IH as [(k & Hk & Hf) Hcache].
    rewrite foundry_docs_state in *. split.
    + destruct (fetchDocs_fetched ops s) as [H|H]; rewrite H in Hf.
      * exists k. split; [lia|exact Hf].
      * exists (S k). split; [lia|]. rewrite Hf, <- app_assoc. reflexivity.
    + intros Hc. apply Hcache, fetchDocs_keeps_cache, Hc.
Qed.

(** X18. A first read that fails is answered with the fallback text, not
    an error, and nothing is cached, so the next read tries again: the
    text names the network failure, or the HTTP status of a response that
    is not [ok]. *)
Theorem foundry_docs_failure_not_cached :
  forall (World : Type) (ops : Docs.docs_ops World) (s : Docs.state World),
    Docs.docsCache s = None ->
    let answer := fst (Docs.fetch World ops Docs.FOUNDRY_DOCS_URL
                                  (Docs.world s)) in
    let fallback (reason : string) :=
      ("Failed to fetch documentation: " ++ reason ++ LF ++ LF
       ++ "You can access the documentation directly at:" ++ LF
       ++ "- Full LLM docs: https://getfoundry.sh/llms-full.txt" ++ LF
       ++ "- Web docs: https://getfoundry.sh")%string in
    forall reason,
      (exists error, answer = Abrupt error /\ reason = describe error)
      \/ (exists r, answer = Normal r /\ Docs.ok r = false
                    /\ reason = ("Failed to fetch docs: "
                                 ++ String_of_number (Docs.status r))%string) ->
      Docs.body (fst (Docs.foundry_docs ops s)) = fallback reason
      /\ Docs.docsCache (snd (Docs.foundry_docs ops s)) = None
      /\ Docs.fetched (snd (Docs.foundry_docs ops s))
         = (Docs.fetched s ++ [Docs.FOUNDRY_DOCS_URL])%list.
Proof.
  intros World ops s Hc answer fallback reason Hreason.
  subst answer fallback.
  unfold Docs.foundry_docs, Docs.fetchDocs, Docs.refresh, Docs.or_stale.
  rewrite Hc.
  destruct (Docs.fetch World ops Docs.FOUNDRY_DOCS_URL (Docs.world s))
    as [answer w1].
  simpl fst in Hreason.
  destruct Hreason as [(error & -> & ->)|(r & -> & Hok & ->)].
  - simpl. auto.
  - rewrite Hok. simpl. auto.
Qed.

(** A server that answers 503 on the first read. *)
Lemma foundry_docs_failure_not_cached_witness :
  Docs.body
    (fst (Docs.foundry_docs DocsScenario.scripted
            (Docs.initial
               {| DocsScenario.readings := [];
                  DocsScenario.answers := [DocsScenario.unavailable] |})))
  = ("Failed to fetch documentation: Failed to fetch docs: 503" ++ LF ++ LF
     ++ "You can access the documentation directly at:" ++ LF
     ++ "- Full LLM docs: https://getfoundry.sh/llms-full.txt" ++ LF
     ++ "- Web docs: https://getfoundry.sh")%string.
Proof.
  refine (proj1 (foundry_docs_failure_not_cached _ DocsScenario.scripted
                   (Docs.initial
                      {| DocsScenario.readings := [];
                         DocsScenario.answers := [DocsScenario.unavailable] |})
                   eq_refl "Failed to fetch docs: 503" _)).
  right. eexists. repeat split.
Defined.


(** ** The help tools *)

Section SplitFacts.
Variable c : ascii.

Lemma split_not_nil (s : string) : Help.split c s <> [].
Proof.
  destruct s as [|d rest]; simpl; [discriminate|].
  destruct (Ascii.eqb d c); [discriminate|].
  destruct (Help.split c rest); discriminate.
Qed.

Lemma concat_cons_char (d : ascii) (sep piece : string)
      (pieces : list string) :
  String.concat sep (String d piece :: pieces)
  = String d (String.concat sep (piece :: pieces)).
Proof. simpl. destruct pieces; reflexivity. Qed.

Lemma join_split (s : string) :
  join (String c EmptyString) (Help.split c s) = s.
Proof.
  unfold join. induction s as [|d rest IH]; [reflexivity|].
  cbn [Help.split]. destruct (Ascii.eqb d c) eqn:E.
  - apply Ascii.eqb_eq in E. subst d.
    destruct (Help.split c rest) as [|piece pieces] eqn:Hs.
    + now apply split_not_nil in Hs.
    + change (String.concat (String c EmptyString)
                            (EmptyString :: piece :: pieces))
        with (String c (String.concat (String c EmptyString)
                                      (piece :: pieces))).
      now rewrite IH.
  - destruct (Help.split c rest) as [|piece pieces] eqn:Hs.
    + now apply split_not_nil in Hs.
    + rewrite concat_cons_char, IH. reflexivity.
Qed.

Lemma split_pieces (s : string) :
  Forall (fun piece => ~ In c (chars piece)) (Help.split c s).
Proof.
  induction s as [|d rest IH]; cbn [Help.split].
  - constructor; [intros []|constructor].
  - destruct (Ascii.eqb d c) eqn:E.
    + constructor; [intros []|exact IH].
    + destruct (Help.split c rest) as [|piece pieces].
      * constructor; [|constructor].
        intros [->|[]]. now rewrite Ascii.eqb_refl in E.
      * inversion IH as [|? ? Hp Hps]; subst. constructor; [|exact Hps].
        intros [->|Hin]; [now rewrite Ascii.eqb_refl in E|now apply Hp].
Qed.

Lemma split_length (s : string) :
  List.length (Help.split c s) = S (occurrences c s).
Proof.
  unfold occurrences, chars.
  induction s as [|d rest IH]; cbn [Help.split list_ascii_of_string];
    [reflexivity|].
  destruct (Ascii.eqb d c) eqn:E.
  - apply Ascii.eqb_eq in E. subst d. rewrite count_occ_cons_eq by reflexivity.
    simpl. now rewrite IH.
  - assert (d <> c) as Hne
        by (intros ->; now rewrite Ascii.eqb_refl in E).
    rewrite count_occ_cons_neq by exact Hne. rewrite <- IH.
    destruct (Help.split c rest) as [|piece pieces] eqn:Hs;
      [now apply split_not_nil in Hs|reflexivity].
Qed.

End SplitFacts.

(** X19. A subcommand given to a help tool is cut at every single space:
    the pieces, joined again by spaces, are the subcommand; none holds a
    space; there is one more of them than spaces (so two spaces in a row
    pass an empty argument on); and [--help] comes last. *)
Theorem help_args_pieces :
  forall (subcommand : string),
    subcommand <> EmptyString ->
    exists pieces,
      Help.help_args (Some subcommand) = (pieces ++ ["--help"])%list
      /\ join " " pieces = subcommand
      /\ Forall (fun piece => ~ In " "%char (chars piece)) pieces
      /\ List.length pieces = S (occurrences " " subcommand).
Proof.
  intros subcommand Hsub. exists (Help.split " " subcommand).
  unfold Help.help_args.
  replace (truthy_string subcommand) with true
    by (destruct subcommand; [contradiction|reflexivity]).
  split; [reflexivity|]. split; [apply join_split|].
  split; [apply split_pieces|apply split_length].
Qed.

(** [forge_help] asked about [script  --sig]. *)
Lemma help_args_pieces_witness :
  exists pieces,
    Help.help_args (Some "script  --sig") = (pieces ++ ["--help"])%list
    /\ join " " pieces = "script  --sig"
    /\ Forall (fun piece => ~ In " "%char (chars piece)) pieces
    /\ List.length pieces = S (occurrences " " "script  --sig").
Proof.
  apply (help_args_pieces "script  --sig"). discriminate.
Defined.

Section ScanFacts.

Lemma word_chars (s : string) (c : ascii) :
  In c (chars (Help.word s)) -> is_white_space c = false.
Proof.
  unfold chars. induction s as [|d rest IH]; simpl; [intros []|].
  destruct (is_white_space d) eqn:E; simpl; [intros []|].
  intros [<-|Hin]; [exact E|now apply IH].
Qed.

Lemma indented_word_is_word (line w : string) :
  Help.indented_word line = Some w ->
  is_word w /\ exists c rest, line = String c rest /\ is_white_space c = true.
Proof.
  unfold Help.indented_word. destruct line as [|c rest]; [discriminate|].
  destruct (is_white_space c) eqn:E; [|discriminate].
  destruct (Help.word (trimStart rest)) as [|d found] eqn:Hw; [discriminate|].
  intros [= <-]. split.
  - split; [discriminate|]. intros a Ha. rewrite <- Hw in Ha.
    exact (word_chars _ _ Ha).
  - now exists c, rest.
Qed.

Lemma scan_found (lines : list string) :
  forall (flag : bool) (commands : list string) (w : string),
    In w (Help.scan lines flag commands) ->
    In w commands
    \/ exists line, In line lines /\ Help.indented_word line = Some w.
Proof.
  induction lines as [|line rest IH]; intros flag commands w; cbn [Help.scan].
  - now left.
  - assert (Hrest : forall flag',
               In w (Help.scan rest flag' commands) ->
               In w commands
               \/ exists l, In l (line :: rest)
                            /\ Help.indented_word l = Some w).
    { intros flag' Hin. destruct (IH _ _ _ Hin) as [H|(l & Hl & Hw)];
        [now left|right; exists l; split; [now right|exact Hw]]. }
    destruct (includes line "Commands:" || includes line "Subcommands:");
      [apply Hrest|].
    destruct flag; [|apply Hrest].
    destruct (String.eqb (trim line) EmptyString
              || startsWith line "Options:"); [apply Hrest|].
    destruct (Help.indented_word line) as [found|] eqn:Hfound;
      [|apply Hrest].
    intros Hin. destruct (IH _ _ _ Hin) as [H|(l & Hl & Hw)].
    + apply in_app_or in H. destruct H as [H|[<-|[]]]; [now left|].
      right. exists line. split; [now left|exact Hfound].
    + right. exists l. split; [now right|exact Hw].
Qed.

Lemma scan_no_header (lines : list string) :
  forall (commands : list string),
    (forall line, In line lines -> is_header line = false) ->
    Help.scan lines false commands = commands.
Proof.
  induction lines as [|line rest IH]; intros commands Hno; cbn [Help.scan];
    [reflexivity|].
  pose proof (Hno line (or_introl eq_refl)) as Hline.
  unfold is_header in Hline. rewrite Hline.
  apply IH. intros l Hl. apply Hno. now right.
Qed.

End ScanFacts.

(** X20. Every command [foundry_list_commands] lists is a word (not
    empty, free of white space), and it is the first word of a line of the
    help output that starts with white space. *)
Theorem listed_commands_are_words :
  forall (stdout w : string),
    In w (Help.parse_commands stdout) ->
    is_word w
    /\ exists line c rest,
        In line (Help.split (ascii_of_nat 10) stdout)
        /\ line = String c rest /\ is_white_space c = true
        /\ Help.word (trimStart rest) = w.
Proof.
  intros stdout w Hin. unfold Help.parse_commands in Hin.
  apply scan_found in Hin. destruct Hin as [[]|(line & Hline & Hw)].
  destruct (indented_word_is_word _ _ Hw) as [Hword (c & rest & -> & Hc)].
  split; [exact Hword|]. exists (String c rest), c, rest.
  repeat split; try assumption.
  unfold Help.indented_word in Hw. rewrite Hc in Hw.
  destruct (Help.word (trimStart rest)); [discriminate|].
  now injection Hw.
Qed.

(** The help of a tool with two commands. *)
Lemma listed_commands_are_words_witness :
  is_word "build"
  /\ exists line c rest,
      In line (Help.split (ascii_of_nat 10)
                 ("Usage: forge" ++ LF ++ "Commands:" ++ LF
                  ++ "  build  Build the project" ++ LF
                  ++ "  test   Run the tests" ++ LF ++ LF
                  ++ "Options:" ++ LF ++ "  -h  Print help"))
      /\ line = String c rest /\ is_white_space c = true
      /\ Help.word (trimStart rest) = "build".
Proof.
  apply (listed_commands_are_words
           ("Usage: forge" ++ LF ++ "Commands:" ++ LF
            ++ "  build  Build the project" ++ LF
            ++ "  test   Run the tests" ++ LF ++ LF
            ++ "Options:" ++ LF ++ "  -h  Print help") "build").
  vm_compute. now left.
Defined.

(** X21. A help output without a line holding [Commands:] or
    [Subcommands:] lists no command at all, however its lines are
    indented. *)
Theorem no_header_no_commands :
  forall (stdout : string),
    (forall line, In line (Help.split (ascii_of_nat 10) stdout) ->
                  is_header line = false) ->
    Help.parse_commands stdout = [].
Proof.
  intros stdout Hno. unfold Help.parse_commands.
  now apply scan_no_header.
Qed.

(** A help text whose header is written in capitals. *)
Lemma no_header_no_commands_witness :
  Help.parse_commands ("COMMANDS:" ++ LF ++ "  build" ++ LF ++ "  test") = [].
Proof.
  apply (no_header_no_commands
           ("COMMANDS:" ++ LF ++ "  build" ++ LF ++ "  test")).
  intros line Hin. vm_compute in Hin.
  destruct Hin as [<-|[<-|[<-|[]]]]; reflexivity.
Defined.

(** X22. The help tools never throw and leave the registry alone, and
    whatever subcommand they are given, the only programs they start are
    [forge], [cast], [anvil] or [chisel] with [--help] as the last
    argument. *)
Theorem help_tools_only_ask_for_help :
  forall (World : Type) (ops : world_ops World) (c : Help.call)
         (s : state World),
  exists text events w',
    Help.run ops c s
    = (Normal (textContent text),
       {| world := w'; anvilInstances := anvilInstances s;
          trace := trace s ++ events |})
    /\ forall argv options answer,
        In (Spawned argv options answer) events ->
        exists program args,
          argv = (program :: args ++ ["--help"])%list
          /\ In program ["forge"; "cast"; "anvil"; "chisel"].
Proof.
  intros World ops c s.
  assert (Hargs : forall sub, exists args,
             Help.help_args sub = (args ++ ["--help"])%list).
  { intros [sub|]; unfold Help.help_args; [|now exists []].
    destruct (truthy_string sub); [now eexists|now exists []]. }
  assert (Hexec : forall program args (k : CommandResult -> string),
             In program ["forge"; "cast"; "anvil"; "chisel"] ->
             exists text events w',
               bind (exec ops program (args ++ ["--help"]) None)
                    (fun result => ret (textContent (k result))) s
               = (Normal (textContent text),
                  {| world := w'; anvilInstances := anvilInstances s;
                     trace := trace s ++ events |})
               /\ forall argv options answer,
                   In (Spawned argv options answer) events ->
                   exists program args,
                     argv = (program :: args ++ ["--help"])%list
                     /\ In program ["forge"; "cast"; "anvil"; "chisel"]).
  { intros program args k Hprogram.
    destruct (exec_run ops program (args ++ ["--help"])%list None s)
      as (r & events & w' & Hrun & _ & Hargv & _).
    unfold bind. rewrite Hrun. exists (k r), events, w'.
    split; [reflexivity|]. intros argv options answer Hin.
    exists program, args. split; [exact (Hargv _ _ _ Hin)|exact Hprogram]. }
  destruct c as [sub|sub|  |sub|t]; simpl.
  - unfold Help.forge_help. destruct (Hargs sub) as [args ->].
    apply (Hexec "forge" args formatOutput). simpl; auto.
  - unfold Help.cast_help. destruct (Hargs sub) as [args ->].
    apply (Hexec "cast" args formatOutput). simpl; auto.
  - unfold Help.anvil_help.
    apply (Hexec "anvil" [] formatOutput). simpl; auto.
  - unfold Help.chisel_help. destruct (Hargs sub) as [args ->].
    apply (Hexec "chisel" args formatOutput). simpl; auto.
  - unfold Help.foundry_list_commands.
    assert (Hin : In (Help.tool_name t) ["forge"; "cast"; "anvil"; "chisel"])
      by (destruct t; simpl; auto).
    destruct (Hexec (Help.tool_name t) []
                (fun result =>
                   if negb (success result)
                   then ("Error: " ++ stderr result)%string
                   else Help.commands_text t
                          (Help.parse_commands (stdout result))) Hin)
      as (text & events & w' & Hrun & Hev).
    exists text, events, w'. split; [|exact Hev].
    rewrite <- Hrun. unfold bind. simpl.
    destruct (exec ops (Help.tool_name t) ["--help"] None s) as [[r|e] s'];
      [|reflexivity].
    destruct (negb (success r)); reflexivity.
Qed.


(** ** The REPL tools, continued *)

Section ChiselMore.
Import Chisel.
Context {World : Type} (ops : world_ops World) (context : ToolContext).

Ltac in_log :=
  intros; simpl in *;
  repeat match goal with
         | H : _ \/ _ |- _ => destruct H as [H|H]
         | H : False |- _ => destruct H
         | H : @eq event _ _ |- _ => inversion H; clear H; subst
         end.

Ltac close_run :=
  rewrite <- ?app_assoc; simpl;
  do 5 eexists; (split; [reflexivity|]);
  (split; [reflexivity|]);
  (split; [try reflexivity; eexists; reflexivity|]);
  split; in_log; try reflexivity.

Ltac clean_up w :=
  let w' := fresh "w" in
  let w'' := fresh "w" in
  let e := fresh "e" in
  destruct (Bun_file_exists _ ops _ w) as [[[|]|e] w']; simpl;
  [destruct (Bun_write _ ops _ _ w') as [[[]|e] w'']; simpl| |];
  close_run.

(** A run of [chisel_run] whose temporary file could be written. *)
Lemma chisel_run_events code forkUrl (s : state World) :
  let t := fst (Date_now _ ops (world s)) in
  fst (Bun_write _ ops (tmp_file t) code (snd (Date_now _ ops (world s))))
  = Normal tt ->
  exists c events w' probe tail,
    chisel_run ops context code forkUrl s
    = (c, {| world := w'; anvilInstances := anvilInstances s;
             trace := trace s ++ events |})
    /\ file_events events
       = FileWritten (tmp_file t) code (Normal tt)
         :: FileProbed (tmp_file t) probe :: tail
    /\ match probe with
       | Normal true =>
           exists emptied, tail = [FileWritten (tmp_file t) EmptyString emptied]
       | _ => tail = []
       end
    /\ (forall argv options error,
           In (Spawned argv options (Abrupt error)) events ->
           c = Abrupt error)
    /\ (forall pid out pid' code',
           In (PipesRead pid (Normal (out, EmptyString))) events ->
           In (Exited pid' (Normal code')) events ->
           c = Normal (textContent
                         (if truthy_string (trim out) then trim out
                          else "Code executed successfully"))).
Proof.
  intros t. subst t.
  unfold chisel_run. unfold bind at 1. unfold now.
  destruct (Date_now _ ops (world s)) as [t w0]; simpl fst; simpl snd.
  unfold bind at 1. unfold write_file at 1, perform at 1. simpl world.
  destruct (Bun_write _ ops (tmp_file t) code w0) as [[[]|e] w1];
    simpl fst; [intros _|discriminate].
  unfold try_finally, cleanup, try_catch, shell_options, bind, read_world,
    ret, spawn, pipes_text, await_exited, file_exists, write_file, perform.
  simpl.
  destruct (Bun_spawn _ ops _ _ w1) as [[proc|e] w2]; simpl.
  2:{ clean_up w2. }
  destruct (read_pipes _ ops proc w2) as [[[out err]|e] w3]; simpl.
  2:{ clean_up w3. }
  destruct (exited _ ops proc w3) as [[code'|e] w4]; simpl.
  2:{ clean_up w4. }
  destruct (negb (code' =? 0) && truthy_string err) eqn:Hreport; simpl.
  - assert (err <> EmptyString) as Herr.
    { intros ->. now rewrite andb_false_r in Hreport. }
    clean_up w4; contradiction.
  - clean_up w4.
Qed.

End ChiselMore.

(** X23. Once [chisel_run] has written its temporary file, it always
    looks for it again at the end, also when the shell could not be
    started (a failure it rethrows): the file is emptied when it is found,
    and any failure of this cleanup is ignored.  The file itself is never
    removed. *)
Theorem chisel_run_cleans_up :
  forall (World : Type) (ops : world_ops World) (context : ToolContext)
         (code : string) (forkUrl : option string) (s : state World),
    let tmpFile := Chisel.tmp_file (fst (Date_now _ ops (world s))) in
    fst (Bun_write _ ops tmpFile code (snd (Date_now _ ops (world s))))
    = Normal tt ->
    exists c events w' probe tail,
      Chisel.chisel_run ops context code forkUrl s
      = (c, {| world := w'; anvilInstances := anvilInstances s;
               trace := trace s ++ events |})
      /\ file_events events
         = FileWritten tmpFile code (Normal tt)
           :: FileProbed tmpFile probe :: tail
      /\ match probe with
         | Normal true =>
             exists emptied, tail = [FileWritten tmpFile EmptyString emptied]
         | _ => tail = []
         end
      /\ (forall argv options error,
             In (Spawned argv options (Abrupt error)) events ->
             c = Abrupt error).
Proof.
  intros World ops context code forkUrl s tmpFile Hwritten.
  destruct (chisel_run_events ops context code forkUrl s Hwritten)
    as (c & events & w' & probe & tail & Hrun & Hfiles & Htail & Hspawn & _).
  exists c, events, w', probe, tail. repeat split; assumption.
Qed.

(** A machine without bash: the error comes back, after the cleanup. *)
Lemma chisel_run_cleans_up_witness :
  exists c events w' probe tail,
    Chisel.chisel_run Scenario.scripted Scenario.no_context "1 + 1" None
                      (initial Scenario.nothing_installed)
    = (c, {| world := w'; anvilInstances := []; trace := [] ++ events |})
    /\ file_events events
       = FileWritten "/tmp/chisel_1700000000000.sol" "1 + 1" (Normal tt)
         :: FileProbed "/tmp/chisel_1700000000000.sol" probe :: tail
    /\ match probe with
       | Normal true =>
           exists emptied,
             tail = [FileWritten "/tmp/chisel_1700000000000.sol"
                                 EmptyString emptied]
       | _ => tail = []
       end
    /\ (forall argv options error,
           In (Spawned argv options (Abrupt error)) events ->
           c = Abrupt error).
Proof.
  exact (chisel_run_cleans_up _ Scenario.scripted Scenario.no_context
           "1 + 1" None (initial Scenario.nothing_installed) eq_refl).
Defined.

(** X24. [chisel_run] reports a failure only through the error stream: a
    run that leaves it empty is answered with the trimmed output, or with
    [Code executed successfully] when there is none, whatever the exit
    code. *)
Theorem chisel_run_quiet_failure :
  forall (World : Type) (ops : world_ops World) (context : ToolContext)
         (code : string) (forkUrl : option string) (s : state World),
    fst (Bun_write _ ops (Chisel.tmp_file (fst (Date_now _ ops (world s))))
                   code (snd (Date_now _ ops (world s))))
    = Normal tt ->
    exists c events w',
      Chisel.chisel_run ops context code forkUrl s
      = (c, {| world := w'; anvilInstances := anvilInstances s;
               trace := trace s ++ events |})
      /\ forall pid out pid' exitCode,
          In (PipesRead pid (Normal (out, EmptyString))) events ->
          In (Exited pid' (Normal exitCode)) events ->
          c = Normal (textContent
                        (if truthy_string (trim out) then trim out
                         else "Code executed successfully")).
Proof.
  intros World ops context code forkUrl s Hwritten.
  destruct (chisel_run_events ops context code forkUrl s Hwritten)
    as (c & events & w' & probe & tail & Hrun & _ & _ & _ & Hquiet).
  exists c, events, w'. split; assumption.
Qed.

(** A compiler failure printed on the output stream, exit code 1. *)
Lemma chisel_run_quiet_failure_witness :
  fst (Chisel.chisel_run Scenario.scripted Scenario.no_context
         "uint x = ;" None (initial Cases.failing_quietly))
  = Normal (textContent "Compiler run failed").
Proof.
  destruct (chisel_run_quiet_failure _ Scenario.scripted Scenario.no_context
              "uint x = ;" None (initial Cases.failing_quietly) eq_refl)
    as (c & events & w' & Hrun & Hquiet).
  rewrite Hrun. simpl fst.
  apply (Hquiet 4242 ("Compiler run failed" ++ LF)%string 4242 1);
    vm_compute in Hrun; inversion Hrun; subst; simpl; auto 6.
Defined.


(** ** The Cast tools *)

Lemma set_get_same {A : Type} (o : object A) k v :
  get o k = Some v -> set o k v = o.
Proof.
  induction o as [|[k0 v0] o IH]; simpl; [discriminate|].
  destruct (String.eqb_spec k0 k) as [->|Hne].
  - now intros [= ->].
  - intros H. now rewrite IH.
Qed.

Lemma falsy_or_undefined (a b : option string) :
  falsy a -> Cast.or_undefined a b = b.
Proof. now intros [->| ->]. Qed.

(** X25. For the options of a tool schema (distinct named keys), the Cast
    tools pass the endpoint on as follows: when the client names none,
    the tokens of the options are followed by [--rpc-url] and the
    context's URL, or by nothing when the context has none; when the
    client names one, the options go through as they are and the context
    is not looked at. *)
Theorem cast_rpc_url_tokens :
  forall (context : Cast.ToolContext) (options : object value),
    named_options options ->
    (get options "rpc-url" = None ->
     buildArgs (Cast.with_rpc_url options context)
     = (buildArgs options
        ++ match Cast.rpcUrl context with
           | Some u => ["--rpc-url"; u]
           | None => []
           end)%list)
    /\ (forall u,
           get options "rpc-url" = Some (VString u) -> u <> EmptyString ->
           Cast.with_rpc_url options context = options).
Proof.
  intros context options [Hnd Hnamed]. split.
  - intros Habsent. unfold Cast.with_rpc_url, Cast.text_option.
    rewrite Habsent. unfold Cast.getRpcUrl, Cast.or_undefined.
    rewrite set_fresh by (now apply get_absent).
    rewrite !buildArgs_flat_map.
    rewrite (Object_entries_named options Hnamed).
    rewrite Object_entries_named.
    + rewrite flat_map_app. f_equal. simpl.
      destruct (Cast.rpcUrl context); reflexivity.
    + rewrite forallb_app, Hnamed. reflexivity.
  - intros u Hget Hu. unfold Cast.with_rpc_url, Cast.text_option.
    rewrite Hget. unfold Cast.getRpcUrl, Cast.or_undefined.
    replace (truthy_string u) with true
      by (destruct u; [contradiction|reflexivity]).
    now apply set_get_same.
Qed.

(** [cast_block] asked for JSON, on a server started with [RPC_URL]. *)
Lemma cast_rpc_url_tokens_witness :
  buildArgs (Cast.with_rpc_url
               [("json", VBoolean true)]
               {| Cast.rpcUrl := Some "http://localhost:8545";
                  Cast.privateKey := None; Cast.projectPath := None |})
  = ["--json"; "--rpc-url"; "http://localhost:8545"].
Proof.
  refine (proj1 (cast_rpc_url_tokens
                   {| Cast.rpcUrl := Some "http://localhost:8545";
                      Cast.privateKey := None; Cast.projectPath := None |}
                   [("json", VBoolean true)] _) eq_refl).
  split; [|reflexivity].
  constructor; [intros []|constructor].
Defined.

(** X26. Without a private key, in the request or in the context (absent
    or empty in both), the wallet tools start no program: they answer
    [Error: Private key is required] and leave the state as it is. *)
Theorem cast_wallet_requires_key :
  forall (World : Type) (ops : world_ops World) (context : Cast.ToolContext)
         (options : object value) (message : string) (s : state World),
    falsy (Cast.text_option options "private-key") ->
    falsy (Cast.privateKey context) ->
    Cast.cast_wallet_address ops context options s
    = (Normal (textContent "Error: Private key is required"), s)
    /\ Cast.cast_wallet_sign ops context message options s
       = (Normal (textContent "Error: Private key is required"), s).
Proof.
  intros World ops context options message s Hgiven Hcontext.
  unfold Cast.cast_wallet_address, Cast.cast_wallet_sign, Cast.getPrivateKey.
  rewrite (falsy_or_undefined _ _ Hgiven), (falsy_or_undefined _ _ Hcontext).
  split; reflexivity.
Qed.

(** An empty key in the request, none in the environment. *)
Lemma cast_wallet_requires_key_witness :
  Cast.cast_wallet_address Scenario.scripted
    {| Cast.rpcUrl := None; Cast.privateKey := None;
       Cast.projectPath := None |}
    [("private-key", VString EmptyString)] Scenario.idle
  = (Normal (textContent "Error: Private key is required"), Scenario.idle).
Proof.
  refine (proj1 (cast_wallet_requires_key _ Scenario.scripted
                   {| Cast.rpcUrl := None; Cast.privateKey := None;
                      Cast.projectPath := None |}
                   [("private-key", VString EmptyString)] "hello"
                   Scenario.idle _ _)).
  - right. reflexivity.
  - left. reflexivity.
Defined.

(** X27. [cast_estimate] passes call arguments on only behind a
    signature: without one (absent or empty) they are dropped, and the
    command is [cast estimate <to>] followed by the option tokens. *)
Theorem cast_estimate_drops_args :
  forall (World : Type) (ops : world_ops World) (context : Cast.ToolContext)
         (to : string) (sig : option string)
         (callArgs : option (list string)) (options : object value),
    falsy sig ->
    Cast.cast_estimate ops context to sig callArgs options
    = Cast.cast_estimate ops context to sig None options
    /\ forall baseArgs,
        Cast.estimate_args to sig callArgs baseArgs = to :: baseArgs.
Proof.
  intros World ops context to sig callArgs options Hsig.
  unfold Cast.cast_estimate, Cast.estimate_args.
  destruct Hsig as [->| ->]; split; reflexivity.
Qed.

(** Two arguments and no signature. *)
Lemma cast_estimate_drops_args_witness :
  Cast.estimate_args Scenario.account None (Some ["1"; "2"]) ["--json"]
  = [Scenario.account; "--json"].
Proof.
  refine (proj2 (cast_estimate_drops_args _ Scenario.scripted
                   {| Cast.rpcUrl := None; Cast.privateKey := None;
                      Cast.projectPath := None |}
                   Scenario.account None (Some ["1"; "2"]) [] _) ["--json"]).
  left. reflexivity.
Defined.

(** ** The patterns of the schemas *)

Section SchemaFacts.
Import Validation.

Lemma not_prefixed (s : string) :
  startsWith s "0x" = false ->
  addressSchema s = false /\ txHashSchema s = false
  /\ hexDataSchema s = false /\ privateKeySchema s = hex_exactly 64 s.
Proof.
  unfold startsWith, privateKeySchema.
  destruct s as [|c0 [|c1 rest]].
  - intros _. repeat split.
  - intros _. destruct c0 as [[|] [|] [|] [|] [|] [|] [|] [|]];
      repeat split; apply orb_false_r.
  - destruct c0 as [[|] [|] [|] [|] [|] [|] [|] [|]];
      try (intros _; repeat split; apply orb_false_r).
    destruct c1 as [[|] [|] [|] [|] [|] [|] [|] [|]];
      try (intros _; repeat split; apply orb_false_r).
    simpl. destruct rest; discriminate.
Qed.

Lemma prefixed (s : string) :
  startsWith s "0x" = true -> exists rest, s = String "0" (String "x" rest).
Proof.
  unfold startsWith.
  destruct s as [|c0 [|c1 rest]]; cbn [String.prefix].
  - discriminate.
  - destruct (ascii_dec "0" c0); discriminate.
  - destruct (ascii_dec "0" c0) as [<-|]; [|discriminate].
    destruct (ascii_dec "x" c1) as [<-|]; [|discriminate].
    intros _. now exists rest.
Qed.

Lemma prefixed_not_hex (n : nat) (rest : string) :
  hex_exactly n (String "0" (String "x" rest)) = false.
Proof.
  unfold hex_exactly. cbn [all].
  change (is_hex "x") with false. cbn [andb].
  now rewrite !andb_false_r.
Qed.

Lemma hex_exactly_length (n : nat) (s : string) :
  hex_exactly n s = true -> String.length s = n /\ all is_hex s = true.
Proof.
  unfold hex_exactly. intros H. apply andb_true_iff in H.
  destruct H as [Hlen Hall]. split; [now apply Nat.eqb_eq|exact Hall].
Qed.

End SchemaFacts.

(** X28. How the patterns of the schemas relate: an address has 42
    characters, a transaction hash 66, and both are hex data; no string is
    both; an address is never a private key; and the transaction hashes
    are exactly the private keys written with the [0x] prefix. *)
Theorem schema_relations :
  forall s : string,
    (Validation.addressSchema s = true ->
     String.length s = 42%nat /\ Validation.hexDataSchema s = true
     /\ Validation.txHashSchema s = false
     /\ Validation.privateKeySchema s = false)
    /\ (Validation.txHashSchema s = true ->
        String.length s = 66%nat /\ Validation.hexDataSchema s = true)
    /\ (Validation.txHashSchema s = true
        <-> Validation.privateKeySchema s = true
            /\ startsWith s "0x" = true).
Proof.
  intros s. destruct (startsWith s "0x") eqn:Hp.
  - destruct (prefixed s Hp) as [rest ->].
    unfold Validation.privateKeySchema. rewrite prefixed_not_hex.
    cbn [orb]. cbn [Validation.addressSchema Validation.txHashSchema
                      Validation.hexDataSchema].
    split; [|split].
    + intros H. apply hex_exactly_length in H. destruct H as [Hlen Hall].
      split; [simpl; now rewrite Hlen|]. split; [exact Hall|].
      assert (Validation.hex_exactly 64 rest = false) as ->; [|now split].
      unfold Validation.hex_exactly. rewrite Hlen. reflexivity.
    + intros H. apply hex_exactly_length in H. destruct H as [Hlen Hall].
      split; [simpl; now rewrite Hlen|exact Hall].
    + split; [intros H; now split|now intros [H _]].
  - destruct (not_prefixed s Hp) as (Ha & Ht & Hh & Hk).
    rewrite Ha, Ht. split; [discriminate|]. split; [discriminate|].
    split; [discriminate|]. intros [_ H]. discriminate.
Qed.

(** The first development account. *)
Lemma schema_relations_witness :
  String.length Scenario.account = 42%nat
  /\ Validation.hexDataSchema Scenario.account = true
  /\ Validation.txHashSchema Scenario.account = false
  /\ Validation.privateKeySchema Scenario.account = false.
Proof.
  exact (proj1 (schema_relations Scenario.account) eq_refl).
Defined.
